(** * LinkedIn message analyzer: a shallow embedding of the analysis pipeline

    The development follows the Python sources module by module:
    [parser], [direction], [analyzer], [outbound_analyzer] and
    [sales_analyzer]; the modules [re] and [difflib] hold what the sources
    use of these two libraries.  Three modules come after them because of
    what they need: [outbound_templates] (the template table of
    outbound_analyzer.py), [metrics] (the sentiment and metric columns of
    analyzer.py) and [main] (the stages in the sequence of main.py).
    A pandas DataFrame is a list of row records
    that carry their index label; a column that may hold NaN/NaT is an
    [option]; Python exceptions are the left summand of [result].

    Numbers.  A pandas timestamp is an integer count of nanoseconds since
    the epoch ([Z]), [None] being NaT.  Floating-point columns (hours,
    sentiment, scores, similarity ratios) are read as exact rationals [Q]. *)

From Stdlib Require Import List ZArith QArith Bool Arith Lia Lqa Ascii.
From Stdlib Require String.
From Stdlib Require Import Sorted Permutation OrderedTypeEx.
Import ListNotations.
Import String.StringSyntax.

Abbreviation string := String.string.

Local Open Scope string_scope.
Local Open Scope Z_scope.
Local Open Scope list_scope.

(** ** Python exceptions and the error monad *)

Inductive exn : Type :=
| IndexError
| KeyError
| ZeroDivisionError.

Definition result (A : Type) : Type := (exn + A)%type.

Definition ret {A : Type} (a : A) : result A := inr a.
Definition raise {A : Type} (e : exn) : result A := inl e.
Definition bind {A B : Type} (m : result A) (k : A -> result B) : result B :=
  match m with
  | inl e => inl e
  | inr a => k a
  end.

Notation "x <- m ;; k" := (bind m (fun x => k))
  (at level 61, m at next level, right associativity).

(** [s.iloc[0]]: the first element, or IndexError on an empty selection. *)
Definition iloc0 {A : Type} (s : list A) : result A :=
  match s with
  | [] => raise IndexError
  | x :: _ => ret x
  end.

(** ** A stable sort

    pandas sorts a frame on several keys with a lexicographic argsort,
    which keeps rows with equal keys in their original order, and Python's
    [list.sort] is stable as well.  Both are modelled by insertion from the
    right: a row is placed before the first row that is not smaller. *)

Section StableSort.
Context {A : Type}.
Variable leb : A -> A -> bool.

Fixpoint insert_row (x : A) (l : list A) : list A :=
    match l with
    | [] => [x]
    | y :: l' => if leb x y then x :: l else y :: insert_row x l'
    end.

Definition stable_sort (l : list A) : list A :=
    fold_right insert_row [] l.

Definition le_rel (a b : A) : Prop := leb a b = true.

Lemma insert_row_perm x l : Permutation (insert_row x l) (x :: l).
  Proof.
    induction l as [|y l IH]; simpl; [reflexivity|].
    destruct (leb x y); [reflexivity|].
    rewrite IH. apply perm_swap.
  Qed.

Lemma stable_sort_perm l : Permutation (stable_sort l) l.
  Proof.
    induction l as [|x l IH]; simpl; [constructor|].
    rewrite insert_row_perm. now constructor.
  Qed.

Lemma stable_sort_in x l : In x (stable_sort l) <-> In x l.
  Proof.
    split; apply Permutation_in;
      [apply stable_sort_perm | symmetry; apply stable_sort_perm].
  Qed.

Lemma stable_sort_length l : length (stable_sort l) = length l.
  Proof. apply Permutation_length, stable_sort_perm. Qed.

Lemma insert_row_head x l :
    Forall (le_rel x) l -> insert_row x l = x :: l.
  Proof.
    destruct l as [|y l]; simpl; [reflexivity|].
    intros H. inversion H as [|? ? Hy _]; subst.
    unfold le_rel in Hy. now rewrite Hy.
  Qed.

Lemma stable_sort_tied l :
    (forall a b, In a l -> In b l -> leb a b = true) -> stable_sort l = l.
  Proof.
    induction l as [|x l IH]; simpl; intros H; [reflexivity|].
    rewrite IH by (intros; apply H; now right).
    apply insert_row_head, Forall_forall.
    intros y Hy. apply H; [now left | now right].
  Qed.

Hypothesis leb_total : forall a b, leb a b = true \/ leb b a = true.
Hypothesis leb_trans :
    forall a b c, leb a b = true -> leb b c = true -> leb a c = true.

Lemma insert_row_sorted x l :
    StronglySorted le_rel l -> StronglySorted le_rel (insert_row x l).
  Proof.
    induction 1 as [|y l Hs IH Hy]; simpl.
    - repeat constructor.
    - destruct (leb x y) eqn:E.
      + constructor; [now constructor|].
        constructor; [exact E|].
        eapply Forall_impl; [|exact Hy].
        intros z Hz. now apply leb_trans with y.
      + constructor; [exact IH|].
        assert (Hyx : leb y x = true)
          by (destruct (leb_total x y) as [K|K]; congruence).
        apply Forall_forall. intros z Hz.
        apply (Permutation_in _ (insert_row_perm x l)) in Hz.
        destruct Hz as [<-|Hz]; [exact Hyx|].
        rewrite Forall_forall in Hy. now apply Hy.
  Qed.

Lemma stable_sort_sorted l : StronglySorted le_rel (stable_sort l).
  Proof.
    induction l as [|x l IH]; simpl; [constructor|].
    now apply insert_row_sorted.
  Qed.

Lemma filter_insert_row (p : A -> bool) x l :
    StronglySorted le_rel l ->
    filter p (insert_row x l) =
    if p x then insert_row x (filter p l) else filter p l.
  Proof.
    induction 1 as [|y l Hs IH Hy]; simpl.
    - now destruct (p x).
    - destruct (leb x y) eqn:E.
      + simpl. destruct (p x); [|reflexivity].
        symmetry. apply insert_row_head.
        assert (Hall : Forall (le_rel x) (y :: l)).
        { constructor; [exact E|].
          eapply Forall_impl; [|exact Hy].
          intros z Hz. now apply leb_trans with y. }
        apply Forall_forall. intros z Hz.
        rewrite Forall_forall in Hall. apply Hall.
        change (In z (filter p (y :: l))) in Hz.
        now apply filter_In in Hz.
      + simpl. rewrite IH.
        destruct (p y), (p x); simpl; try reflexivity.
        now rewrite E.
  Qed.

  (** Selecting rows commutes with sorting: the selected rows come out in
      the order in which sorting them alone would put them. *)
Lemma filter_stable_sort (p : A -> bool) l :
    filter p (stable_sort l) = stable_sort (filter p l).
  Proof.
    induction l as [|x l IH]; simpl; [reflexivity|].
    rewrite filter_insert_row by apply stable_sort_sorted.
    rewrite IH. now destruct (p x).
  Qed.

  (** Stability: rows that are pairwise tied keep their input order. *)
Lemma stable_sort_stable (p : A -> bool) l :
    (forall a b, p a = true -> p b = true -> leb a b = true) ->
    filter p (stable_sort l) = filter p l.
  Proof.
    intros H. rewrite filter_stable_sort. apply stable_sort_tied.
    intros a b Ha Hb. apply filter_In in Ha, Hb. now apply H.
  Qed.
End StableSort.

Lemma stable_sort_ext {A : Type} (f g : A -> A -> bool) (l : list A) :
  (forall a b, In a l -> In b l -> f a b = g a b) ->
  stable_sort f l = stable_sort g l.
Proof.
  induction l as [|x l IH]; simpl; intros H; [reflexivity|].
  rewrite <- IH by (intros; apply H; now right).
  assert (Hin : forall y, In y (stable_sort f l) -> In y l)
    by (intros y; apply stable_sort_in).
  assert (Hx : forall y, In y (stable_sort f l) -> f x y = g x y)
    by (intros y Hy; apply H; [now left | right; now apply Hin]).
  clear H IH Hin. induction (stable_sort f l) as [|y s IHs]; simpl.
  - reflexivity.
  - rewrite <- (Hx y) by now left.
    destruct (f x y); [reflexivity|].
    f_equal. apply IHs. intros z Hz. apply Hx. now right.
Qed.

(** Sorting a frame that is in order already changes nothing. *)
Lemma stable_sort_of_sorted {A : Type} (leb : A -> A -> bool) (l : list A) :
  StronglySorted (le_rel leb) l -> stable_sort leb l = l.
Proof.
  induction 1 as [|x l Hs IH Hall]; simpl; [reflexivity|].
  rewrite IH. now apply insert_row_head.
Qed.

(** ** Timestamps

    A [datetime64[ns, UTC]] cell: nanoseconds since the epoch, or NaT. *)

Definition Timestamp : Type := option Z.

(** Sort order of a timestamp column: ascending, NaT last
    ([na_position='last']). *)
Definition ts_leb (a b : Timestamp) : bool :=
  match a, b with
  | Some x, Some y => x <=? y
  | _, None => true
  | None, Some _ => false
  end.

(** [a > b] on timestamps; a comparison with NaT is False. *)
Definition ts_gt (a b : Timestamp) : bool :=
  match a, b with
  | Some x, Some y => y <? x
  | _, _ => false
  end.

Definition ts_eqb (a b : Timestamp) : bool :=
  match a, b with
  | Some x, Some y => x =? y
  | None, None => true
  | _, _ => false
  end.

Definition ns_per_hour : positive := 3600000000000.

(** [(a - b).total_seconds() / 3600]; NaT propagates to NaN, a null cell. *)
Definition hours_between (a b : Timestamp) : option Q :=
  match a, b with
  | Some x, Some y => Some ((x - y) # ns_per_hour)
  | _, _ => None
  end.

Lemma ts_leb_total a b : ts_leb a b = true \/ ts_leb b a = true.
Proof.
  destruct a as [x|], b as [y|]; simpl; auto.
  destruct (Z.leb_spec x y); [now left|right].
  apply Z.leb_le. lia.
Qed.

Lemma ts_leb_trans a b c :
  ts_leb a b = true -> ts_leb b c = true -> ts_leb a c = true.
Proof.
  destruct a as [x|], b as [y|], c as [z|]; simpl; try congruence.
  rewrite !Z.leb_le. lia.
Qed.

Lemma ts_eqb_eq a b : ts_eqb a b = true <-> a = b.
Proof.
  destruct a as [x|], b as [y|]; simpl; try (split; congruence).
  rewrite Z.eqb_eq. split; congruence.
Qed.

(** ** Ordering of string keys (code-point order) *)

Lemma string_compare_refl (a : string) : String.compare a a = Eq.
Proof. exact (proj2 (String_as_OT.cmp_eq a a) eq_refl). Qed.

Lemma string_leb_trans (a b c : string) :
  String.leb a b = true -> String.leb b c = true -> String.leb a c = true.
Proof.
  unfold String.leb.
  destruct (String.compare a b) eqn:Eab; try discriminate; intros _;
    destruct (String.compare b c) eqn:Ebc; try discriminate; intros _.
  - apply String_as_OT.cmp_eq in Eab, Ebc. subst.
    now rewrite string_compare_refl.
  - apply String_as_OT.cmp_eq in Eab. subst. now rewrite Ebc.
  - apply String_as_OT.cmp_eq in Ebc. subst. now rewrite Eab.
  - apply String_as_OT.cmp_lt in Eab, Ebc.
    pose proof (String_as_OT.lt_trans _ _ _ Eab Ebc) as H.
    apply String_as_OT.cmp_lt in H. unfold String_as_OT.cmp in H.
    now rewrite H.
Qed.

(** ** [df.sort_values(['thread_id', 'timestamp'])]

    The frame is sorted on the thread identifier first and on the timestamp
    second.  With more than one key pandas ignores [kind] and uses a
    lexicographic argsort, which is stable. *)

Section SortValues.
Context {R : Type}.
Variable thread_of : R -> string.
Variable ts_of : R -> Timestamp.

Definition key_leb (a b : R) : bool :=
    match String.compare (thread_of a) (thread_of b) with
    | Lt => true
    | Eq => ts_leb (ts_of a) (ts_of b)
    | Gt => false
    end.

Definition row_ts_leb (a b : R) : bool := ts_leb (ts_of a) (ts_of b).

Definition sort_values_thread_timestamp (df : list R) : list R :=
    stable_sort key_leb df.

  (** [df.sort_values('timestamp')] on one key. *)
Definition sort_values_timestamp (df : list R) : list R :=
    stable_sort row_ts_leb df.

Definition in_thread (t : string) (r : R) : bool :=
    String.eqb (thread_of r) t.

Definition same_key (t : string) (ts : Timestamp) (r : R) : bool :=
    String.eqb (thread_of r) t && ts_eqb (ts_of r) ts.

Lemma key_leb_total a b : key_leb a b = true \/ key_leb b a = true.
  Proof.
    unfold key_leb. rewrite (String.compare_antisym (thread_of b)).
    destruct (String.compare (thread_of a) (thread_of b)); simpl; auto.
    apply ts_leb_total.
  Qed.

Lemma key_leb_trans a b c :
    key_leb a b = true -> key_leb b c = true -> key_leb a c = true.
  Proof.
    unfold key_leb.
    destruct (String.compare (thread_of a) (thread_of b)) eqn:Eab;
      try discriminate;
      destruct (String.compare (thread_of b) (thread_of c)) eqn:Ebc;
      try discriminate; intros Hab Hbc.
    - apply String_as_OT.cmp_eq in Eab, Ebc. rewrite Eab, Ebc.
      rewrite string_compare_refl. now apply ts_leb_trans with (ts_of b).
    - apply String_as_OT.cmp_eq in Eab. rewrite Eab. now rewrite Ebc.
    - apply String_as_OT.cmp_eq in Ebc. rewrite <- Ebc. now rewrite Eab.
    - apply String_as_OT.cmp_lt in Eab, Ebc.
      pose proof (String_as_OT.lt_trans _ _ _ Eab Ebc) as H.
      apply String_as_OT.cmp_lt in H. unfold String_as_OT.cmp in H.
      now rewrite H.
  Qed.

Lemma row_ts_leb_total a b : row_ts_leb a b = true \/ row_ts_leb b a = true.
  Proof. apply ts_leb_total. Qed.

Lemma row_ts_leb_trans a b c :
    row_ts_leb a b = true -> row_ts_leb b c = true -> row_ts_leb a c = true.
  Proof. apply ts_leb_trans. Qed.

Lemma key_leb_same_thread a b :
    thread_of a = thread_of b -> key_leb a b = row_ts_leb a b.
  Proof.
    intros H. unfold key_leb. rewrite H, string_compare_refl. reflexivity.
  Qed.

  (** The rows of one thread, taken from the sorted frame, are the rows of
      that thread sorted on the timestamp alone. *)
Lemma thread_of_sorted t df :
    filter (in_thread t) (sort_values_thread_timestamp df) =
    sort_values_timestamp (filter (in_thread t) df).
  Proof.
    unfold sort_values_thread_timestamp, sort_values_timestamp.
    rewrite filter_stable_sort by
      (first [exact key_leb_total | exact key_leb_trans]).
    apply stable_sort_ext. intros a b Ha Hb.
    apply filter_In in Ha, Hb. destruct Ha as [_ Ha], Hb as [_ Hb].
    unfold in_thread in Ha, Hb. apply String.eqb_eq in Ha, Hb.
    apply key_leb_same_thread. congruence.
  Qed.

Lemma thread_sorted_by_timestamp t df :
    StronglySorted (fun a b => ts_leb (ts_of a) (ts_of b) = true)
      (filter (in_thread t) (sort_values_thread_timestamp df)).
  Proof.
    rewrite thread_of_sorted.
    apply (stable_sort_sorted row_ts_leb row_ts_leb_total row_ts_leb_trans).
  Qed.

Lemma same_key_tied t ts a b :
    same_key t ts a = true -> same_key t ts b = true -> key_leb a b = true.
  Proof.
    unfold same_key. rewrite !andb_true_iff, !String.eqb_eq, !ts_eqb_eq.
    intros [Ha1 Ha2] [Hb1 Hb2].
    rewrite key_leb_same_thread by congruence.
    unfold row_ts_leb. rewrite Ha2, Hb2.
    destruct (ts_leb_total ts ts); assumption.
  Qed.
End SortValues.

(** ** Parsing a timestamp cell

    [pd.to_datetime(..., utc=True, errors="coerce")] is a parameter of the
    loader's model.  [to_datetime_utc] is an instance for the layout the
    export itself uses, [YYYY-MM-DD HH:MM:SS UTC]; any other text is coerced
    to NaT. *)

Definition digit_of (c : ascii) : option Z :=
  let n := Z.of_N (N_of_ascii c) in
  if (48 <=? n) && (n <=? 57) then Some (n - 48) else None.

Fixpoint number_of (cs : list ascii) (acc : Z) : option Z :=
  match cs with
  | [] => Some acc
  | c :: cs' =>
      match digit_of c with
      | Some d => number_of cs' (10 * acc + d)
      | None => None
      end
  end.

Definition is_leap (y : Z) : bool :=
  ((y mod 4 =? 0) && negb (y mod 100 =? 0)) || (y mod 400 =? 0).

Definition days_in_month (y m : Z) : Z :=
  if m =? 2 then (if is_leap y then 29 else 28)
  else if (m =? 4) || (m =? 6) || (m =? 9) || (m =? 11) then 30 else 31.

(** Days from 1970-01-01 to the given civil date. *)
Definition days_from_civil (y m d : Z) : Z :=
  let y' := if m <=? 2 then y - 1 else y in
  let era := y' / 400 in
  let yoe := y' - era * 400 in
  let mp := if 2 <? m then m - 3 else m + 9 in
  let doy := (153 * mp + 2) / 5 + d - 1 in
  let doe := yoe * 365 + yoe / 4 - yoe / 100 + doy in
  era * 146097 + doe - 719468.

Definition to_datetime_utc (s : string) : Timestamp :=
  match String.list_ascii_of_string s with
  | [y1; y2; y3; y4; d1; m1; m2; d2; a1; a2; sp;
     h1; h2; c1; n1; n2; c2; s1; s2; sp2; u; t; c] =>
      if negb (String.eqb (String.string_of_list_ascii
                             [d1; d2; sp; c1; c2; sp2; u; t; c])
                 "-- :: UTC")
      then None
      else
        match number_of [y1; y2; y3; y4] 0, number_of [m1; m2] 0,
              number_of [a1; a2] 0, number_of [h1; h2] 0,
              number_of [n1; n2] 0, number_of [s1; s2] 0 with
        | Some y, Some m, Some d, Some hh, Some mm, Some ss =>
            if (1 <=? m) && (m <=? 12) && (1 <=? d)
               && (d <=? days_in_month y m)
               && (hh <? 24) && (mm <? 60) && (ss <? 60)
            then Some ((((days_from_civil y m d * 24 + hh) * 60 + mm) * 60
                        + ss) * 1000000000)
            else None
        | _, _, _, _, _, _ => None
        end
  | _ => None
  end.

Example to_datetime_utc_epoch :
  to_datetime_utc "1970-01-01 00:00:00 UTC" = Some 0.
Proof. reflexivity. Qed.

Example to_datetime_utc_2023 :
  to_datetime_utc "2023-01-15 10:30:00 UTC" = Some 1673778600000000000.
Proof. reflexivity. Qed.

Example to_datetime_utc_garbage : to_datetime_utc "not a date" = None.
Proof. reflexivity. Qed.

(** * src/parser.py *)

Module parser.

  (** One line of the export, by its normalised headers; an empty cell is
      [None] (NaN). *)
Record CsvRow : Type := mkCsvRow {
    CONVERSATION_ID : option string;
    FROM : option string;
    TO : option string;
    DATE : option string;
    CONTENT : option string
  }.

  (** A row of the cleaned frame.  [idx] is the index label, the number of
      the line in the file.  The optional pass-through columns play no part
      in the analysis and are left out. *)
Record Row : Type := mkRow {
    idx : nat;
    thread_id : string;
    sender : string;
    recipient : option string;
    timestamp : Timestamp;
    content : string
  }.

Section Loader.
Variable to_datetime : string -> Timestamp.

    (** [pd.to_datetime(df["timestamp"], utc=True, errors="coerce")]
        on one cell. *)
Definition coerce (cell : option string) : Timestamp :=
      match cell with
      | Some s => to_datetime s
      | None => None
      end.

    (** [df.dropna(subset=['thread_id', 'sender', 'content'])] on one row,
        after the renaming and the conversion of the timestamp. *)
Definition clean_row (i : nat) (r : CsvRow) : option Row :=
      match CONVERSATION_ID r, FROM r, CONTENT r with
      | Some t, Some s, Some c =>
          Some {| idx := i; thread_id := t; sender := s; recipient := TO r;
                  timestamp := coerce (DATE r); content := c |}
      | _, _, _ => None
      end.

Fixpoint dropna_from (i : nat) (table : list CsvRow) : list Row :=
      match table with
      | [] => []
      | r :: rest =>
          match clean_row i r with
          | Some m => m :: dropna_from (S i) rest
          | None => dropna_from (S i) rest
          end
      end.

Definition load_messages_csv (table : list CsvRow) : list Row :=
      sort_values_thread_timestamp thread_id timestamp (dropna_from 0 table).

Definition essential (r : CsvRow) : Prop :=
      CONVERSATION_ID r <> None /\ FROM r <> None /\ CONTENT r <> None.

Lemma clean_row_some i r :
      essential r <-> exists m, clean_row i r = Some m.
    Proof.
      unfold essential, clean_row.
      destruct (CONVERSATION_ID r), (FROM r), (CONTENT r); split;
        try (intros [? [? ?]]; congruence);
        try (intros [m Hm]; discriminate);
        try (intros _; eauto);
        repeat split; congruence.
    Qed.

Lemma clean_row_fields i r m :
      clean_row i r = Some m ->
      idx m = i /\ timestamp m = coerce (DATE r).
    Proof.
      unfold clean_row.
      destruct (CONVERSATION_ID r), (FROM r), (CONTENT r); try discriminate.
      intros H. injection H as <-. now split.
    Qed.

Lemma dropna_from_in i0 table m :
      In m (dropna_from i0 table) <->
      exists k r, nth_error table k = Some r /\
                  clean_row (i0 + k) r = Some m.
    Proof.
      revert i0. induction table as [|r rest IH]; intros i0; simpl.
      - split; [tauto|]. intros (k & r & Hk & _). now destruct k.
      - assert (Hrest : In m (dropna_from (S i0) rest) <->
                        exists k r', nth_error rest k = Some r' /\
                                     clean_row (i0 + S k) r' = Some m).
        { rewrite IH. split; intros (k & r' & Hk & Hc); exists k, r';
            (split; [exact Hk|]).
          - now replace (i0 + S k)%nat with (S i0 + k)%nat by lia.
          - now replace (S i0 + k)%nat with (i0 + S k)%nat by lia. }
        split.
        + intros Hin.
          assert (Hcase : clean_row i0 r = Some m \/
                          In m (dropna_from (S i0) rest)).
          { destruct (clean_row i0 r) as [m'|]; [|now right].
            destruct Hin as [->|Hin]; [now left | now right]. }
          destruct Hcase as [Hc|Hr].
          * exists 0%nat, r. split; [reflexivity|].
            now rewrite Nat.add_0_r.
          * apply Hrest in Hr. destruct Hr as (k & r' & Hk & Hc).
            exists (S k), r'. now split.
        + intros (k & r' & Hk & Hc). destruct k as [|k]; simpl in Hk.
          * injection Hk as ->. rewrite Nat.add_0_r in Hc. rewrite Hc.
            now left.
          * assert (Hr : In m (dropna_from (S i0) rest))
              by (apply Hrest; eauto).
            destruct (clean_row i0 r); [now right | exact Hr].
    Qed.

Lemma load_messages_csv_in table m :
      In m (load_messages_csv table) <->
      exists k r, nth_error table k = Some r /\ clean_row k r = Some m.
    Proof.
      unfold load_messages_csv, sort_values_thread_timestamp.
      rewrite stable_sort_in. apply dropna_from_in.
    Qed.
End Loader.

(** C3, as amended.  The loader drops exactly the lines that miss the thread
    identifier, the sender or the content.  A line that has the three is
    kept whatever its date cell holds, and its timestamp is the coerced
    cell: NaT when the text cannot be parsed. *)
Theorem load_drops_only_missing_essentials
  (to_datetime : string -> Timestamp) (table : list CsvRow)
  (i : nat) (r : CsvRow) :
  nth_error table i = Some r ->
  ((exists m, In m (load_messages_csv to_datetime table) /\ idx m = i) <->
   essential r) /\
  (forall m, In m (load_messages_csv to_datetime table) -> idx m = i ->
     timestamp m = coerce to_datetime (DATE r)).
Proof.
  intros Hi. split; [split|].
  - intros (m & Hin & Hidx).
    apply load_messages_csv_in in Hin. destruct Hin as (k & r' & Hk & Hc).
    pose proof (clean_row_fields _ _ _ _ Hc) as Hf.
    assert (Hki : k = i) by (destruct Hf; congruence).
    rewrite Hki in Hk, Hc.
    assert (Hr : r' = r) by congruence. rewrite Hr in Hc.
    apply (proj2 (clean_row_some to_datetime i r)). now exists m.
  - intros He. apply (proj1 (clean_row_some to_datetime i r)) in He.
    destruct He as [m Hm]. exists m. split.
    + apply load_messages_csv_in. eauto.
    + now destruct (clean_row_fields _ _ _ _ Hm).
  - intros m Hin Hidx.
    apply load_messages_csv_in in Hin. destruct Hin as (k & r' & Hk & Hc).
    pose proof (clean_row_fields _ _ _ _ Hc) as Hf.
    assert (Hki : k = i) by (destruct Hf; congruence).
    rewrite Hki in Hk.
    assert (Hr : r' = r) by congruence. rewrite Hr in Hf.
    now destruct Hf.
Qed.

Definition unparseable_line : CsvRow :=
  {| CONVERSATION_ID := Some "thread-1"; FROM := Some "Alice";
     TO := Some "Bob"; DATE := Some "not a date";
     CONTENT := Some "Hello Bob" |}.

Definition sample_table : list CsvRow :=
  [ {| CONVERSATION_ID := Some "thread-1"; FROM := Some "Bob";
       TO := Some "Alice"; DATE := Some "2023-01-15 10:30:00 UTC";
       CONTENT := Some "Hi Alice" |};
    unparseable_line ].

Lemma load_drops_only_missing_essentials_witness :
  ((exists m, In m (load_messages_csv to_datetime_utc sample_table) /\
              idx m = 1%nat) <-> essential unparseable_line) /\
  (forall m, In m (load_messages_csv to_datetime_utc sample_table) ->
     idx m = 1%nat -> timestamp m = None).
Proof.
  exact (load_drops_only_missing_essentials to_datetime_utc sample_table
           1%nat unparseable_line eq_refl).
Defined.

(** C3 as stated fails: the line whose date is not a date is in the frame
    that the loader returns. *)
Lemma unparseable_row_is_kept :
  exists m,
    In m (load_messages_csv to_datetime_utc sample_table) /\
    nth_error sample_table (idx m) = Some unparseable_line /\
    DATE unparseable_line = Some "not a date" /\
    to_datetime_utc "not a date" = None /\
    timestamp m = None.
Proof.
  exists {| idx := 1; thread_id := "thread-1"; sender := "Alice";
            recipient := Some "Bob"; timestamp := None;
            content := "Hello Bob" |}.
  repeat split. vm_compute. auto.
Qed.

(** ** More on the loader *)




Lemma dropna_from_labels to_datetime table :
  forall i0,
    NoDup (map idx (dropna_from to_datetime i0 table)) /\
    Forall (fun m => (i0 <= idx m < i0 + length table)%nat)
      (dropna_from to_datetime i0 table).
Proof.
  induction table as [|r rest IH]; intros i0; simpl.
  - split; constructor.
  - destruct (IH (S i0)) as [Hnd Hall].
    assert (Hall' : Forall (fun m => (i0 <= idx m < i0 + S (length rest))%nat)
                      (dropna_from to_datetime (S i0) rest)).
    { eapply Forall_impl; [|exact Hall]. simpl. intros; lia. }
    destruct (clean_row to_datetime i0 r) as [m|] eqn:E; [|now split].
    destruct (clean_row_fields _ _ _ _ E) as [Hi _].
    split.
    + simpl. constructor; [|exact Hnd].
      intros Hin. apply in_map_iff in Hin. destruct Hin as (x & Hx & Hin).
      rewrite Forall_forall in Hall. specialize (Hall x Hin). lia.
    + constructor; [lia | exact Hall'].
Qed.

(** The index labels of the loaded frame are the numbers of the lines kept:
    no label occurs twice, and each is below the number of lines. *)
Theorem load_messages_csv_labels
  (to_datetime : string -> Timestamp) (table : list CsvRow) :
  NoDup (map idx (load_messages_csv to_datetime table)) /\
  (forall m, In m (load_messages_csv to_datetime table) ->
     (idx m < length table)%nat).
Proof.
  destruct (dropna_from_labels to_datetime table 0) as [Hnd Hall].
  unfold load_messages_csv, sort_values_thread_timestamp. split.
  - eapply Permutation_NoDup; [|exact Hnd].
    apply Permutation_map. symmetry. apply stable_sort_perm.
  - intros m Hin. apply stable_sort_in in Hin.
    rewrite Forall_forall in Hall. specialize (Hall m Hin). simpl in Hall.
    lia.
Qed.

(** Loading never invents a row: the frame has at most as many rows as the
    file has lines, and as many when no line misses an essential cell. *)
Theorem load_messages_csv_length
  (to_datetime : string -> Timestamp) (table : list CsvRow) :
  (length (load_messages_csv to_datetime table) <= length table)%nat /\
  (Forall essential table ->
   length (load_messages_csv to_datetime table) = length table).
Proof.
  unfold load_messages_csv, sort_values_thread_timestamp.
  rewrite stable_sort_length.
  assert (H : forall i0,
             (length (dropna_from to_datetime i0 table) <= length table)%nat /\
             (Forall essential table ->
              length (dropna_from to_datetime i0 table) = length table)).
  { induction table as [|r rest IH]; intros i0; simpl.
    - split; [lia | reflexivity].
    - destruct (IH (S i0)) as [Hle Heq].
      destruct (clean_row to_datetime i0 r) as [m|] eqn:E; simpl.
      + split; [lia|]. intros Hall. inversion Hall; subst.
        now rewrite Heq.
      + split; [lia|]. intros Hall. inversion Hall as [|? ? Hr _]; subst.
        apply (clean_row_some to_datetime i0) in Hr.
        destruct Hr as [m Hm]. congruence. }
  apply H.
Qed.

End parser.

(** C4.  The sort on thread and timestamp is a permutation of the frame
    that orders every thread by timestamp and keeps the rows of a thread
    that carry one and the same timestamp in their input order.  The
    statement holds for any row type, so for the loader's sort and for the
    one that opens reply detection alike. *)
Theorem sort_values_stable_within_thread
  {R : Type} (thread_of : R -> string) (ts_of : R -> Timestamp)
  (df : list R) (t : string) :
  Permutation (sort_values_thread_timestamp thread_of ts_of df) df /\
  StronglySorted (fun a b => ts_leb (ts_of a) (ts_of b) = true)
    (filter (in_thread thread_of t)
       (sort_values_thread_timestamp thread_of ts_of df)) /\
  (forall ts,
     filter (same_key thread_of ts_of t ts)
       (sort_values_thread_timestamp thread_of ts_of df) =
     filter (same_key thread_of ts_of t ts) df).
Proof.
  split; [apply stable_sort_perm|]. split.
  - apply thread_sorted_by_timestamp.
  - intros ts. apply stable_sort_stable.
    + apply key_leb_total.
    + apply key_leb_trans.
    + apply same_key_tied.
Qed.

(** Sorting twice is sorting once, so the sort that opens reply detection
    leaves a frame as the loader returned it. *)
Theorem sort_values_idempotent
  {R : Type} (thread_of : R -> string) (ts_of : R -> Timestamp)
  (df : list R) :
  sort_values_thread_timestamp thread_of ts_of
    (sort_values_thread_timestamp thread_of ts_of df) =
  sort_values_thread_timestamp thread_of ts_of df.
Proof.
  unfold sort_values_thread_timestamp.
  apply stable_sort_of_sorted, stable_sort_sorted.
  - apply key_leb_total.
  - apply key_leb_trans.
Qed.

(** * The analysed message frame

    One row of the frame that the analysis stages pass along: the loader's
    columns, the direction columns of [direction.py], the metric columns of
    [analyze_message_sentiment] and [calculate_message_metrics], the reply
    columns of [detect_replies_and_response_times] and the sales columns of
    [classify_sales_messages]. *)

Module msg.

Inductive Direction : Type :=
| outbound
| inbound.

Definition direction_eqb (a b : Direction) : bool :=
  match a, b with
  | outbound, outbound => true
  | inbound, inbound => true
  | _, _ => false
  end.

Record Message : Type := mkMessage {
  idx : nat;
  thread_id : string;
  sender : string;
  recipient : option string;
  timestamp : Timestamp;
  content : string;
  direction : Direction;
  contact_person : option string;
  sentiment_polarity : Q;
  message_length : Z;
  word_count : Z;
  question_count : Z;
  has_greeting : bool;
  has_url : bool;
  has_linkedin_profile : bool;
  is_reply : bool;
  is_first_message : bool;
  is_outbound_initiated : bool;
  response_time_hours : option Q;
  previous_sender : option string;
  is_sales_message : bool;
  sales_type : string
}.

(** [df[col] = v] on one row, for the columns that the stages write. *)

Definition set_is_reply (v : bool) (m : Message) : Message :=
  mkMessage (idx m) (thread_id m) (sender m) (recipient m) (timestamp m)
    (content m) (direction m) (contact_person m) (sentiment_polarity m)
    (message_length m) (word_count m) (question_count m) (has_greeting m)
    (has_url m) (has_linkedin_profile m)
    v (is_first_message m) (is_outbound_initiated m)
    (response_time_hours m) (previous_sender m)
    (is_sales_message m) (sales_type m).

Definition set_is_first_message (v : bool) (m : Message) : Message :=
  mkMessage (idx m) (thread_id m) (sender m) (recipient m) (timestamp m)
    (content m) (direction m) (contact_person m) (sentiment_polarity m)
    (message_length m) (word_count m) (question_count m) (has_greeting m)
    (has_url m) (has_linkedin_profile m)
    (is_reply m) v (is_outbound_initiated m)
    (response_time_hours m) (previous_sender m)
    (is_sales_message m) (sales_type m).

Definition set_is_outbound_initiated (v : bool) (m : Message) : Message :=
  mkMessage (idx m) (thread_id m) (sender m) (recipient m) (timestamp m)
    (content m) (direction m) (contact_person m) (sentiment_polarity m)
    (message_length m) (word_count m) (question_count m) (has_greeting m)
    (has_url m) (has_linkedin_profile m)
    (is_reply m) (is_first_message m) v
    (response_time_hours m) (previous_sender m)
    (is_sales_message m) (sales_type m).

Definition set_response_time_hours (v : option Q) (m : Message) : Message :=
  mkMessage (idx m) (thread_id m) (sender m) (recipient m) (timestamp m)
    (content m) (direction m) (contact_person m) (sentiment_polarity m)
    (message_length m) (word_count m) (question_count m) (has_greeting m)
    (has_url m) (has_linkedin_profile m)
    (is_reply m) (is_first_message m) (is_outbound_initiated m)
    v (previous_sender m)
    (is_sales_message m) (sales_type m).

Definition set_previous_sender (v : option string) (m : Message) : Message :=
  mkMessage (idx m) (thread_id m) (sender m) (recipient m) (timestamp m)
    (content m) (direction m) (contact_person m) (sentiment_polarity m)
    (message_length m) (word_count m) (question_count m) (has_greeting m)
    (has_url m) (has_linkedin_profile m)
    (is_reply m) (is_first_message m) (is_outbound_initiated m)
    (response_time_hours m) v
    (is_sales_message m) (sales_type m).

Definition set_sales (s : bool) (ty : string) (m : Message) : Message :=
  mkMessage (idx m) (thread_id m) (sender m) (recipient m) (timestamp m)
    (content m) (direction m) (contact_person m) (sentiment_polarity m)
    (message_length m) (word_count m) (question_count m) (has_greeting m)
    (has_url m) (has_linkedin_profile m)
    (is_reply m) (is_first_message m) (is_outbound_initiated m)
    (response_time_hours m) (previous_sender m)
    s ty.

(** The columns that reply detection reads and never writes. *)
Definition same_keys (a b : Message) : Prop :=
  idx a = idx b /\ thread_id a = thread_id b /\ sender a = sender b /\
  timestamp a = timestamp b /\ direction a = direction b.

Lemma same_keys_refl a : same_keys a a.
Proof. repeat split. Qed.

Lemma same_keys_trans a b c : same_keys a b -> same_keys b c -> same_keys a c.
Proof.
  unfold same_keys. intros (?&?&?&?&?) (?&?&?&?&?).
  repeat split; congruence.
Qed.

Lemma same_keys_sym a b : same_keys a b -> same_keys b a.
Proof. unfold same_keys. intros (?&?&?&?&?). repeat split; congruence. Qed.

(** [df.loc[label, col] = v]: every row that carries the label is
    written. *)
Definition loc_set (df : list Message) (label : nat)
  (f : Message -> Message) : list Message :=
  map (fun r => if Nat.eqb (idx r) label then f r else r) df.

Definition is_outbound_dir (d : Direction) : bool := direction_eqb d outbound.

Definition is_outbound (m : Message) : bool :=
  direction_eqb (direction m) outbound.

Definition is_inbound (m : Message) : bool :=
  direction_eqb (direction m) inbound.

End msg.

Import msg.

(** * src/direction.py *)

Module direction.

(** One dictionary of [contact_stats], lines 81-91. *)
Record ContactStats : Type := mkContactStats {
  contact : option string;
  total_messages : nat;
  outbound_messages : nat;
  inbound_messages : nat;
  thread_count : nat;
  has_response : bool;
  first_contact : Timestamp;
  last_contact : Timestamp;
  response_rate : Q
}.

(** [df[df['contact_person'] == contact]]; a null contact equals
    nothing. *)
Definition with_contact (c : option string) (m : Message) : bool :=
  match c, contact_person m with
  | Some x, Some y => String.eqb x y
  | _, _ => false
  end.

(** [Series.min()] and [Series.max()] skip NaT. *)
Definition ts_min (a b : Timestamp) : Timestamp :=
  match a, b with
  | Some x, Some y => Some (Z.min x y)
  | Some x, None => Some x
  | None, _ => b
  end.

Definition ts_max (a b : Timestamp) : Timestamp :=
  match a, b with
  | Some x, Some y => Some (Z.max x y)
  | Some x, None => Some x
  | None, _ => b
  end.

Fixpoint distinct (l : list string) : list string :=
  match l with
  | [] => []
  | x :: l' => x :: filter (fun y => negb (String.eqb y x)) (distinct l')
  end.

(** Line 90: the ratio, and 0 when nothing was sent. *)
Definition rate (inbound_count outbound_count : nat) : Q :=
  if (0 <? outbound_count)%nat
  then (inject_Z (Z.of_nat inbound_count) /
        inject_Z (Z.of_nat outbound_count))%Q
  else 0%Q.

(** The body of the loop over contacts, lines 62-91. *)
Definition contact_stats (df : list Message) (c : option string)
  : ContactStats :=
  let contact_df := filter (with_contact c) df in
  let outbound_count := length (filter is_outbound contact_df) in
  let inbound_count := length (filter is_inbound contact_df) in
  {| contact := c;
     total_messages := length contact_df;
     outbound_messages := outbound_count;
     inbound_messages := inbound_count;
     thread_count := length (distinct (map thread_id contact_df));
     has_response := (0 <? inbound_count)%nat;
     first_contact := fold_right ts_min None (map timestamp contact_df);
     last_contact := fold_right ts_max None (map timestamp contact_df);
     response_rate := rate inbound_count outbound_count |}.

(** With no outbound message the rate is the fallback 0. *)
Lemma response_rate_without_outbound df c :
  outbound_messages (contact_stats df c) = 0%nat ->
  response_rate (contact_stats df c) = 0%Q.
Proof. simpl. unfold rate. now intros ->. Qed.

(** ** [identify_user_profile] and [classify_message_direction] *)

Definition count_of (s : string) (senders : list string) : nat :=
  length (filter (String.eqb s) senders).

(** [Series.value_counts()]: the distinct values with their counts, the
    most frequent first.  (pandas does not promise an order among values of
    equal count; here they stay in order of first appearance, and nothing
    below depends on it.) *)
Definition value_counts (senders : list string) : list (string * nat) :=
  stable_sort (fun x y => Nat.leb (snd y) (snd x))
    (map (fun s => (s, count_of s senders)) (distinct senders)).

(** Lines 10-19: [sender_counts.index[0]]. *)
Definition identify_user_profile (df : list Message) : result string :=
  match value_counts (map sender df) with
  | [] => raise IndexError
  | (user_name, _) :: _ => ret user_name
  end.

Definition set_direction (d : Direction) (c : option string) (m : Message)
  : Message :=
  mkMessage (idx m) (thread_id m) (sender m) (recipient m) (timestamp m)
    (content m) d c (sentiment_polarity m)
    (message_length m) (word_count m) (question_count m) (has_greeting m)
    (has_url m) (has_linkedin_profile m)
    (is_reply m) (is_first_message m) (is_outbound_initiated m)
    (response_time_hours m) (previous_sender m)
    (is_sales_message m) (sales_type m).

(** Lines 39-47, on one row. *)
Definition classify_row (user_name : string) (m : Message) : Message :=
  if String.eqb (sender m) user_name
  then set_direction outbound (recipient m) m
  else set_direction inbound (Some (sender m)) m.

(** Lines 21-49; [None] asks for auto-detection. *)
Definition classify_message_direction (df : list Message)
  (user_name : option string) : result (list Message) :=
  user <- match user_name with
          | Some u => ret u
          | None => identify_user_profile df
          end ;;
  ret (map (classify_row user) df).

Lemma distinct_in x l : In x (distinct l) <-> In x l.
Proof.
  induction l as [|a l IH]; simpl; [tauto|].
  rewrite filter_In, IH, negb_true_iff, String.eqb_neq.
  destruct (String.string_dec a x); [tauto|].
  split; [tauto|]. intros [?|?]; [tauto|]. right. split; congruence.
Qed.

Lemma distinct_nodup l : NoDup (distinct l).
Proof.
  induction l as [|a l IH]; simpl; constructor.
  - rewrite filter_In, negb_true_iff, String.eqb_neq. tauto.
  - now apply NoDup_filter.
Qed.

Lemma count_of_absent s senders : ~ In s senders -> count_of s senders = 0%nat.
Proof.
  unfold count_of. induction senders as [|a l IH]; simpl; intros H.
  - reflexivity.
  - destruct (String.eqb_spec s a) as [->|_]; [exfalso; apply H; now left|].
    apply IH. tauto.
Qed.

Lemma count_of_present s senders :
  In s senders -> (0 < count_of s senders)%nat.
Proof.
  unfold count_of. induction senders as [|a l IH]; simpl; intros H.
  - contradiction.
  - destruct (String.eqb_spec s a) as [->|Hne]; simpl; [lia|].
    apply IH. destruct H; [congruence | assumption].
Qed.

Lemma count_order_total (x y : string * nat) :
  Nat.leb (snd y) (snd x) = true \/ Nat.leb (snd x) (snd y) = true.
Proof. rewrite !Nat.leb_le. lia. Qed.

Lemma count_order_trans (x y z : string * nat) :
  Nat.leb (snd y) (snd x) = true -> Nat.leb (snd z) (snd y) = true ->
  Nat.leb (snd z) (snd x) = true.
Proof. rewrite !Nat.leb_le. lia. Qed.

Lemma value_counts_in senders s n :
  In (s, n) (value_counts senders) <->
  In s senders /\ n = count_of s senders.
Proof.
  unfold value_counts. rewrite stable_sort_in, in_map_iff. split.
  - intros (x & E & Hx). injection E as <- <-.
    split; [now apply distinct_in | reflexivity].
  - intros [Hs ->]. exists s. split; [reflexivity | now apply distinct_in].
Qed.

(** The owner that auto-detection names is a sender of the frame, and no
    sender has sent more; on an empty frame there is no owner to name and
    the look-up raises IndexError. *)
Theorem identify_user_profile_most_frequent (df : list Message) :
  match identify_user_profile df with
  | inr user_name =>
      In user_name (map sender df) /\
      forall s,
        (count_of s (map sender df) <= count_of user_name (map sender df))%nat
  | inl e => e = IndexError /\ df = []
  end.
Proof.
  unfold identify_user_profile.
  pose proof (stable_sort_sorted (fun x y : string * nat =>
                                    Nat.leb (snd y) (snd x))
                count_order_total
                (fun a b c H1 H2 => count_order_trans a b c H1 H2)
                (map (fun s => (s, count_of s (map sender df)))
                   (distinct (map sender df)))) as Hs.
  fold (value_counts (map sender df)) in Hs.
  pose proof (value_counts_in (map sender df)) as Hin.
  destruct (value_counts (map sender df)) as [|[u n] rest].
  - simpl. split; [reflexivity|].
    destruct df as [|m df]; [reflexivity|]. exfalso.
    apply (Hin (sender m) (count_of (sender m) (map sender (m :: df)))).
    split; [now left | reflexivity].
  - simpl. destruct (proj1 (Hin u n) (or_introl eq_refl)) as [Hu ->].
    split; [exact Hu|]. intros s.
    destruct (in_dec String.string_dec s (map sender df)) as [Hs'|Hs'].
    + assert (Hmem : In (s, count_of s (map sender df))
                       ((u, count_of u (map sender df)) :: rest))
        by (apply Hin; now split).
      destruct Hmem as [E|Hmem]; [injection E as <-; lia|].
      inversion Hs as [|? ? _ Hall]; subst.
      rewrite Forall_forall in Hall. specialize (Hall _ Hmem).
      unfold le_rel in Hall. simpl in Hall. now apply Nat.leb_le.
    + rewrite (count_of_absent s) by assumption. lia.
Qed.

(** What classification writes: a row is outbound exactly when the owner
    sent it, its contact is then the recipient and otherwise the sender,
    and no row is added, dropped or moved. *)
Theorem classify_message_direction_rows
  (df df' : list Message) (user : string) :
  classify_message_direction df (Some user) = inr df' ->
  Forall2
    (fun m m' =>
       idx m' = idx m /\ thread_id m' = thread_id m /\
       sender m' = sender m /\ timestamp m' = timestamp m /\
       content m' = content m /\
       (direction m' = outbound <-> sender m = user) /\
       (direction m' = inbound <-> sender m <> user) /\
       contact_person m' =
         (if String.eqb (sender m) user then recipient m
          else Some (sender m)))
    df df'.
Proof.
  unfold classify_message_direction. simpl. intros H. injection H as <-.
  induction df as [|m df IH]; simpl; constructor; [|exact IH].
  unfold classify_row.
  destruct (String.eqb_spec (sender m) user) as [E|E]; simpl;
    repeat split; try congruence; try discriminate; tauto.
Qed.

(** The counts of a contact add up, and a contact has no more threads than
    messages. *)
Theorem contact_stats_counts (df : list Message) (c : option string) :
  total_messages (contact_stats df c) =
    (outbound_messages (contact_stats df c) +
     inbound_messages (contact_stats df c))%nat /\
  (thread_count (contact_stats df c)
   <= total_messages (contact_stats df c))%nat /\
  (has_response (contact_stats df c) = true <->
   (0 < inbound_messages (contact_stats df c))%nat).
Proof.
  simpl. split; [|split].
  - induction (filter (with_contact c) df) as [|m l IH]; simpl; [reflexivity|].
    unfold is_outbound, is_inbound in *.
    destruct (direction m); simpl in *; lia.
  - rewrite <- (length_map thread_id (filter (with_contact c) df)).
    induction (map thread_id (filter (with_contact c) df)) as [|t l IH];
      simpl; [lia|].
    pose proof (filter_length_le (fun y => negb (String.eqb y t))
                  (distinct l)).
    lia.
  - apply Nat.ltb_lt.
Qed.


(** ** [get_conversation_summary] and [analyze_response_patterns] *)

Definition opt_eqb (a b : option string) : bool :=
  match a, b with
  | Some x, Some y => String.eqb x y
  | None, None => true
  | _, _ => false
  end.

(** [Series.unique()] on a column that may hold missing values: the values
    in order of first appearance, the missing value once. *)
Fixpoint unique_contacts (l : list (option string)) : list (option string) :=
  match l with
  | [] => []
  | x :: l' => x :: filter (fun y => negb (opt_eqb y x)) (unique_contacts l')
  end.

(** Descending order of timestamps; pandas keeps NaT last in either
    direction. *)
Definition ts_geb (a b : Timestamp) : bool :=
  match a, b with
  | Some x, Some y => (y <=? x)%Z
  | Some _, None => true
  | None, Some _ => false
  | None, None => true
  end.

Definition later_contact (a b : ContactStats) : bool :=
  ts_geb (last_contact a) (last_contact b).

(** Lines 51-97.  A frame built from an empty list of dictionaries has no
    column [last_contact], and sorting by it raises KeyError.  (pandas does
    not promise an order among contacts with the same last timestamp; here
    they stay in order of first appearance, and nothing below depends on
    it.) *)
Definition get_conversation_summary (df : list Message)
  : result (list ContactStats) :=
  match map (contact_stats df) (unique_contacts (map contact_person df)) with
  | [] => raise KeyError
  | stats => ret (stable_sort later_contact stats)
  end.

Record ResponsePatterns : Type := mkResponsePatterns {
  total_contacts : nat;
  contacts_who_responded : nat;
  contacts_who_ghosted : nat;
  overall_response_rate : Q;
  weighted_response_rate : Q;
  avg_messages_per_contact : Q;
  avg_outbound_per_contact : Q;
  most_active_contact : option string;
  ghosted_contacts : list (option string)
}.

Definition is_ghosted (s : ContactStats) : bool :=
  (0 <? outbound_messages s)%nat && (inbound_messages s =? 0)%nat.

(** [Series.idxmax()]: the first row that holds the largest value. *)
Fixpoint idxmax (first : ContactStats) (rest : list ContactStats)
  : ContactStats :=
  match rest with
  | [] => first
  | r :: rest' =>
      let best := idxmax r rest' in
      if (total_messages first <? total_messages best)%nat
      then best else first
  end.

Definition mean_count (l : list nat) : Q :=
  (inject_Z (Z.of_nat (list_sum l)) / inject_Z (Z.of_nat (length l)))%Q.

(** Lines 99-133. *)
Definition analyze_response_patterns (df : list Message)
  : result ResponsePatterns :=
  summary <- get_conversation_summary df ;;
  match summary with
  | [] => raise KeyError
  | first :: rest =>
      let responded := filter has_response summary in
      let ghosted := filter is_ghosted summary in
      ret {| total_contacts := length summary;
             contacts_who_responded := length responded;
             contacts_who_ghosted := length ghosted;
             overall_response_rate :=
               rate (length responded) (length summary);
             weighted_response_rate :=
               rate (list_sum (map inbound_messages summary))
                    (list_sum (map outbound_messages summary));
             avg_messages_per_contact :=
               mean_count (map total_messages summary);
             avg_outbound_per_contact :=
               mean_count (map outbound_messages summary);
             most_active_contact := contact (idxmax first rest);
             ghosted_contacts := map contact ghosted |}
  end.

Definition has_contact (m : Message) : bool :=
  match contact_person m with
  | Some _ => true
  | None => false
  end.

Lemma opt_eqb_spec a b : reflect (a = b) (opt_eqb a b).
Proof.
  destruct a as [x|], b as [y|]; simpl; try (constructor; congruence).
  destruct (String.eqb_spec x y); constructor; congruence.
Qed.

Lemma unique_contacts_in x l : In x (unique_contacts l) <-> In x l.
Proof.
  induction l as [|a l IH]; simpl; [tauto|].
  rewrite filter_In, IH, negb_true_iff.
  destruct (opt_eqb_spec x a) as [->|Hne]; [intuition|].
  split; [tauto|]. intros [?|?]; [congruence|]. right. now split.
Qed.

Lemma unique_contacts_nodup l : NoDup (unique_contacts l).
Proof.
  induction l as [|a l IH]; simpl; constructor.
  - rewrite filter_In, negb_true_iff.
    destruct (opt_eqb_spec a a); [intuition discriminate | congruence].
  - now apply NoDup_filter.
Qed.

Lemma with_contact_eq c m :
  with_contact c m = true <-> c = contact_person m /\ has_contact m = true.
Proof.
  unfold with_contact, has_contact.
  destruct c as [x|], (contact_person m) as [y|]; simpl;
    try (split; [discriminate | intros [? ?]; congruence]).
  rewrite String.eqb_eq. split; [intros ->; now split | intros [E _]].
  congruence.
Qed.

(** Counting the rows of a frame contact by contact. *)
Lemma count_by_contact (p : Message -> bool) (df : list Message) cs :
  NoDup cs ->
  list_sum (map (fun c => length (filter p (filter (with_contact c) df))) cs) =
  length (filter (fun m => p m && existsb (fun c => with_contact c m) cs) df).
Proof.
  induction cs as [|c cs IH]; intros Hnd.
  - simpl. induction df as [|m df IHd]; simpl; [reflexivity|].
    now rewrite andb_false_r.
  - inversion Hnd as [|? ? Hnotin Hnd']; subst.
    cbn [map].
    match goal with
    | |- context [list_sum (?x :: ?r)] =>
        change (list_sum (x :: r)) with (x + list_sum r)%nat
    end.
    rewrite IH by assumption. clear IH.
    induction df as [|m df IHd]; [reflexivity|].
    cbn [filter existsb] in IHd |- *.
    destruct (with_contact c m) eqn:E.
    + assert (Hcs : existsb (fun c' => with_contact c' m) cs = false).
      { apply not_true_is_false. intros K. apply existsb_exists in K.
        destruct K as (c' & Hc' & E'). apply with_contact_eq in E, E'.
        apply Hnotin. destruct E as [-> _], E' as [<- _]. exact Hc'. }
      rewrite Hcs. cbn [filter].
      destruct (p m); cbn [andb orb length]; lia.
    + cbn [filter].
      destruct (p m), (existsb (fun c' => with_contact c' m) cs);
        cbn [andb orb length]; lia.
Qed.

Lemma known_contact_listed (df : list Message) m :
  In m df ->
  existsb (fun c => with_contact c m) (unique_contacts (map contact_person df))
  = has_contact m.
Proof.
  intros Hm. destruct (has_contact m) eqn:E.
  - apply existsb_exists. exists (contact_person m). split.
    + apply unique_contacts_in. now apply in_map.
    + now apply with_contact_eq.
  - apply not_true_is_false. intros K. apply existsb_exists in K.
    destruct K as (c & _ & Hc). apply with_contact_eq in Hc.
    destruct Hc as [_ Hc]. congruence.
Qed.

Lemma count_over_contacts (p : Message -> bool) (df : list Message) :
  list_sum
    (map (fun c => length (filter p (filter (with_contact c) df)))
       (unique_contacts (map contact_person df))) =
  length (filter (fun m => p m && has_contact m) df).
Proof.
  rewrite count_by_contact by apply unique_contacts_nodup.
  f_equal. apply filter_ext_in. intros m Hm.
  now rewrite known_contact_listed.
Qed.

Lemma later_contact_total a b :
  later_contact a b = true \/ later_contact b a = true.
Proof.
  unfold later_contact, ts_geb.
  destruct (last_contact a), (last_contact b); auto.
  rewrite !Z.leb_le. lia.
Qed.

Lemma later_contact_trans a b c :
  later_contact a b = true -> later_contact b c = true ->
  later_contact a c = true.
Proof.
  unfold later_contact, ts_geb.
  destruct (last_contact a), (last_contact b), (last_contact c);
    auto; try discriminate.
  rewrite !Z.leb_le. lia.
Qed.

Lemma list_sum_perm l l' : Permutation l l' -> list_sum l = list_sum l'.
Proof.
  induction 1; simpl; lia.
Qed.

Lemma summary_unfold (df : list Message) :
  match get_conversation_summary df with
  | inr summary =>
      df <> [] /\
      summary =
        stable_sort later_contact
          (map (contact_stats df) (unique_contacts (map contact_person df)))
  | inl e => e = KeyError /\ df = []
  end.
Proof.
  unfold get_conversation_summary.
  destruct df as [|m df]; [now split|].
  cbn [map unique_contacts]. split; [discriminate | reflexivity].
Qed.

Lemma summary_sum (f : ContactStats -> nat) (p : Message -> bool) df :
  (forall c, f (contact_stats df c) =
             length (filter p (filter (with_contact c) df))) ->
  list_sum
    (map f
       (stable_sort later_contact
          (map (contact_stats df) (unique_contacts (map contact_person df)))))
  = length (filter (fun m => p m && has_contact m) df).
Proof.
  intros Hf.
  rewrite (list_sum_perm _ _
             (Permutation_map f (stable_sort_perm later_contact _))).
  rewrite map_map, <- count_over_contacts.
  f_equal. apply map_ext. exact Hf.
Qed.

(** The summary table has one row for each distinct contact, the contact
    heard from most recently first and those never dated last; its message
    totals add up to the number of rows of the frame that name a contact,
    so no such message is counted twice or left out.  On the empty frame
    there is no table to sort and the function raises KeyError. *)
Theorem conversation_summary_covers_the_frame (df : list Message) :
  match get_conversation_summary df with
  | inr summary =>
      df <> [] /\
      Permutation (map contact summary)
        (unique_contacts (map contact_person df)) /\
      NoDup (map contact summary) /\
      list_sum (map total_messages summary) =
        length (filter has_contact df) /\
      StronglySorted (fun a b => later_contact a b = true) summary
  | inl e => e = KeyError /\ df = []
  end.
Proof.
  pose proof (summary_unfold df) as H.
  destruct (get_conversation_summary df) as [e|summary]; [exact H|].
  destruct H as [Hne ->].
  assert (Hperm : Permutation
                    (map contact
                       (stable_sort later_contact
                          (map (contact_stats df)
                             (unique_contacts (map contact_person df)))))
                    (unique_contacts (map contact_person df))).
  { rewrite (Permutation_map contact (stable_sort_perm later_contact _)).
    rewrite map_map. simpl. now rewrite map_id. }
  split; [exact Hne|]. split; [exact Hperm|]. split; [|split].
  - eapply Permutation_NoDup; [symmetry; exact Hperm|].
    apply unique_contacts_nodup.
  - rewrite (summary_sum total_messages (fun _ => true)).
    + apply f_equal, filter_ext. intros m. reflexivity.
    + intros c. simpl. f_equal. symmetry.
      induction (filter (with_contact c) df) as [|x l IH]; simpl;
        [reflexivity | now rewrite IH].
  - apply (stable_sort_sorted later_contact later_contact_total
             later_contact_trans).
Qed.

Lemma filter_none {A : Type} (p : A -> bool) (l : list A) :
  (forall x, In x l -> p x = false) -> filter p l = [].
Proof.
  induction l as [|x l IH]; simpl; intros H; [reflexivity|].
  rewrite (H x) by now left. apply IH. intros y Hy. apply H. now right.
Qed.

Lemma idxmax_in first rest : In (idxmax first rest) (first :: rest).
Proof.
  revert first. induction rest as [|r rest IH]; intros first; simpl.
  - now left.
  - destruct (total_messages first <? total_messages (idxmax r rest))%nat.
    + right. apply IH.
    + now left.
Qed.

Lemma idxmax_largest first rest s :
  In s (first :: rest) ->
  (total_messages s <= total_messages (idxmax first rest))%nat.
Proof.
  revert first. induction rest as [|r rest IH]; intros first Hs.
  - destruct Hs as [<-|[]]. simpl. lia.
  - cbn [idxmax].
    destruct (Nat.ltb_spec (total_messages first)
                (total_messages (idxmax r rest))) as [Hlt|Hge].
    + destruct Hs as [<-|Hs]; [lia | now apply IH].
    + destruct Hs as [<-|Hs]; [lia|].
      specialize (IH r Hs). lia.
Qed.

Lemma rate_unit n d : (n <= d)%nat -> (0 <= rate n d)%Q /\ (rate n d <= 1)%Q.
Proof.
  intros H. unfold rate.
  destruct (0 <? d)%nat eqn:E.
  - apply Nat.ltb_lt in E.
    assert (Hd : (0 < inject_Z (Z.of_nat d))%Q) by (unfold Qlt; simpl; lia).
    split.
    + apply Qle_shift_div_l; [exact Hd|]. rewrite Qmult_0_l.
      unfold Qle. simpl. lia.
    + apply Qle_shift_div_r; [exact Hd|]. rewrite Qmult_1_l.
      unfold Qle. simpl. lia.
  - split; [apply Qle_refl | discriminate].
Qed.

Lemma responded_or_ghosted (l : list ContactStats) :
  (forall s, In s l -> has_response s = (0 <? inbound_messages s)%nat) ->
  (length (filter has_response l) + length (filter is_ghosted l)
   <= length l)%nat.
Proof.
  induction l as [|s l IH]; simpl; intros H; [lia|].
  assert (Hs : has_response s = (0 <? inbound_messages s)%nat)
    by (apply H; now left).
  assert (IH' : (length (filter has_response l) +
                 length (filter is_ghosted l) <= length l)%nat)
    by (apply IH; intros x Hx; apply H; now right).
  unfold is_ghosted at 1. rewrite Hs.
  destruct (inbound_messages s) as [|n]; simpl.
  - destruct (0 <? outbound_messages s)%nat; simpl; lia.
  - rewrite andb_false_r. simpl. lia.
Qed.

(** The response statistics over all contacts: a contact is never counted
    both as having responded and as having ghosted, the overall rate is a
    proportion, the weighted rate divides the inbound by the outbound rows
    that name a contact, and no contact has more messages than the one
    reported as most active.  The only failure is KeyError on the empty
    frame. *)
Theorem response_patterns_consistent (df : list Message) :
  match analyze_response_patterns df with
  | inr p =>
      df <> [] /\
      total_contacts p =
        length (unique_contacts (map contact_person df)) /\
      (contacts_who_responded p + contacts_who_ghosted p
       <= total_contacts p)%nat /\
      (0 <= overall_response_rate p)%Q /\ (overall_response_rate p <= 1)%Q /\
      weighted_response_rate p =
        rate (length (filter (fun m => is_inbound m && has_contact m) df))
             (length (filter (fun m => is_outbound m && has_contact m) df)) /\
      length (ghosted_contacts p) = contacts_who_ghosted p /\
      In (most_active_contact p) (map contact_person df) /\
      forall c,
        (length (filter (with_contact c) df) <=
         length (filter (with_contact (most_active_contact p)) df))%nat
  | inl e => e = KeyError /\ df = []
  end.
Proof.
  unfold analyze_response_patterns.
  pose proof (summary_unfold df) as H.
  destruct (get_conversation_summary df) as [e|summary]; [exact H|].
  destruct H as [Hne Hsum]. cbn [bind].
  assert (Hstats : forall s, In s summary <->
                     exists c, In c (map contact_person df) /\
                               s = contact_stats df c).
  { intros s. rewrite Hsum, stable_sort_in, in_map_iff.
    split; intros (c & H1 & H2).
    - exists c. split; [now apply unique_contacts_in | now symmetry].
    - exists c. split; [now symmetry | now apply unique_contacts_in]. }
  destruct summary as [|first rest] eqn:Esum.
  - exfalso. destruct df as [|m df]; [now apply Hne|].
    assert (K : In (contact_stats (m :: df) (contact_person m)) [])
      by (apply Hstats; exists (contact_person m); split;
          [now left | reflexivity]).
    inversion K.
  - rewrite <- Esum in *. unfold ret.
    cbn [total_contacts contacts_who_responded contacts_who_ghosted
           overall_response_rate weighted_response_rate ghosted_contacts
           most_active_contact].
    pose proof (filter_length_le has_response summary) as Hle.
    pose proof (rate_unit _ _ Hle) as [R1 R2].
    split; [exact Hne|]. split.
    { rewrite Hsum, stable_sort_length. now rewrite length_map. }
    split.
    { apply responded_or_ghosted. intros s Hs. apply Hstats in Hs.
      destruct Hs as (c & _ & ->). reflexivity. }
    split; [exact R1|]. split; [exact R2|]. split.
    { rewrite Hsum.
      rewrite (summary_sum inbound_messages is_inbound)
        by (intros c; reflexivity).
      rewrite (summary_sum outbound_messages is_outbound)
        by (intros c; reflexivity).
      reflexivity. }
    split; [apply length_map|].
    pose proof (idxmax_in first rest) as Hbest.
    rewrite <- Esum in Hbest. apply Hstats in Hbest.
    destruct Hbest as (best & Hbest_in & Ebest).
    rewrite Ebest. cbn [contact]. split; [exact Hbest_in|].
    intros c.
    destruct (in_dec (fun a b => reflect_dec _ _ (opt_eqb_spec a b)) c
                (map contact_person df)) as [Hc|Hc].
    + assert (Hs : In (contact_stats df c) (first :: rest)).
      { rewrite <- Esum. apply Hstats. now exists c. }
      apply idxmax_largest in Hs. rewrite Ebest in Hs. exact Hs.
    + assert (E : filter (with_contact c) df = []).
      { apply filter_none. intros m Hm.
        apply not_true_is_false. intros K. apply with_contact_eq in K.
        destruct K as [-> _]. apply Hc. now apply in_map. }
      rewrite E. simpl. lia.
Qed.

End direction.

(** * src/analyzer.py *)

Module analyzer.

(** [df['thread_id'].unique()]: the distinct values, in order of first
    appearance. *)
Fixpoint unique (l : list string) : list string :=
  match l with
  | [] => []
  | x :: l' => x :: filter (fun y => negb (String.eqb y x)) (unique l')
  end.

(** Lines 104-108: the new columns and their initial values. *)
Definition init_columns (m : Message) : Message :=
  set_previous_sender None
    (set_response_time_hours None
       (set_is_outbound_initiated false
          (set_is_first_message false (set_is_reply false m)))).

(** The pairs [(prev_row, row)] that the inner loop visits for [i >= 1]. *)
Fixpoint pairs_from (prev : Message) (rest : list Message)
  : list (Message * Message) :=
  match rest with
  | [] => []
  | row :: rest' => (prev, row) :: pairs_from row rest'
  end.

Definition thread_pairs (thread_df : list Message)
  : list (Message * Message) :=
  match thread_df with
  | [] => []
  | first :: rest => pairs_from first rest
  end.

Definition sender_differs (row prev_row : Message) : bool :=
  negb (String.eqb (sender row) (sender prev_row)).

(** Lines 140-146: the three writes for a reply. *)
Definition reply_step (df : list Message) (pr : Message * Message)
  : list Message :=
  let '(prev_row, row) := pr in
  if sender_differs row prev_row then
    let df1 := loc_set df (idx row) (set_is_reply true) in
    let df2 :=
      loc_set df1 (idx row) (set_previous_sender (Some (sender prev_row))) in
    loc_set df2 (idx row)
      (set_response_time_hours
         (hours_between (timestamp row) (timestamp prev_row)))
  else df.

(** The body of the loop over threads, lines 114-146.  [thread_df] is a
    copy taken before the writes; the loop reads the sender and the
    timestamp from it. *)
Definition process_thread (user_name : string) (df : list Message)
  (t : string) : list Message :=
  let thread_df := filter (in_thread thread_id t) df in
  match thread_df with
  | [] => df
  | first :: _ =>
      let df1 := loc_set df (idx first) (set_is_first_message true) in
      let is_outbound_thread := String.eqb (sender first) user_name in
      let df2 :=
        fold_left
          (fun d r =>
             loc_set d (idx r) (set_is_outbound_initiated is_outbound_thread))
          thread_df df1 in
      fold_left reply_step (thread_pairs thread_df) df2
  end.

Definition detect_replies_and_response_times (df0 : list Message)
  : result (list Message) :=
  let df :=
    map init_columns (sort_values_thread_timestamp thread_id timestamp df0) in
  user_name <- iloc0 (map sender (filter is_outbound df)) ;;
  ret (fold_left (process_thread user_name) (unique (map thread_id df)) df).

(** ** What a thread looks like after the loop

    The writes of one pass, read off row by row: the first row of the
    thread, and a row together with the one before it. *)

Definition annotate_first (b : bool) (first : Message) : Message :=
  set_is_outbound_initiated b (set_is_first_message true first).

Definition annotate_next (b : bool) (prev_row row : Message) : Message :=
  let r := set_is_outbound_initiated b row in
  if sender_differs row prev_row then
    set_response_time_hours
      (hours_between (timestamp row) (timestamp prev_row))
      (set_previous_sender (Some (sender prev_row)) (set_is_reply true r))
  else r.

Fixpoint annotate_rest (b : bool) (prev : Message) (rest : list Message)
  : list Message :=
  match rest with
  | [] => []
  | row :: rest' => annotate_next b prev row :: annotate_rest b row rest'
  end.

Definition annotate (user_name : string) (thread_df : list Message)
  : list Message :=
  match thread_df with
  | [] => []
  | first :: rest =>
      let b := String.eqb (sender first) user_name in
      annotate_first b first :: annotate_rest b first rest
  end.

(** The action of one pass on a single row of the frame. *)
Definition row_oi (b : bool) (x m : Message) : Message :=
  if Nat.eqb (idx x) (idx m) then set_is_outbound_initiated b x else x.

Definition row_reply (x : Message) (pr : Message * Message) : Message :=
  let '(prev_row, row) := pr in
  if sender_differs row prev_row then
    if Nat.eqb (idx x) (idx row) then
      set_response_time_hours
        (hours_between (timestamp row) (timestamp prev_row))
        (set_previous_sender (Some (sender prev_row)) (set_is_reply true x))
    else x
  else x.

Definition row_action (user_name : string) (thread_df : list Message)
  (x : Message) : Message :=
  match thread_df with
  | [] => x
  | first :: _ =>
      let b := String.eqb (sender first) user_name in
      let x1 :=
        if Nat.eqb (idx x) (idx first) then set_is_first_message true x
        else x in
      let x2 := fold_left (row_oi b) thread_df x1 in
      fold_left row_reply (thread_pairs thread_df) x2
  end.

Lemma fold_left_map_rows {A : Type} (step : Message -> A -> Message)
  (l : list A) (df : list Message) :
  fold_left (fun d a => map (fun r => step r a) d) l df =
  map (fun r => fold_left step l r) df.
Proof.
  revert df. induction l as [|a l IH]; intros df; simpl.
  - symmetry. apply map_id.
  - rewrite IH, map_map. reflexivity.
Qed.

Lemma fold_left_pointwise {A B : Type} (f g : A -> B -> A) (l : list B)
  (x : A) :
  (forall a b, f a b = g a b) -> fold_left f l x = fold_left g l x.
Proof.
  intros H. revert x. induction l as [|b l IH]; intros x; simpl.
  - reflexivity.
  - rewrite H. apply IH.
Qed.

Lemma reply_step_rows df pr :
  reply_step df pr = map (fun r => row_reply r pr) df.
Proof.
  destruct pr as [prev_row row]. unfold reply_step, row_reply.
  destruct (sender_differs row prev_row).
  - unfold loc_set. rewrite !map_map. apply map_ext. intros r.
    destruct (Nat.eqb (idx r) (idx row)) eqn:E; simpl; rewrite ?E; simpl;
      rewrite ?E; reflexivity.
  - symmetry. apply map_id.
Qed.

Lemma process_thread_rows user_name df t :
  process_thread user_name df t =
  map (row_action user_name (filter (in_thread thread_id t) df)) df.
Proof.
  unfold process_thread, row_action.
  destruct (filter (in_thread thread_id t) df) as [|first rest] eqn:E.
  - symmetry. apply map_id.
  - rewrite (fold_left_pointwise reply_step
               (fun d pr => map (fun r => row_reply r pr) d))
      by (intros; apply reply_step_rows).
    rewrite fold_left_map_rows.
    change (fun d r =>
              loc_set d (idx r)
                (set_is_outbound_initiated
                   (String.eqb (sender first) user_name)))
      with (fun d r =>
              map (fun x => row_oi (String.eqb (sender first) user_name) x r)
                d).
    rewrite fold_left_map_rows. unfold loc_set. rewrite !map_map.
    reflexivity.
Qed.

(** Setters leave the key columns alone. *)
Lemma init_columns_keys m : same_keys (init_columns m) m.
Proof. repeat split. Qed.

Lemma row_oi_keys b x m : same_keys (row_oi b x m) x.
Proof. unfold row_oi. destruct (Nat.eqb _ _); repeat split. Qed.

Lemma row_reply_keys x pr : same_keys (row_reply x pr) x.
Proof.
  destruct pr as [p r]. unfold row_reply.
  destruct (sender_differs r p); [|repeat split].
  destruct (Nat.eqb _ _); repeat split.
Qed.

Lemma fold_left_keys {A : Type} (step : Message -> A -> Message)
  (l : list A) (x : Message) :
  (forall y a, same_keys (step y a) y) -> same_keys (fold_left step l x) x.
Proof.
  intros H. revert x. induction l as [|a l IH]; intros x; simpl.
  - apply same_keys_refl.
  - eapply same_keys_trans; [apply IH | apply H].
Qed.

Lemma row_action_keys user_name th x :
  same_keys (row_action user_name th x) x.
Proof.
  unfold row_action. destruct th as [|first rest]; [apply same_keys_refl|].
  eapply same_keys_trans; [apply fold_left_keys, row_reply_keys|].
  eapply same_keys_trans; [apply fold_left_keys, row_oi_keys|].
  destruct (Nat.eqb _ _); repeat split.
Qed.

Lemma row_oi_fold b l x :
  fold_left (row_oi b) l x =
  if existsb (fun m => Nat.eqb (idx x) (idx m)) l
  then set_is_outbound_initiated b x else x.
Proof.
  revert x. induction l as [|m l IH]; intros x; simpl; [reflexivity|].
  rewrite IH. unfold row_oi at 1 2 3.
  destruct (Nat.eqb (idx x) (idx m)) eqn:E; simpl.
  - destruct (existsb _ l); reflexivity.
  - reflexivity.
Qed.

Lemma row_reply_fold_none ps x :
  (forall p m, In (p, m) ps -> idx m <> idx x) ->
  fold_left row_reply ps x = x.
Proof.
  revert x. induction ps as [|[p m] ps IH]; intros x H; cbn [fold_left].
  - reflexivity.
  - assert (Hx : row_reply x (p, m) = x).
    { unfold row_reply. destruct (sender_differs m p); [|reflexivity].
      destruct (Nat.eqb (idx x) (idx m)) eqn:E; [|reflexivity].
      apply Nat.eqb_eq in E. exfalso. apply (H p m); [now left | congruence]. }
    rewrite Hx. apply IH. intros p' m' Hin. apply (H p' m'). now right.
Qed.

Lemma pairs_from_in prev rest p m :
  In (p, m) (pairs_from prev rest) -> In m rest.
Proof.
  revert prev. induction rest as [|r rest IH]; intros prev; simpl.
  - tauto.
  - intros [H|H]; [left; congruence | right; eapply IH; eassumption].
Qed.

Lemma annotate_rest_rows b prev rest :
  NoDup (map idx rest) ->
  map (fun x =>
         fold_left row_reply (pairs_from prev rest)
           (set_is_outbound_initiated b x)) rest =
  annotate_rest b prev rest.
Proof.
  revert prev. induction rest as [|r rest IH]; intros prev Hnd.
  - reflexivity.
  - inversion Hnd as [|? ? Hnotin Hnd']; subst.
    cbn [map pairs_from fold_left annotate_rest]. f_equal.
    + assert (Hstep : row_reply (set_is_outbound_initiated b r) (prev, r) =
                      annotate_next b prev r).
      { unfold row_reply, annotate_next. simpl idx.
        rewrite Nat.eqb_refl. reflexivity. }
      rewrite Hstep. apply row_reply_fold_none. intros p m Hin Heq.
      apply pairs_from_in in Hin. apply Hnotin.
      assert (Hidx : idx (annotate_next b prev r) = idx r).
      { unfold annotate_next. destruct (sender_differs r prev); reflexivity. }
      rewrite <- Hidx, <- Heq. now apply in_map.
    + rewrite <- IH by assumption. apply map_ext_in. intros x Hx.
      assert (Hstep : row_reply (set_is_outbound_initiated b x) (prev, r) =
                      set_is_outbound_initiated b x).
      { unfold row_reply. simpl idx.
        destruct (sender_differs r prev); [|reflexivity].
        destruct (Nat.eqb (idx x) (idx r)) eqn:E; [|reflexivity].
        apply Nat.eqb_eq in E. exfalso. apply Hnotin. rewrite <- E.
        now apply in_map. }
      rewrite Hstep. reflexivity.
Qed.

(** On its own rows, one pass writes what [annotate] says. *)
Lemma row_action_thread user_name th :
  NoDup (map idx th) ->
  map (row_action user_name th) th = annotate user_name th.
Proof.
  destruct th as [|first rest]; [reflexivity|].
  intros Hnd. inversion Hnd as [|? ? Hnotin Hnd']; subst.
  cbn [map annotate]. f_equal.
  - unfold row_action, annotate_first. rewrite Nat.eqb_refl.
    rewrite row_oi_fold. cbn [existsb]. simpl idx. rewrite Nat.eqb_refl.
    cbn [orb]. apply row_reply_fold_none.
    intros p m Hin Heq. apply pairs_from_in in Hin. apply Hnotin.
    simpl in Heq. rewrite <- Heq. now apply in_map.
  - rewrite <- annotate_rest_rows by assumption.
    apply map_ext_in. intros x Hx. unfold row_action.
    assert (Hne : Nat.eqb (idx x) (idx first) = false).
    { apply Nat.eqb_neq. intros E. apply Hnotin. rewrite <- E.
      now apply in_map. }
    rewrite Hne, row_oi_fold. cbn [existsb]. rewrite Hne. cbn [orb].
    assert (Hex : existsb (fun m => Nat.eqb (idx x) (idx m)) rest = true).
    { apply existsb_exists. exists x. split; [exact Hx|].
      apply Nat.eqb_refl. }
    rewrite Hex. reflexivity.
Qed.

(** A row whose label no row of the thread carries is not written. *)
Lemma row_action_other user_name th x :
  (forall m, In m th -> idx m <> idx x) -> row_action user_name th x = x.
Proof.
  intros H. unfold row_action. destruct th as [|first rest]; [reflexivity|].
  assert (Hne : Nat.eqb (idx x) (idx first) = false).
  { apply Nat.eqb_neq. intros E. apply (H first); [now left | congruence]. }
  rewrite Hne, row_oi_fold.
  assert (Hex : existsb (fun m => Nat.eqb (idx x) (idx m)) (first :: rest)
                = false).
  { apply not_true_is_false. intros K. apply existsb_exists in K.
    destruct K as (m & Hm & E). apply Nat.eqb_eq in E.
    apply (H m Hm). congruence. }
  rewrite Hex. apply row_reply_fold_none.
  intros p m Hin. apply pairs_from_in in Hin. apply H. now right.
Qed.

(** ** Frames with unique index labels *)

Lemma nodup_idx_inj (l : list Message) x y :
  NoDup (map idx l) -> In x l -> In y l -> idx x = idx y -> x = y.
Proof.
  induction l as [|a l IH]; simpl; intros Hnd Hx Hy E; [tauto|].
  inversion Hnd as [|? ? Hnotin Hnd']; subst.
  destruct Hx as [<-|Hx], Hy as [<-|Hy]; auto.
  - exfalso. apply Hnotin. rewrite E. now apply in_map.
  - exfalso. apply Hnotin. rewrite <- E. now apply in_map.
Qed.

Lemma nodup_idx_filter (p : Message -> bool) (l : list Message) :
  NoDup (map idx l) -> NoDup (map idx (filter p l)).
Proof.
  induction l as [|a l IH]; simpl; intros Hnd; [constructor|].
  inversion Hnd as [|? ? Hnotin Hnd']; subst.
  destruct (p a); simpl; [|now apply IH].
  constructor; [|now apply IH].
  intros Hin. apply Hnotin. apply in_map_iff in Hin.
  destruct Hin as (x & Hx & Hin). apply filter_In in Hin.
  rewrite <- Hx. apply in_map. tauto.
Qed.

Lemma map_idx_keys (f : Message -> Message) (l : list Message) :
  (forall x, same_keys (f x) x) -> map idx (map f l) = map idx l.
Proof.
  intros H. rewrite map_map. apply map_ext. intros x. apply H.
Qed.

Lemma filter_thread_map (f : Message -> Message) t (l : list Message) :
  (forall x, same_keys (f x) x) ->
  filter (in_thread thread_id t) (map f l) =
  map f (filter (in_thread thread_id t) l).
Proof.
  intros H. induction l as [|a l IH]; simpl; [reflexivity|].
  assert (E : in_thread thread_id t (f a) = in_thread thread_id t a).
  { unfold in_thread. destruct (H a) as (_ & -> & _). reflexivity. }
  rewrite E. destruct (in_thread thread_id t a); simpl; now rewrite IH.
Qed.

Lemma process_thread_own user_name df t :
  NoDup (map idx df) ->
  filter (in_thread thread_id t) (process_thread user_name df t) =
  annotate user_name (filter (in_thread thread_id t) df).
Proof.
  intros Hnd. rewrite process_thread_rows.
  rewrite filter_thread_map by apply row_action_keys.
  apply row_action_thread. now apply nodup_idx_filter.
Qed.

Lemma process_thread_others user_name df t t' :
  NoDup (map idx df) -> t' <> t ->
  filter (in_thread thread_id t') (process_thread user_name df t) =
  filter (in_thread thread_id t') df.
Proof.
  intros Hnd Hne. rewrite process_thread_rows.
  rewrite filter_thread_map by apply row_action_keys.
  rewrite <- (map_id (filter (in_thread thread_id t') df)) at 2.
  apply map_ext_in. intros x Hx. apply row_action_other.
  intros m Hm E. apply filter_In in Hx, Hm.
  destruct Hx as [Hx Hxt], Hm as [Hm Hmt].
  assert (m = x) by (eapply nodup_idx_inj; eassumption). subst m.
  unfold in_thread in Hxt, Hmt. apply String.eqb_eq in Hxt, Hmt.
  congruence.
Qed.

Lemma process_thread_idx user_name df t :
  map idx (process_thread user_name df t) = map idx df.
Proof.
  rewrite process_thread_rows. apply map_idx_keys, row_action_keys.
Qed.

Lemma unique_in x l : In x (unique l) <-> In x l.
Proof.
  induction l as [|a l IH]; simpl; [tauto|].
  rewrite filter_In, IH, negb_true_iff, String.eqb_neq.
  destruct (String.string_dec a x); [tauto|].
  split; [tauto|]. intros [?|?]; [tauto|]. right. split; congruence.
Qed.

Lemma unique_nodup l : NoDup (unique l).
Proof.
  induction l as [|a l IH]; simpl; constructor.
  - rewrite filter_In, negb_true_iff, String.eqb_neq. tauto.
  - now apply NoDup_filter.
Qed.

Lemma filter_thread_absent t (l : list Message) :
  ~ In t (map thread_id l) -> filter (in_thread thread_id t) l = [].
Proof.
  induction l as [|a l IH]; simpl; intros H; [reflexivity|].
  unfold in_thread at 1. destruct (String.eqb_spec (thread_id a) t).
  - exfalso. apply H. now left.
  - apply IH. tauto.
Qed.

Lemma fold_threads user_name ts df t :
  NoDup ts -> NoDup (map idx df) ->
  filter (in_thread thread_id t)
    (fold_left (process_thread user_name) ts df) =
  if in_dec String.string_dec t ts
  then annotate user_name (filter (in_thread thread_id t) df)
  else filter (in_thread thread_id t) df.
Proof.
  revert df. induction ts as [|t0 ts IH]; intros df Hts Hnd.
  - reflexivity.
  - inversion Hts as [|? ? Hnotin Hts']; subst. cbn [fold_left].
    rewrite IH by (rewrite ?process_thread_idx; assumption).
    destruct (String.string_dec t0 t) as [->|Hne].
    + destruct (in_dec String.string_dec t ts); [contradiction|].
      destruct (in_dec String.string_dec t (t :: ts)) as [_|K];
        [|exfalso; apply K; now left].
      now apply process_thread_own.
    + rewrite process_thread_others by (auto; congruence).
      destruct (in_dec String.string_dec t ts) as [Hin|Hnin];
        destruct (in_dec String.string_dec t (t0 :: ts)) as [Hin'|Hnin'];
        try reflexivity.
      * exfalso. apply Hnin'. now right.
      * destruct Hin'; [congruence | contradiction].
Qed.

(** The frame that reply detection works on, and the view of one thread in
    its result. *)
Definition sorted_frame (df0 : list Message) : list Message :=
  map init_columns (sort_values_thread_timestamp thread_id timestamp df0).

Definition thread_rows (t : string) (df : list Message) : list Message :=
  filter (in_thread thread_id t) df.

Lemma sorted_frame_nodup df0 :
  NoDup (map idx df0) -> NoDup (map idx (sorted_frame df0)).
Proof.
  intros H. unfold sorted_frame.
  rewrite map_idx_keys by apply init_columns_keys.
  eapply Permutation_NoDup; [|exact H].
  apply Permutation_map. symmetry. apply stable_sort_perm.
Qed.

Lemma detect_thread_view df0 out t :
  NoDup (map idx df0) ->
  detect_replies_and_response_times df0 = inr out ->
  exists user_name,
    thread_rows t out = annotate user_name (thread_rows t (sorted_frame df0)).
Proof.
  intros Hnd. unfold detect_replies_and_response_times.
  fold (sorted_frame df0).
  destruct (iloc0 (map sender (filter is_outbound (sorted_frame df0))))
    as [e|user_name]; simpl; [discriminate|].
  intros H. injection H as <-. exists user_name. unfold thread_rows.
  rewrite fold_threads by (auto using unique_nodup, sorted_frame_nodup).
  destruct (in_dec String.string_dec t
              (unique (map thread_id (sorted_frame df0)))) as [_|Hnin];
    [reflexivity|].
  rewrite unique_in in Hnin. now rewrite filter_thread_absent.
Qed.

(** ** Neighbours in thread order *)

Lemma annotate_next_keys b p r : same_keys (annotate_next b p r) r.
Proof.
  unfold annotate_next. destruct (sender_differs r p); repeat split.
Qed.

Lemma annotate_rest_adjacent b rest :
  forall prev h pre p m post,
    same_keys h prev ->
    h :: annotate_rest b prev rest = pre ++ p :: m :: post ->
    exists pre0 p0 m0 post0,
      prev :: rest = pre0 ++ p0 :: m0 :: post0 /\
      same_keys p p0 /\ m = annotate_next b p0 m0.
Proof.
  induction rest as [|r rest IH]; intros prev h pre p m post Hk E.
  - destruct pre as [|a [|a' pre]]; discriminate.
  - cbn [annotate_rest] in E. destruct pre as [|a pre].
    + injection E as <- <- _.
      exists [], prev, r, rest. repeat split; try apply Hk.
    + injection E as _ E.
      destruct (IH r (annotate_next b prev r) pre p m post
                  (annotate_next_keys b prev r) E)
        as (pre0 & p0 & m0 & post0 & E0 & Hp & Hm).
      exists (prev :: pre0), p0, m0, post0.
      rewrite E0. repeat split; try apply Hp. exact Hm.
Qed.

Lemma annotate_adjacent user_name th pre p m post :
  annotate user_name th = pre ++ p :: m :: post ->
  exists b pre0 p0 m0 post0,
    th = pre0 ++ p0 :: m0 :: post0 /\
    same_keys p p0 /\ m = annotate_next b p0 m0.
Proof.
  destruct th as [|first rest]; cbn [annotate].
  - destruct pre; discriminate.
  - intros E. exists (String.eqb (sender first) user_name).
    eapply annotate_rest_adjacent; [|exact E]. repeat split.
Qed.


Lemma strongly_sorted_map {A B : Type} (R : A -> A -> Prop)
  (S : B -> B -> Prop) (f : A -> B) l :
  (forall a b, R a b -> S (f a) (f b)) ->
  StronglySorted R l -> StronglySorted S (map f l).
Proof.
  intros H. induction 1 as [|a l Hs IH Hall]; simpl; constructor; auto.
  apply Forall_forall. intros y Hy. apply in_map_iff in Hy.
  destruct Hy as (x & <- & Hx). apply H.
  rewrite Forall_forall in Hall. now apply Hall.
Qed.

Lemma thread_rows_sorted_frame t df0 :
  thread_rows t (sorted_frame df0) =
  map init_columns
    (filter (in_thread thread_id t)
       (sort_values_thread_timestamp thread_id timestamp df0)).
Proof.
  unfold thread_rows, sorted_frame.
  apply filter_thread_map, init_columns_keys.
Qed.




(** The function returns as soon as one row is outbound. *)
Lemma detect_returns df0 :
  (exists m, In m df0 /\ direction m = outbound) ->
  exists out, detect_replies_and_response_times df0 = inr out.
Proof.
  intros (m & Hin & Hd). unfold detect_replies_and_response_times.
  fold (sorted_frame df0).
  destruct (filter is_outbound (sorted_frame df0)) as [|x l] eqn:E.
  - exfalso.
    assert (Hm : In (init_columns m) (filter is_outbound (sorted_frame df0))).
    { apply filter_In. split.
      - unfold sorted_frame. apply in_map.
        unfold sort_values_thread_timestamp. now apply stable_sort_in.
      - unfold is_outbound. simpl. now rewrite Hd. }
    rewrite E in Hm. inversion Hm.
  - simpl. eauto.
Qed.


(** C10.  Without an outbound row the selection that is to give the user
    name is empty, and reply detection raises IndexError; this holds for
    the empty frame as well as for a non-empty one. *)
Theorem no_outbound_raises_IndexError (df0 : list Message) :
  (forall m, In m df0 -> direction m <> outbound) ->
  detect_replies_and_response_times df0 = inl IndexError.
Proof.
  intros H. unfold detect_replies_and_response_times.
  fold (sorted_frame df0).
  assert (E : filter is_outbound (sorted_frame df0) = []).
  { destruct (filter is_outbound (sorted_frame df0)) as [|x l] eqn:E;
      [reflexivity|].
    exfalso.
    assert (Hx : In x (filter is_outbound (sorted_frame df0)))
      by (rewrite E; now left).
    apply filter_In in Hx. destruct Hx as [Hx Hd].
    unfold sorted_frame in Hx. apply in_map_iff in Hx.
    destruct Hx as (y & <- & Hy).
    unfold sort_values_thread_timestamp in Hy. apply stable_sort_in in Hy.
    apply (H y Hy). unfold is_outbound in Hd. simpl in Hd.
    destruct (direction y); [reflexivity | discriminate]. }
  rewrite E. reflexivity.
Qed.

(** ** Sample frames *)

(** A row with the given loader and direction columns; the metric columns
    are zero or false, the reply and sales columns not yet written. *)
Definition sample_message (i : nat) (t s r : string) (ts : Timestamp)
  (c : string) (d : Direction) : Message :=
  mkMessage i t s (Some r) ts c d (Some (if is_outbound_dir d then r else s))
    0%Q 0 0 0 false false false
    false false false None None false "non_sales".

(** Owner writes at [t0], Alice answers two hours later. *)
Definition two_hour_reply : list Message :=
  [ sample_message 0 "t1" "Owner" "Alice" (Some 0) "Hi Alice" outbound;
    sample_message 1 "t1" "Alice" "Owner" (Some 7200000000000) "Hi back!"
      inbound ].

Definition two_hour_reply_out : list Message :=
  Eval vm_compute in
    match detect_replies_and_response_times two_hour_reply with
    | inr out => out
    | inl _ => []
    end.

Example two_hour_reply_flags :
  map (fun m => (is_first_message m, is_outbound_initiated m, is_reply m,
                 option_map Qred (response_time_hours m)))
    two_hour_reply_out =
  [ (true, true, false, None); (false, true, true, Some 2%Q) ].
Proof. reflexivity. Qed.




Definition inbound_only : list Message :=
  [ sample_message 0 "t1" "Alice" "Owner" (Some 0) "Hello" inbound;
    sample_message 1 "t1" "Bob" "Owner" (Some 5) "Hello again" inbound ].

Lemma no_outbound_raises_IndexError_witness :
  detect_replies_and_response_times inbound_only = inl IndexError.
Proof.
  apply (no_outbound_raises_IndexError inbound_only).
  intros m [<-|[<-|[]]]; discriminate.
Defined.

(** ** More on reply detection *)

(** The writes touch the five reply columns only. *)
Lemma init_columns_row_oi b x m : init_columns (row_oi b x m) = init_columns x.
Proof. unfold row_oi. now destruct (Nat.eqb _ _). Qed.

Lemma init_columns_row_reply x pr :
  init_columns (row_reply x pr) = init_columns x.
Proof.
  destruct pr as [p r]. unfold row_reply.
  destruct (sender_differs r p); [|reflexivity].
  now destruct (Nat.eqb _ _).
Qed.

Lemma init_columns_fold {A : Type} (step : Message -> A -> Message)
  (l : list A) (x : Message) :
  (forall y a, init_columns (step y a) = init_columns y) ->
  init_columns (fold_left step l x) = init_columns x.
Proof.
  intros H. revert x. induction l as [|a l IH]; intros x; simpl.
  - reflexivity.
  - now rewrite IH, H.
Qed.

Lemma init_columns_row_action user_name th x :
  init_columns (row_action user_name th x) = init_columns x.
Proof.
  unfold row_action. destruct th as [|first rest]; [reflexivity|].
  rewrite init_columns_fold by apply init_columns_row_reply.
  rewrite init_columns_fold by apply init_columns_row_oi.
  now destruct (Nat.eqb _ _).
Qed.

Lemma init_columns_process_thread user_name df t :
  map init_columns (process_thread user_name df t) = map init_columns df.
Proof.
  rewrite process_thread_rows, map_map. apply map_ext.
  intros x. apply init_columns_row_action.
Qed.

Lemma init_columns_fold_threads user_name ts :
  forall df,
    map init_columns (fold_left (process_thread user_name) ts df) =
    map init_columns df.
Proof.
  induction ts as [|t ts IH]; intros df; simpl; [reflexivity|].
  now rewrite IH, init_columns_process_thread.
Qed.

Lemma init_columns_idempotent m : init_columns (init_columns m) = init_columns m.
Proof. reflexivity. Qed.

Lemma detect_unfold df0 out :
  detect_replies_and_response_times df0 = inr out ->
  exists user_name,
    iloc0 (map sender (filter is_outbound (sorted_frame df0)))
      = inr user_name /\
    out = fold_left (process_thread user_name)
            (unique (map thread_id (sorted_frame df0))) (sorted_frame df0).
Proof.
  unfold detect_replies_and_response_times. fold (sorted_frame df0).
  destruct (iloc0 (map sender (filter is_outbound (sorted_frame df0))))
    as [e|user_name]; simpl; [discriminate|].
  intros H. injection H as <-. now exists user_name.
Qed.

(** Reply detection adds no row, drops none and moves none past the sort,
    and it leaves every column but its own five as it was: with the reply
    columns reset, the result is the sorted input. *)
Theorem detect_keeps_the_frame (df0 out : list Message) :
  detect_replies_and_response_times df0 = inr out ->
  map init_columns out =
  map init_columns (sort_values_thread_timestamp thread_id timestamp df0).
Proof.
  intros H. apply detect_unfold in H. destruct H as (user_name & _ & ->).
  rewrite init_columns_fold_threads. unfold sorted_frame.
  rewrite map_map. apply map_ext. intros m. apply init_columns_idempotent.
Qed.

Lemma detect_resets_to_sorted_frame df0 out :
  detect_replies_and_response_times df0 = inr out ->
  map init_columns out = sorted_frame df0.
Proof.
  intros H. apply detect_unfold in H. destruct H as (user_name & _ & ->).
  rewrite init_columns_fold_threads. unfold sorted_frame.
  rewrite map_map. apply map_ext. intros m. apply init_columns_idempotent.
Qed.

Lemma strongly_sorted_map_inv {A B : Type} (R : A -> A -> Prop)
  (S : B -> B -> Prop) (f : A -> B) l :
  (forall a b, S (f a) (f b) -> R a b) ->
  StronglySorted S (map f l) -> StronglySorted R l.
Proof.
  intros H. induction l as [|a l IH]; simpl; intros Hs; [constructor|].
  inversion Hs as [|? ? Hs' Hall]; subst. constructor; [now apply IH|].
  apply Forall_forall. intros y Hy. apply H.
  rewrite Forall_forall in Hall. apply Hall. now apply in_map.
Qed.

Lemma detect_output_sorted df0 out :
  detect_replies_and_response_times df0 = inr out ->
  StronglySorted (le_rel (key_leb thread_id timestamp)) out.
Proof.
  intros H. apply detect_resets_to_sorted_frame in H.
  apply (strongly_sorted_map_inv _ (le_rel (key_leb thread_id timestamp))
           init_columns).
  - intros a b Hab. exact Hab.
  - rewrite H. unfold sorted_frame.
    eapply strongly_sorted_map;
      [|apply (stable_sort_sorted (key_leb thread_id timestamp)
                 (key_leb_total thread_id timestamp)
                 (key_leb_trans thread_id timestamp))].
    intros a b Hab. exact Hab.
Qed.

(** Reply detection is idempotent: run on its own result, it returns that
    result. *)
Theorem detect_idempotent (df0 out : list Message) :
  detect_replies_and_response_times df0 = inr out ->
  detect_replies_and_response_times out = inr out.
Proof.
  intros H. pose proof (detect_resets_to_sorted_frame df0 out H) as Hreset.
  pose proof (detect_output_sorted df0 out H) as Hsorted.
  assert (Hframe : sorted_frame out = sorted_frame df0).
  { unfold sorted_frame at 1. unfold sort_values_thread_timestamp.
    rewrite stable_sort_of_sorted by exact Hsorted. exact Hreset. }
  apply detect_unfold in H. destruct H as (user_name & Huser & Hout).
  unfold detect_replies_and_response_times. fold (sorted_frame out).
  rewrite Hframe, Huser. simpl. now rewrite <- Hout.
Qed.

(** The function returns a frame exactly when some row is outbound. *)
Theorem detect_returns_iff_outbound (df0 : list Message) :
  (exists out, detect_replies_and_response_times df0 = inr out) <->
  (exists m, In m df0 /\ direction m = outbound).
Proof.
  split.
  - intros [out H]. apply detect_unfold in H.
    destruct H as (user_name & Huser & _).
    destruct (filter is_outbound (sorted_frame df0)) as [|x l] eqn:E;
      [discriminate|].
    assert (Hx : In x (filter is_outbound (sorted_frame df0)))
      by (rewrite E; now left).
    apply filter_In in Hx. destruct Hx as [Hx Hd].
    unfold sorted_frame in Hx. apply in_map_iff in Hx.
    destruct Hx as (y & <- & Hy).
    unfold sort_values_thread_timestamp in Hy. apply stable_sort_in in Hy.
    exists y. split; [exact Hy|].
    unfold is_outbound in Hd. simpl in Hd.
    destruct (direction y); [reflexivity | discriminate].
  - apply detect_returns.
Qed.

(** What the rows of a thread hold before the loop. *)
Lemma thread_rows_init t df0 m :
  In m (thread_rows t (sorted_frame df0)) ->
  is_reply m = false /\ is_first_message m = false /\
  previous_sender m = None.
Proof.
  rewrite thread_rows_sorted_frame. intros H. apply in_map_iff in H.
  destruct H as (x & <- & _). now repeat split.
Qed.

Lemma annotate_rest_first_flags b rest :
  forall prev,
    (forall r, In r rest -> is_first_message r = false) ->
    Forall (fun x => is_first_message x = false) (annotate_rest b prev rest).
Proof.
  induction rest as [|r rest IH]; intros prev H; simpl; constructor.
  - unfold annotate_next. destruct (sender_differs r prev); simpl;
      apply H; now left.
  - apply IH. intros r' Hr'. apply H. now right.
Qed.

Lemma thread_first_flags df0 out t m rest :
  NoDup (map idx df0) ->
  detect_replies_and_response_times df0 = inr out ->
  thread_rows t out = m :: rest ->
  (is_first_message m = true /\ is_reply m = false) /\
  Forall (fun x => is_first_message x = false) rest.
Proof.
  intros Hnd Hrun E.
  destruct (detect_thread_view df0 out t Hnd Hrun) as [user_name Hview].
  rewrite Hview in E.
  destruct (thread_rows t (sorted_frame df0)) as [|first rest0] eqn:E0;
    [discriminate|].
  cbn [annotate] in E. injection E as <- <-. split.
  - split; [reflexivity|]. unfold annotate_first. simpl.
    apply (thread_rows_init t df0). rewrite E0. now left.
  - apply annotate_rest_first_flags. intros r Hr.
    apply (thread_rows_init t df0). rewrite E0. now right.
Qed.

(** In every thread the first message in thread order, and no other, is
    marked as the first message. *)
Theorem first_message_is_the_earliest
  (df0 out : list Message) (t : string) (m : Message) (rest : list Message) :
  NoDup (map idx df0) ->
  detect_replies_and_response_times df0 = inr out ->
  thread_rows t out = m :: rest ->
  is_first_message m = true /\
  Forall (fun x => is_first_message x = false) rest.
Proof.
  intros Hnd Hrun E.
  destruct (thread_first_flags df0 out t m rest Hnd Hrun E) as [[H _] H'].
  now split.
Qed.

Lemma annotate_rest_initiated b rest :
  forall prev,
    Forall (fun x => is_outbound_initiated x = b) (annotate_rest b prev rest).
Proof.
  induction rest as [|r rest IH]; intros prev; simpl; constructor.
  - unfold annotate_next. now destruct (sender_differs r prev).
  - apply IH.
Qed.

Lemma annotate_first_sender b first :
  sender (annotate_first b first) = sender first.
Proof. reflexivity. Qed.

Lemma detect_thread_view_user df0 out t :
  NoDup (map idx df0) ->
  detect_replies_and_response_times df0 = inr out ->
  exists user_name,
    iloc0 (map sender (filter is_outbound (sorted_frame df0)))
      = inr user_name /\
    thread_rows t out = annotate user_name (thread_rows t (sorted_frame df0)).
Proof.
  intros Hnd H. apply detect_unfold in H.
  destruct H as (user_name & Huser & ->).
  exists user_name. split; [exact Huser|]. unfold thread_rows.
  rewrite fold_threads by (auto using unique_nodup, sorted_frame_nodup).
  destruct (in_dec String.string_dec t
              (unique (map thread_id (sorted_frame df0)))) as [_|Hnin];
    [reflexivity|].
  rewrite unique_in in Hnin. now rewrite filter_thread_absent.
Qed.

(** The owner, as reply detection takes it: the sender of the first
    outbound row of the sorted frame. *)
Definition detected_user (df0 : list Message) : result string :=
  iloc0 (map sender (filter is_outbound (sorted_frame df0))).

(** [is_outbound_initiated] is a property of the thread: all its messages
    carry one value, which says whether the owner sent the first message
    of the thread. *)
Theorem outbound_initiated_is_per_thread
  (df0 out : list Message) (t : string) (m : Message) (rest : list Message) :
  NoDup (map idx df0) ->
  detect_replies_and_response_times df0 = inr out ->
  thread_rows t out = m :: rest ->
  exists user_name,
    detected_user df0 = inr user_name /\
    Forall
      (fun x => is_outbound_initiated x = String.eqb (sender m) user_name)
      (m :: rest).
Proof.
  intros Hnd Hrun E.
  destruct (detect_thread_view_user df0 out t Hnd Hrun)
    as (user_name & Huser & Hview).
  exists user_name. split; [exact Huser|].
  rewrite Hview in E.
  destruct (thread_rows t (sorted_frame df0)) as [|first rest0] eqn:E0;
    [discriminate|].
  cbn [annotate] in E. injection E as <- <-.
  rewrite annotate_first_sender. constructor; [reflexivity|].
  apply annotate_rest_initiated.
Qed.

(** A message is marked as a reply exactly when its sender differs from
    the sender of the message before it in the thread, whatever the
    timestamps are; it then records that sender as [previous_sender].  The
    first message of a thread is never a reply. *)
Theorem is_reply_iff_sender_changes
  (df0 out : list Message) (t : string) :
  NoDup (map idx df0) ->
  detect_replies_and_response_times df0 = inr out ->
  (forall m rest,
     thread_rows t out = m :: rest ->
     is_reply m = false /\ previous_sender m = None) /\
  (forall pre p m post,
     thread_rows t out = pre ++ p :: m :: post ->
     (is_reply m = true <-> sender m <> sender p) /\
     previous_sender m =
       (if is_reply m then Some (sender p) else None)).
Proof.
  intros Hnd Hrun.
  destruct (detect_thread_view df0 out t Hnd Hrun) as [user_name Hview].
  split.
  - intros m rest E. rewrite Hview in E.
    destruct (thread_rows t (sorted_frame df0)) as [|first rest0] eqn:E0;
      [discriminate|].
    cbn [annotate] in E. injection E as <- _.
    destruct (thread_rows_init t df0 first) as (H1 & _ & H3);
      [rewrite E0; now left|].
    unfold annotate_first. simpl. now split.
  - intros pre p m post E. rewrite Hview in E.
    apply annotate_adjacent in E.
    destruct E as (b & pre0 & p0 & m0 & post0 & E0 & Hp & ->).
    destruct (thread_rows_init t df0 m0) as (H1 & _ & H3).
    { rewrite E0. apply in_or_app. right. right. now left. }
    destruct Hp as (_ & _ & Hsender & _).
    assert (Hdiff : sender_differs m0 p0 = true <-> sender m0 <> sender p0).
    { unfold sender_differs. rewrite negb_true_iff. apply String.eqb_neq. }
    unfold annotate_next.
    destruct (sender_differs m0 p0) eqn:Ed; simpl; rewrite Hsender.
    + split; [|reflexivity]. split; [intros _; now apply Hdiff | reflexivity].
    + rewrite H1, H3. split; [|reflexivity].
      split; [discriminate|]. intros Hne. apply Hdiff in Hne. congruence.
Qed.

Lemma two_hour_reply_nodup : NoDup (map idx two_hour_reply).
Proof. simpl. repeat constructor; simpl; intuition discriminate. Defined.

Lemma two_hour_reply_run :
  detect_replies_and_response_times two_hour_reply = inr two_hour_reply_out.
Proof. reflexivity. Defined.

Lemma detect_keeps_the_frame_witness :
  map init_columns two_hour_reply_out =
  map init_columns
    (sort_values_thread_timestamp thread_id timestamp two_hour_reply).
Proof.
  exact (detect_keeps_the_frame two_hour_reply two_hour_reply_out
           two_hour_reply_run).
Defined.

Lemma detect_idempotent_witness :
  detect_replies_and_response_times two_hour_reply_out
  = inr two_hour_reply_out.
Proof.
  exact (detect_idempotent two_hour_reply two_hour_reply_out
           two_hour_reply_run).
Defined.

Definition two_hour_first : Message :=
  Eval vm_compute in hd (sample_message 0 "" "" "" None "" inbound)
                        two_hour_reply_out.

Definition two_hour_rest : list Message :=
  Eval vm_compute in tl two_hour_reply_out.

Lemma two_hour_thread :
  thread_rows "t1" two_hour_reply_out = two_hour_first :: two_hour_rest.
Proof. reflexivity. Defined.

Lemma first_message_is_the_earliest_witness :
  is_first_message two_hour_first = true /\
  Forall (fun x => is_first_message x = false) two_hour_rest.
Proof.
  exact (first_message_is_the_earliest two_hour_reply two_hour_reply_out
           "t1" two_hour_first two_hour_rest two_hour_reply_nodup
           two_hour_reply_run two_hour_thread).
Defined.

Lemma outbound_initiated_is_per_thread_witness :
  exists user_name,
    detected_user two_hour_reply = inr user_name /\
    Forall
      (fun x =>
         is_outbound_initiated x =
         String.eqb (sender two_hour_first) user_name)
      (two_hour_first :: two_hour_rest).
Proof.
  exact (outbound_initiated_is_per_thread two_hour_reply two_hour_reply_out
           "t1" two_hour_first two_hour_rest two_hour_reply_nodup
           two_hour_reply_run two_hour_thread).
Defined.

Lemma is_reply_iff_sender_changes_witness :
  (forall m rest,
     thread_rows "t1" two_hour_reply_out = m :: rest ->
     is_reply m = false /\ previous_sender m = None) /\
  (forall pre p m post,
     thread_rows "t1" two_hour_reply_out = pre ++ p :: m :: post ->
     (is_reply m = true <-> sender m <> sender p) /\
     previous_sender m =
       (if is_reply m then Some (sender p) else None)).
Proof.
  exact (is_reply_iff_sender_changes two_hour_reply two_hour_reply_out "t1"
           two_hour_reply_nodup two_hour_reply_run).
Defined.

(** ** [analyze_conversation_flow] *)

(** [Series.dropna()] *)
Fixpoint dropna {A : Type} (cells : list (option A)) : list A :=
  match cells with
  | [] => []
  | Some x :: cells' => x :: dropna cells'
  | None :: cells' => dropna cells'
  end.

Definition Qtotal (l : list Q) : Q := fold_left Qplus l 0%Q.

(** [Series.mean()]: NaN on an empty series. *)
Definition mean (l : list Q) : option Q :=
  match l with
  | [] => None
  | _ :: _ => Some (Qtotal l / inject_Z (Z.of_nat (length l)))%Q
  end.



Definition ratio_or_zero (num den : nat) : Q :=
  if (0 <? den)%nat
  then (inject_Z (Z.of_nat num) / inject_Z (Z.of_nat den))%Q
  else 0%Q.




Lemma ratio_or_zero_unit num den :
  (num <= den)%nat ->
  (0 <= ratio_or_zero num den)%Q /\ (ratio_or_zero num den <= 1)%Q.
Proof.
  intros H. unfold ratio_or_zero.
  destruct (0 <? den)%nat eqn:E.
  - apply Nat.ltb_lt in E.
    assert (Hd : (0 < inject_Z (Z.of_nat den))%Q)
      by (unfold Qlt; simpl; lia).
    split.
    + apply Qle_shift_div_l; [exact Hd|]. rewrite Qmult_0_l.
      unfold Qle. simpl. lia.
    + apply Qle_shift_div_r; [exact Hd|]. rewrite Qmult_1_l.
      unfold Qle. simpl. lia.
  - split; [apply Qle_refl | discriminate].
Qed.











(** Two threads: the owner's exchange with Alice, and a message from Bob
    that arrived first and was never answered. *)
Definition two_threads : list Message :=
  [ sample_message 0 "t2" "Bob" "Owner" (Some 5) "Are you hiring?" inbound;
    sample_message 1 "t1" "Owner" "Alice" (Some 10) "Hi Alice" outbound;
    sample_message 2 "t1" "Alice" "Owner" (Some 3600000000010) "Hi back!"
      inbound ].

Definition two_threads_out : list Message :=
  Eval vm_compute in
    match detect_replies_and_response_times two_threads with
    | inr out => out
    | inl _ => []
    end.

Lemma two_threads_nodup : NoDup (map idx two_threads).
Proof. simpl. repeat constructor; simpl; intuition discriminate. Defined.

Lemma two_threads_run :
  detect_replies_and_response_times two_threads = inr two_threads_out.
Proof. reflexivity. Defined.


(** ** [find_top_performing_messages] *)

(** Lines 236-241. *)
Definition top_score (m : Message) : Q :=
  ((sentiment_polarity m + 1) * 2
   + (if has_greeting m then 1 else 0) * 1
   + inject_Z (question_count m) * (1 # 2)
   + (inject_Z (word_count m) / 100) * (1 # 10))%Q.

(** [df['thread_id'].isin(df[df['is_reply'] == True]['thread_id'])] *)
Definition has_reply_in_thread (df : list Message) (m : Message) : bool :=
  existsb (String.eqb (thread_id m)) (map thread_id (filter is_reply df)).

Definition outbound_with_replies (df : list Message) : list Message :=
  filter (fun m => is_outbound m && has_reply_in_thread df m) df.

Definition score_ge (a b : Message * Q) : bool := Qle_bool (snd b) (snd a).

(** [DataFrame.nlargest(limit, col)]: the first [limit] rows in descending
    order of the column, ties in frame order. *)
Definition nlargest (limit : nat) (rows : list (Message * Q)) :
  list (Message * Q) :=
  firstn limit (stable_sort score_ge rows).

(** Lines 213-248; each returned row is paired with its
    [performance_score]. *)
Definition find_top_performing_messages (df : list Message) (limit : nat) :
  list (Message * Q) :=
  match outbound_with_replies df with
  | [] => []
  | _ :: _ =>
      nlargest limit
        (map (fun m => (m, top_score m)) (outbound_with_replies df))
  end.

Lemma score_ge_total a b : score_ge a b = true \/ score_ge b a = true.
Proof.
  unfold score_ge. rewrite !Qle_bool_iff.
  destruct (Qlt_le_dec (snd a) (snd b)) as [H|H]; [right | left]; auto.
  now apply Qlt_le_weak.
Qed.

Lemma score_ge_trans a b c :
  score_ge a b = true -> score_ge b c = true -> score_ge a c = true.
Proof.
  unfold score_ge. rewrite !Qle_bool_iff. intros H1 H2.
  now apply Qle_trans with (snd b).
Qed.

Lemma strongly_sorted_app_cross {A : Type} (R : A -> A -> Prop) l1 l2 :
  StronglySorted R (l1 ++ l2) ->
  forall x y, In x l1 -> In y l2 -> R x y.
Proof.
  induction l1 as [|a l1 IH]; simpl; intros H x y Hx Hy; [contradiction|].
  inversion H as [|? ? Hs Hall]; subst. destruct Hx as [<-|Hx].
  - rewrite Forall_forall in Hall. apply Hall, in_or_app. now right.
  - now apply IH.
Qed.

Lemma strongly_sorted_app_l {A : Type} (R : A -> A -> Prop) l1 l2 :
  StronglySorted R (l1 ++ l2) -> StronglySorted R l1.
Proof.
  induction l1 as [|a l1 IH]; simpl; intros H; [constructor|].
  inversion H as [|? ? Hs Hall]; subst. constructor; [now apply IH|].
  rewrite Forall_forall in *. intros x Hx. apply Hall, in_or_app. now left.
Qed.

Lemma strongly_sorted_weaken {A : Type} (R S : A -> A -> Prop) l :
  (forall x y, R x y -> S x y) -> StronglySorted R l -> StronglySorted S l.
Proof.
  intros H. induction 1 as [|x l Hs IH Hall]; constructor; auto.
  eapply Forall_impl; [|exact Hall]. intros y. apply H.
Qed.

Lemma outbound_with_replies_spec (df : list Message) (m : Message) :
  In m (outbound_with_replies df) <->
  In m df /\ is_outbound m = true /\
  exists r, In r df /\ is_reply r = true /\ thread_id r = thread_id m.
Proof.
  unfold outbound_with_replies, has_reply_in_thread.
  rewrite filter_In, andb_true_iff, existsb_exists. split.
  - intros (Hm & Ho & t & Ht & E). apply String.eqb_eq in E.
    apply in_map_iff in Ht. destruct Ht as (r & Hr & Hin).
    apply filter_In in Hin. destruct Hin as [Hin Hrep].
    repeat split; auto. exists r. repeat split; auto. congruence.
  - intros (Hm & Ho & r & Hr & Hrep & E). repeat split; auto.
    exists (thread_id r). split.
    + apply in_map, filter_In. now split.
    + apply String.eqb_eq. now symmetry.
Qed.

(** The top-message table holds only outbound rows of threads in which
    some reply was detected, each with its own score; it has [limit] rows or
    all the candidates if these are fewer, in descending order of score; and
    no candidate left out scores higher than a row that was returned. *)
Theorem top_messages_are_the_best (df : list Message) (limit : nat) :
  let top := find_top_performing_messages df limit in
  length top = Nat.min limit (length (outbound_with_replies df)) /\
  StronglySorted (fun a b => (snd b <= snd a)%Q) top /\
  (forall r, In r top ->
     In (fst r) (outbound_with_replies df) /\ snd r = top_score (fst r)) /\
  (forall m r, In m (outbound_with_replies df) ->
     ~ In m (map fst top) -> In r top -> (top_score m <= snd r)%Q).
Proof.
  cbv zeta. unfold find_top_performing_messages, nlargest.
  set (cands := outbound_with_replies df).
  set (rows := map (fun m => (m, top_score m)) cands).
  assert (Htop : match cands with
                 | [] => []
                 | _ :: _ => firstn limit (stable_sort score_ge rows)
                 end = firstn limit (stable_sort score_ge rows)).
  { unfold rows. destruct cands; [|reflexivity].
    simpl. now rewrite firstn_nil. }
  rewrite Htop. clear Htop.
  pose proof (stable_sort_sorted score_ge score_ge_total score_ge_trans rows)
    as Hsorted.
  assert (Hsorted' : StronglySorted (fun a b => (snd b <= snd a)%Q)
                       (stable_sort score_ge rows)).
  { eapply strongly_sorted_weaken; [|exact Hsorted].
    intros a b. unfold le_rel, score_ge. now rewrite Qle_bool_iff. }
  rewrite <- (firstn_skipn limit (stable_sort score_ge rows)) in Hsorted'.
  assert (Hrows : forall r, In r (stable_sort score_ge rows) <->
                            In (fst r) cands /\ snd r = top_score (fst r)).
  { intros r. split.
    - intros H. apply (Permutation_in _ (stable_sort_perm score_ge rows)) in H.
      unfold rows in H. apply in_map_iff in H.
      destruct H as (m & <- & Hm). now split.
    - intros [H1 H2].
      apply (Permutation_in _ (Permutation_sym
                                 (stable_sort_perm score_ge rows))).
      unfold rows. apply in_map_iff. exists (fst r). split; [|exact H1].
      destruct r as [m q]. simpl in *. now subst. }
  split; [|split; [|split]].
  - rewrite length_firstn, stable_sort_length. unfold rows.
    now rewrite length_map.
  - eapply strongly_sorted_app_l. exact Hsorted'.
  - intros r Hr. apply Hrows.
    rewrite <- (firstn_skipn limit (stable_sort score_ge rows)).
    apply in_or_app. now left.
  - intros m r Hm Hout Hr.
    assert (Hin : In (m, top_score m) (stable_sort score_ge rows))
      by (apply Hrows; now split).
    rewrite <- (firstn_skipn limit (stable_sort score_ge rows)) in Hin.
    apply in_app_or in Hin. destruct Hin as [Hin|Hin].
    + exfalso. apply Hout. apply in_map_iff. now exists (m, top_score m).
    + exact (strongly_sorted_app_cross _ _ _ Hsorted' r (m, top_score m)
               Hr Hin).
Qed.

End analyzer.

(** * Text

    A Python [str] is read as a string of one-byte characters; [lower] is
    the ASCII case mapping, so the development speaks about ASCII text. *)

Definition lower_ascii (c : ascii) : ascii :=
  let n := N_of_ascii c in
  if (N.leb 65 n) && (N.leb n 90) then ascii_of_N (n + 32) else c.

(** [s.lower()] *)
Fixpoint lower (s : string) : string :=
  match s with
  | String.EmptyString => String.EmptyString
  | String.String c s' => String.String (lower_ascii c) (lower s')
  end.

(** [s.startswith(p)] *)
Fixpoint starts_with (p s : string) : bool :=
  match p, s with
  | String.EmptyString, _ => true
  | String.String _ _, String.EmptyString => false
  | String.String a p', String.String b s' =>
      Ascii.eqb a b && starts_with p' s'
  end.

(** [needle in hay] *)
Fixpoint contains (needle hay : string) : bool :=
  starts_with needle hay ||
  match hay with
  | String.EmptyString => false
  | String.String _ hay' => contains needle hay'
  end.

(** [any(word in text for word in words)] *)
Definition any_in (words : list string) (text : string) : bool :=
  existsb (fun w => contains w text) words.




Example contains_job : contains "job" "a new job offer" = true.
Proof. reflexivity. Qed.

Example lower_mixed : lower "Hi Alice, ARR?" = "hi alice, arr?".
Proof. reflexivity. Qed.

(** Booleans as the numbers 0 and 1 ([astype(int)]). *)
Definition b2q (b : bool) : Q := if b then 1%Q else 0%Q.

(** * src/outbound_analyzer.py *)

Module outbound_analyzer.

(** One dictionary of the list [outbound_performance]. *)
Record OutboundRow : Type := mkOutboundRow {
  message_id : nat;
  thread_id : string;
  timestamp : Timestamp;
  contact_person : option string;
  content : string;
  message_length : Z;
  word_count : Z;
  sentiment_polarity : Q;
  got_response : bool;
  response_time_hours : option Q;
  responder : option string;
  is_conversation_starter : bool;
  message_type : string;
  has_greeting : bool;
  question_count : Z;
  has_url : bool;
  has_linkedin_profile : bool
}.

(** A row of [performance_df] once the score column is added. *)
Record OutboundRecord : Type := mkOutboundRecord {
  row :> OutboundRow;
  performance_score : Q
}.

(** Lines 22-25: the owner's messages in threads the owner started. *)
Definition self_initiated_outbound (m : Message) : bool :=
  is_outbound m && msg.is_outbound_initiated m.

(** Lines 37-44: the inbound messages of the thread with a later
    timestamp, in timestamp order.  (The sort is on one key; only its being
    ordered and a permutation matters below.) *)
Definition responses (df : list Message) (m : Message) : list Message :=
  let thread_messages :=
    sort_values_timestamp msg.timestamp
      (filter (in_thread msg.thread_id (msg.thread_id m)) df) in
  filter (fun r => ts_gt (msg.timestamp r) (msg.timestamp m) && is_inbound r)
    thread_messages.

(** Lines 60-74: the first keyword rule that matches. *)
Definition classify_message_type (text : string) : string :=
  let content_lower := lower text in
  if any_in ["thanks"; "thank you"] content_lower then "thank_you"
  else if any_in ["hi "; "hello"; "hey"] content_lower then "greeting"
  else if contains "?" text then "question"
  else if any_in ["follow up"; "following up"] content_lower
       then "follow_up"
  else if any_in ["opportunity"; "position"; "role"; "job"] content_lower
       then "opportunity_inquiry"
  else if any_in ["connect"; "connection"; "network"] content_lower
       then "connection_request"
  else "other".

(** The body of the loop over [outbound_df], lines 32-94. *)
Definition analyze_message (df : list Message) (m : Message) : OutboundRow :=
  let rs := responses df m in
  let got := match rs with [] => false | _ :: _ => true end in
  let first_response := hd_error rs in
  {| message_id := idx m;
     thread_id := msg.thread_id m;
     timestamp := msg.timestamp m;
     contact_person := msg.contact_person m;
     content := msg.content m;
     message_length := msg.message_length m;
     word_count := msg.word_count m;
     sentiment_polarity := msg.sentiment_polarity m;
     got_response := got;
     response_time_hours :=
       match first_response with
       | Some r => hours_between (msg.timestamp r) (msg.timestamp m)
       | None => None
       end;
     responder := option_map sender first_response;
     is_conversation_starter :=
       is_first_message m && msg.is_outbound_initiated m;
     message_type := classify_message_type (msg.content m);
     has_greeting := msg.has_greeting m;
     question_count := msg.question_count m;
     has_url := msg.has_url m;
     has_linkedin_profile := msg.has_linkedin_profile m |}.

(** Lines 99-105. *)
Definition score (r : OutboundRow) : Q :=
  (b2q (got_response r) * 10 +
   (sentiment_polarity r + 1) * 2 +
   b2q (has_greeting r) * 1 +
   inject_Z (question_count r) * 0.5 +
   (inject_Z (word_count r) / 50) * 0.1)%Q.

Definition add_score (r : OutboundRow) : OutboundRecord :=
  {| row := r; performance_score := score r |}.

(** With no message selected, [pd.DataFrame([])] has no columns and the
    score line raises KeyError. *)
Definition analyze_outbound_performance (df : list Message)
  : result (list OutboundRecord) :=
  let outbound_df := filter self_initiated_outbound df in
  let outbound_performance := map (analyze_message df) outbound_df in
  match outbound_performance with
  | [] => raise KeyError
  | _ :: _ => ret (map add_score outbound_performance)
  end.

(** [a] is strictly later than [b]; never so when one of them is NaT. *)
Definition strictly_later (a b : Timestamp) : Prop :=
  match a, b with
  | Some x, Some y => y < x
  | _, _ => False
  end.

(** [x] is an inbound message of the thread of [m], later than [m]. *)
Definition is_response (df : list Message) (m x : Message) : Prop :=
  In x df /\ msg.thread_id x = msg.thread_id m /\
  direction x = inbound /\
  strictly_later (msg.timestamp x) (msg.timestamp m).

Lemma ts_gt_later a b : ts_gt a b = true <-> strictly_later a b.
Proof.
  destruct a as [x|], b as [y|]; simpl; try (split; [discriminate|tauto]).
  apply Z.ltb_lt.
Qed.

Lemma is_inbound_spec x : is_inbound x = true <-> direction x = inbound.
Proof.
  unfold is_inbound. destruct (direction x); simpl; split;
    congruence.
Qed.

Lemma responses_in df m x : In x (responses df m) <-> is_response df m x.
Proof.
  unfold responses, is_response, sort_values_timestamp.
  rewrite filter_In, stable_sort_in, filter_In, andb_true_iff.
  unfold in_thread. rewrite String.eqb_eq, ts_gt_later, is_inbound_spec.
  tauto.
Qed.




Lemma analyze_outbound_performance_table df table :
  analyze_outbound_performance df = inr table ->
  table =
  map (fun m => add_score (analyze_message df m))
    (filter self_initiated_outbound df).
Proof.
  unfold analyze_outbound_performance.
  destruct (map (analyze_message df) (filter self_initiated_outbound df))
    as [|r rs] eqn:E; [discriminate|].
  unfold ret. intros H.
  assert (Ht : table = map add_score (r :: rs)) by congruence.
  rewrite Ht, <- E. now rewrite map_map.
Qed.

(** The stage returns a table exactly when it has a message to analyse. *)
Lemma analyze_outbound_performance_returns df :
  (exists m, In m df /\ self_initiated_outbound m = true) <->
  exists table, analyze_outbound_performance df = inr table.
Proof.
  unfold analyze_outbound_performance.
  destruct (filter self_initiated_outbound df) as [|m l] eqn:E; simpl.
  - split.
    + intros (m & Hin & Hm).
      assert (In m (filter self_initiated_outbound df))
        by (apply filter_In; tauto).
      rewrite E in H. inversion H.
    + intros [table H]. discriminate.
  - split; [eauto|]. intros _. exists m.
    apply filter_In. rewrite E. now left.
Qed.



(** The two-hour scenario, carried through this stage. *)
Definition two_hour_table : list OutboundRecord :=
  Eval vm_compute in
    match analyze_outbound_performance analyzer.two_hour_reply_out with
    | inr table => table
    | inl _ => []
    end.

Example two_hour_table_columns :
  map (fun r : OutboundRecord =>
         (message_id r, got_response r,
          option_map Qred (response_time_hours r), responder r,
          is_conversation_starter r, message_type r,
          Qred (performance_score r)))
    two_hour_table =
  [ (0%nat, true, Some 2%Q, Some "Alice", true, "greeting", 12%Q) ].
Proof. reflexivity. Qed.


Definition two_hour_record : OutboundRecord :=
  Eval vm_compute in
    match two_hour_table with
    | r :: _ => r
    | [] => add_score (analyze_message [] (analyzer.sample_message 0 "" "" ""
                                             None "" outbound))
    end.



(** ** A reply answers every earlier message of the thread *)

Lemma got_response_spec df m :
  got_response (analyze_message df m) = true <-> exists x, is_response df m x.
Proof.
  unfold analyze_message. cbn [got_response].
  destruct (responses df m) as [|x rest] eqn:E.
  - split; [discriminate|]. intros [x Hx].
    apply responses_in in Hx. rewrite E in Hx. inversion Hx.
  - split; [|reflexivity]. intros _. exists x.
    apply responses_in. rewrite E. now left.
Qed.

Lemma table_record df table (r : OutboundRecord) :
  analyze_outbound_performance df = inr table ->
  In r table ->
  exists m, In m df /\ self_initiated_outbound m = true /\
            r = add_score (analyze_message df m).
Proof.
  intros H Hr. apply analyze_outbound_performance_table in H. subst table.
  apply in_map_iff in Hr. destruct Hr as (m & <- & Hm).
  apply filter_In in Hm. destruct Hm as [Hm Hs]. now exists m.
Qed.

(** [got_response] does not tell which message was answered: when a
    message of the table got a response, so did every message of the
    table in the same thread that is not later. *)
Theorem earlier_messages_share_the_response
  (df : list Message) (table : list OutboundRecord)
  (r r' : OutboundRecord) :
  analyze_outbound_performance df = inr table ->
  In r table -> In r' table ->
  thread_id r = thread_id r' ->
  ts_leb (timestamp r) (timestamp r') = true ->
  got_response r' = true ->
  got_response r = true.
Proof.
  intros H Hr Hr' Ht Hle Hgot.
  destruct (table_record df table r H Hr) as (m & _ & _ & ->).
  destruct (table_record df table r' H Hr') as (m' & _ & _ & ->).
  cbn [row add_score] in *.
  apply got_response_spec in Hgot. apply got_response_spec.
  destruct Hgot as (x & Hin & Hth & Hd & Hlater). exists x.
  unfold analyze_message in Ht, Hle. cbn [thread_id timestamp] in Ht, Hle.
  repeat split; [exact Hin | congruence | exact Hd |].
  unfold strictly_later in *.
  destruct (msg.timestamp x) as [z|]; [|contradiction].
  destruct (msg.timestamp m') as [y'|]; [|contradiction].
  destruct (msg.timestamp m) as [y|]; simpl in Hle; [|discriminate].
  apply Z.leb_le in Hle. lia.
Qed.

(** The owner writes twice before Alice answers. *)
Definition follow_up : list Message :=
  [ analyzer.sample_message 0 "t1" "Owner" "Alice" (Some 0) "Hi Alice"
      outbound;
    analyzer.sample_message 1 "t1" "Owner" "Alice" (Some 3600000000000)
      "Just following up" outbound;
    analyzer.sample_message 2 "t1" "Alice" "Owner" (Some 7200000000000)
      "Sorry, busy week" inbound ].

Definition follow_up_out : list Message :=
  Eval vm_compute in
    match analyzer.detect_replies_and_response_times follow_up with
    | inr out => out
    | inl _ => []
    end.

Definition follow_up_table : list OutboundRecord :=
  Eval vm_compute in
    match analyze_outbound_performance follow_up_out with
    | inr table => table
    | inl _ => []
    end.

Lemma follow_up_run :
  analyze_outbound_performance follow_up_out = inr follow_up_table.
Proof. reflexivity. Defined.

Definition follow_up_first : OutboundRecord :=
  Eval vm_compute in nth 0 follow_up_table two_hour_record.

Definition follow_up_second : OutboundRecord :=
  Eval vm_compute in nth 1 follow_up_table two_hour_record.

Example follow_up_columns :
  map (fun r : OutboundRecord =>
         (message_id r, got_response r,
          option_map Qred (response_time_hours r), is_conversation_starter r))
    follow_up_table =
  [ (0%nat, true, Some 2%Q, true); (1%nat, true, Some 1%Q, false) ].
Proof. reflexivity. Qed.

Lemma earlier_messages_share_the_response_witness :
  got_response follow_up_first = true.
Proof.
  apply (earlier_messages_share_the_response follow_up_out follow_up_table
           follow_up_first follow_up_second follow_up_run).
  - left. reflexivity.
  - right. left. reflexivity.
  - reflexivity.
  - reflexivity.
  - reflexivity.
Defined.

(** ** [get_outbound_insights] *)



Definition response_times (rows : list OutboundRecord) : list Q :=
  analyzer.dropna (map (fun r : OutboundRecord => response_time_hours r) rows).











(** ** [get_conversation_starters_analysis] *)

Record TypeStats : Type := mkTypeStats {
  stats_message_type : string;
  got_response_count : nat;
  got_response_sum : nat;
  got_response_mean : Q;
  response_time_hours_mean : option Q;
  sentiment_polarity_mean : option Q;
  message_length_mean : option Q
}.

Record StartersAnalysis : Type := mkStartersAnalysis {
  total_conversation_starters : nat;
  successful_starters : nat;
  starter_response_rate : Q;
  type_performance : list TypeStats;
  best_starters : list OutboundRecord;
  avg_starter_length : option Q;
  avg_starter_sentiment : option Q
}.

Definition answered (r : OutboundRecord) : bool := got_response r.

Definition of_type (msg_type : string) (r : OutboundRecord) : bool :=
  String.eqb (message_type r) msg_type.

(** Lines 126-144. *)
Definition type_stats (starters : list OutboundRecord) (msg_type : string)
  : TypeStats :=
  let type_msgs := filter (of_type msg_type) starters in
  let responded_msgs := filter answered type_msgs in
  {| stats_message_type := msg_type;
     got_response_count := length type_msgs;
     got_response_sum := length responded_msgs;
     got_response_mean :=
       analyzer.ratio_or_zero (length responded_msgs) (length type_msgs);
     response_time_hours_mean :=
       match responded_msgs with
       | [] => Some 0%Q
       | _ :: _ => analyzer.mean (response_times responded_msgs)
       end;
     sentiment_polarity_mean :=
       analyzer.mean
         (map (fun r : OutboundRecord => sentiment_polarity r) type_msgs);
     message_length_mean :=
       analyzer.mean
         (map (fun r : OutboundRecord => inject_Z (message_length r))
            type_msgs) |}.

Definition score_desc (x y : OutboundRecord) : bool :=
  Qle_bool (performance_score y) (performance_score x).

(** Lines 109-159; [None] is the empty dictionary. *)
Definition get_conversation_starters_analysis
  (outbound_df : list OutboundRecord) : option StartersAnalysis :=
  let starters :=
    filter (fun r : OutboundRecord => is_conversation_starter r)
      outbound_df in
  match starters with
  | [] => None
  | _ :: _ =>
      let successful := filter answered starters in
      Some
        {| total_conversation_starters := length starters;
           successful_starters := length successful;
           starter_response_rate :=
             (inject_Z (Z.of_nat (length successful)) /
              inject_Z (Z.of_nat (length starters)))%Q;
           type_performance :=
             map (type_stats starters)
               (analyzer.unique
                  (map (fun r : OutboundRecord => message_type r) starters));
           best_starters := firstn 10 (stable_sort score_desc successful);
           avg_starter_length :=
             analyzer.mean
               (map (fun r : OutboundRecord => inject_Z (message_length r))
                  starters);
           avg_starter_sentiment :=
             analyzer.mean
               (map (fun r : OutboundRecord => sentiment_polarity r)
                  starters) |}
  end.

Lemma list_sum_same l l' : Permutation l l' -> list_sum l = list_sum l'.
Proof. induction 1; simpl; lia. Qed.

(** Counting the rows of a table key by key. *)
Lemma count_by_key {A : Type} (key : A -> string) (p : A -> bool)
  (rows : list A) keys :
  NoDup keys ->
  list_sum
    (map (fun k =>
            length (filter p (filter (fun r => String.eqb (key r) k) rows)))
       keys) =
  length (filter (fun r => p r && existsb (String.eqb (key r)) keys) rows).
Proof.
  induction keys as [|k keys IH]; intros Hnd.
  - simpl. induction rows as [|r rows IHr]; simpl; [reflexivity|].
    now rewrite andb_false_r.
  - inversion Hnd as [|? ? Hnotin Hnd']; subst.
    cbn [map].
    match goal with
    | |- context [list_sum (?x :: ?l)] =>
        change (list_sum (x :: l)) with (x + list_sum l)%nat
    end.
    rewrite IH by assumption. clear IH.
    induction rows as [|r rows IHr]; [reflexivity|].
    cbn [filter existsb] in IHr |- *.
    destruct (String.eqb_spec (key r) k) as [E|E].
    + assert (Hother : existsb (String.eqb (key r)) keys = false).
      { apply not_true_is_false. intros K. apply existsb_exists in K.
        destruct K as (k' & Hin & E'). apply String.eqb_eq in E'.
        apply Hnotin. congruence. }
      rewrite Hother. cbn [filter].
      destruct (p r); cbn [andb orb length]; lia.
    + cbn [filter].
      destruct (p r), (existsb (String.eqb (key r)) keys);
        cbn [andb orb length]; lia.
Qed.

Lemma count_over_keys {A : Type} (key : A -> string) (p : A -> bool)
  (rows : list A) :
  list_sum
    (map (fun k =>
            length (filter p (filter (fun r => String.eqb (key r) k) rows)))
       (analyzer.unique (map key rows))) =
  length (filter p rows).
Proof.
  rewrite count_by_key by apply analyzer.unique_nodup.
  f_equal. apply filter_ext_in. intros r Hr.
  assert (H : existsb (String.eqb (key r)) (analyzer.unique (map key rows))
              = true).
  { apply existsb_exists. exists (key r).
    split; [|apply String.eqb_refl].
    apply analyzer.unique_in. now apply in_map. }
  now rewrite H, andb_true_r.
Qed.

Lemma filter_true {A : Type} (l : list A) : filter (fun _ => true) l = l.
Proof. induction l as [|x l IH]; simpl; [reflexivity | now rewrite IH]. Qed.

Definition well_formed_stats (s : TypeStats) : Prop :=
  (1 <= got_response_count s)%nat /\
  (got_response_sum s <= got_response_count s)%nat /\
  (0 <= got_response_mean s)%Q /\ (got_response_mean s <= 1)%Q.

(** The starters report is empty exactly when the table has no
    conversation starter.  Otherwise every starter is counted under exactly
    one message type: the types are listed once each, their counts add up
    to the number of starters and their response counts to the number of
    successful starters.  The best starters are at most ten answered
    starters, in descending order of score. *)
Theorem starters_counted_once_by_type (outbound_df : list OutboundRecord) :
  let starters :=
    filter (fun r : OutboundRecord => is_conversation_starter r)
      outbound_df in
  match get_conversation_starters_analysis outbound_df with
  | None => starters = []
  | Some s =>
      total_conversation_starters s = length starters /\
      (0 < total_conversation_starters s)%nat /\
      (successful_starters s <= total_conversation_starters s)%nat /\
      (0 <= starter_response_rate s)%Q /\ (starter_response_rate s <= 1)%Q /\
      NoDup (map stats_message_type (type_performance s)) /\
      Forall well_formed_stats (type_performance s) /\
      list_sum (map got_response_count (type_performance s)) =
        total_conversation_starters s /\
      list_sum (map got_response_sum (type_performance s)) =
        successful_starters s /\
      (length (best_starters s) <= 10)%nat /\
      StronglySorted
        (fun x y : OutboundRecord =>
           (performance_score y <= performance_score x)%Q)
        (best_starters s) /\
      (forall r, In r (best_starters s) ->
         In r outbound_df /\ is_conversation_starter r = true /\
         got_response r = true)
  end.
Proof.
  cbv zeta. unfold get_conversation_starters_analysis.
  remember (filter (fun r : OutboundRecord => is_conversation_starter r)
              outbound_df) as starters eqn:Es.
  assert (Hst : forall r, In r starters ->
                  In r outbound_df /\ is_conversation_starter r = true).
  { intros r Hr. rewrite Es in Hr. now apply filter_In in Hr. }
  clear Es. destruct starters as [|r0 rs]; [reflexivity|]. cbv iota.
  remember (r0 :: rs) as starters eqn:E.
  assert (Hpos : (0 < length starters)%nat) by (rewrite E; simpl; lia).
  clear E r0 rs.
  cbn [total_conversation_starters successful_starters starter_response_rate
         type_performance best_starters].
  pose proof (filter_length_le answered starters) as Hle.
  assert (Hd : (0 < inject_Z (Z.of_nat (length starters)))%Q)
    by (unfold Qlt; simpl; lia).
  split; [reflexivity|]. split; [exact Hpos|]. split; [exact Hle|].
  split.
  { apply Qle_shift_div_l; [exact Hd|]. rewrite Qmult_0_l.
    unfold Qle. simpl. lia. }
  split.
  { apply Qle_shift_div_r; [exact Hd|]. rewrite Qmult_1_l.
    unfold Qle. simpl. lia. }
  split.
  { rewrite map_map. cbn [stats_message_type type_stats].
    rewrite map_id. apply analyzer.unique_nodup. }
  split.
  { apply Forall_forall. intros s Hs. apply in_map_iff in Hs.
    destruct Hs as (ty & <- & Hty).
    apply analyzer.unique_in, in_map_iff in Hty.
    destruct Hty as (r & Er & Hr).
    assert (Hin : In r (filter (of_type ty) starters)).
    { apply filter_In. split; [exact Hr|].
      unfold of_type. now apply String.eqb_eq. }
    assert (Hcount : (1 <= length (filter (of_type ty) starters))%nat).
    { destruct (filter (of_type ty) starters); [inversion Hin | simpl; lia]. }
    pose proof (filter_length_le answered (filter (of_type ty) starters))
      as Hsum.
    unfold well_formed_stats, type_stats.
    cbn [got_response_count got_response_sum got_response_mean].
    split; [exact Hcount|]. split; [exact Hsum|].
    now apply analyzer.ratio_or_zero_unit. }
  split.
  { rewrite map_map. cbn [got_response_count type_stats].
    rewrite <- (filter_true starters) at 2.
    rewrite <- (count_over_keys (fun r : OutboundRecord => message_type r)
                  (fun _ => true) starters).
    f_equal. apply map_ext. intros ty. unfold of_type.
    now rewrite filter_true. }
  split.
  { rewrite map_map. cbn [got_response_sum type_stats].
    rewrite <- (count_over_keys (fun r : OutboundRecord => message_type r)
                  answered starters).
    reflexivity. }
  pose proof (stable_sort_sorted score_desc) as Hsorted.
  split; [rewrite length_firstn; lia|]. split.
  - assert (Hs : StronglySorted
                   (fun x y : OutboundRecord =>
                      (performance_score y <= performance_score x)%Q)
                   (stable_sort score_desc (filter answered starters))).
    { eapply analyzer.strongly_sorted_weaken; [|apply Hsorted].
      - intros x y. unfold le_rel, score_desc. now rewrite Qle_bool_iff.
      - intros x y. unfold score_desc. rewrite !Qle_bool_iff.
        destruct (Qlt_le_dec (performance_score x) (performance_score y));
          [right | left]; auto. now apply Qlt_le_weak.
      - intros x y z. unfold score_desc. rewrite !Qle_bool_iff.
        intros H1 H2. now apply Qle_trans with (performance_score y). }
    rewrite <- (firstn_skipn 10) in Hs.
    now apply analyzer.strongly_sorted_app_l in Hs.
  - intros r Hr.
    assert (Hin : In r (stable_sort score_desc (filter answered starters))).
    { rewrite <- (firstn_skipn 10). apply in_or_app. now left. }
    apply stable_sort_in, filter_In in Hin. destruct Hin as [Hin Hgot].
    destruct (Hst r Hin) as [H1 H2]. now repeat split.
Qed.

End outbound_analyzer.

(** * Regular expressions ([re.search])

    The patterns of the sales classifier use literals, character classes,
    alternation, [?], [+] and [*] only, so [re.search(p, s)] finds a match
    exactly when some substring of [s] belongs to the language of [p].
    Matching is by derivatives. *)

Module re.

Inductive regex : Type :=
| Nul
| Eps
| Chr (p : ascii -> bool)
| Cat (r1 r2 : regex)
| Alt (r1 r2 : regex)
| Star (r : regex).

Inductive Lang : regex -> list ascii -> Prop :=
| LEps : Lang Eps []
| LChr p c : p c = true -> Lang (Chr p) [c]
| LCat r1 r2 s1 s2 : Lang r1 s1 -> Lang r2 s2 -> Lang (Cat r1 r2) (s1 ++ s2)
| LAltL r1 r2 s : Lang r1 s -> Lang (Alt r1 r2) s
| LAltR r1 r2 s : Lang r2 s -> Lang (Alt r1 r2) s
| LStar0 r : Lang (Star r) []
| LStarS r s1 s2 :
    Lang r s1 -> Lang (Star r) s2 -> Lang (Star r) (s1 ++ s2).

Fixpoint nullable (r : regex) : bool :=
  match r with
  | Nul => false
  | Eps => true
  | Chr _ => false
  | Cat r1 r2 => nullable r1 && nullable r2
  | Alt r1 r2 => nullable r1 || nullable r2
  | Star _ => true
  end.

Fixpoint deriv (c : ascii) (r : regex) : regex :=
  match r with
  | Nul => Nul
  | Eps => Nul
  | Chr p => if p c then Eps else Nul
  | Cat r1 r2 =>
      if nullable r1 then Alt (Cat (deriv c r1) r2) (deriv c r2)
      else Cat (deriv c r1) r2
  | Alt r1 r2 => Alt (deriv c r1) (deriv c r2)
  | Star r1 => Cat (deriv c r1) (Star r1)
  end.

Fixpoint matches (r : regex) (s : list ascii) : bool :=
  match s with
  | [] => nullable r
  | c :: s' => matches (deriv c r) s'
  end.

Definition any_char : regex := Chr (fun _ => true).

(** [re.search(r, s) is not None] *)
Definition search (r : regex) (s : string) : bool :=
  matches (Cat (Star any_char) (Cat r (Star any_char)))
    (String.list_ascii_of_string s).

(** Pattern syntax. *)
Fixpoint lit_chars (cs : list ascii) : regex :=
  match cs with
  | [] => Eps
  | c :: cs' => Cat (Chr (Ascii.eqb c)) (lit_chars cs')
  end.

Definition lit (s : string) : regex :=
  lit_chars (String.list_ascii_of_string s).

Fixpoint alts (rs : list regex) : regex :=
  match rs with
  | [] => Nul
  | [r] => r
  | r :: rs' => Alt r (alts rs')
  end.

Definition one_of (words : list string) : regex := alts (map lit words).
Definition plus (r : regex) : regex := Cat r (Star r).
Definition opt (r : regex) : regex := Alt r Eps.
Definition seq (rs : list regex) : regex := fold_right Cat Eps rs.

(** [\d] and [\s] on one-byte characters. *)
Definition digit : regex :=
  Chr (fun c => let n := N_of_ascii c in N.leb 48 n && N.leb n 57).

Definition space : regex :=
  Chr (fun c =>
         let n := N_of_ascii c in
         N.eqb n 32 || (N.leb 9 n && N.leb n 13) || (N.leb 28 n && N.leb n 31)).

Definition char_in (s : string) : regex :=
  Chr (fun c => existsb (Ascii.eqb c) (String.list_ascii_of_string s)).

(** ** Correctness of the matcher *)

Lemma nullable_spec r : nullable r = true <-> Lang r [].
Proof.
  induction r as [| |p|r1 IH1 r2 IH2|r1 IH1 r2 IH2|r IH]; simpl.
  - split; [discriminate | intros H; inversion H].
  - split; [constructor | reflexivity].
  - split; [discriminate | intros H; inversion H].
  - rewrite andb_true_iff, IH1, IH2. split.
    + intros [H1 H2]. exact (LCat _ _ [] [] H1 H2).
    + intros H. inversion H; subst.
      match goal with
      | E : _ ++ _ = [] |- _ => apply app_eq_nil in E; destruct E; subst
      end.
      now split.
  - rewrite orb_true_iff, IH1, IH2. split.
    + intros [H|H]; [now apply LAltL | now apply LAltR].
    + intros H. inversion H; subst; auto.
  - split; [constructor | reflexivity].
Qed.

Lemma star_cons r c s :
  Lang (Star r) (c :: s) ->
  exists s1 s2, s = s1 ++ s2 /\ Lang r (c :: s1) /\ Lang (Star r) s2.
Proof.
  intros H. remember (Star r) as r' eqn:Er. remember (c :: s) as w eqn:Ew.
  revert s Ew.
  induction H as [| | | | | |r0 s1 s2 H1 _ H2 IH2]; intros w' Ew;
    try discriminate.
  injection Er as ->. destruct s1 as [|a s1].
  - simpl in Ew. now apply IH2.
  - simpl in Ew. injection Ew as -> <-. now exists s1, s2.
Qed.

Lemma deriv_spec c r s : Lang (deriv c r) s <-> Lang r (c :: s).
Proof.
  revert s.
  induction r as [| |p|r1 IH1 r2 IH2|r1 IH1 r2 IH2|r IH]; intros s; simpl.
  - split; intros H; inversion H.
  - split; intros H; inversion H.
  - destruct (p c) eqn:E; split; intros H; inversion H; subst.
    + now constructor.
    + constructor.
    + congruence.
  - assert (Hcat : Lang (Cat (deriv c r1) r2) s <->
                   exists s1 s2, s = s1 ++ s2 /\ Lang r1 (c :: s1) /\
                                 Lang r2 s2).
    { split.
      - intros H. inversion H as [| |? ? s1 s2 H1 H2| | | |]; subst.
        exists s1, s2. rewrite <- IH1. auto.
      - intros (s1 & s2 & -> & H1 & H2). constructor; [|exact H2].
        now apply IH1. }
    assert (Hsplit : Lang (Cat r1 r2) (c :: s) <->
                     (exists s1 s2, s = s1 ++ s2 /\ Lang r1 (c :: s1) /\
                                    Lang r2 s2) \/
                     (Lang r1 [] /\ Lang r2 (c :: s))).
    { split.
      - intros H. inversion H as [| |? ? s1 s2 H1 H2| | | |]; subst.
        match goal with
        | E : s1 ++ s2 = c :: s |- _ =>
            destruct s1 as [|a s1]; simpl in E;
            [ right; subst; now split
            | injection E as -> <-; left; now exists s1, s2 ]
        end.
      - intros [(s1 & s2 & -> & H1 & H2)|[H1 H2]].
        + exact (LCat _ _ (c :: s1) s2 H1 H2).
        + exact (LCat _ _ [] (c :: s) H1 H2). }
    rewrite Hsplit. destruct (nullable r1) eqn:En.
    + apply nullable_spec in En. split.
      * intros H. inversion H; subst.
        -- left. now apply Hcat.
        -- right. split; [exact En | now apply IH2].
      * intros [H|[_ H]].
        -- apply LAltL. now apply Hcat.
        -- apply LAltR. now apply IH2.
    + rewrite Hcat. split; [auto|]. intros [H|[H _]]; [exact H|].
      apply nullable_spec in H. congruence.
  - split; intros H; inversion H; subst.
    + apply LAltL. now apply IH1.
    + apply LAltR. now apply IH2.
    + apply LAltL. now apply IH1.
    + apply LAltR. now apply IH2.
  - split.
    + intros H. inversion H as [| |? ? s1 s2 H1 H2| | | |]; subst.
      apply IH in H1. exact (LStarS _ (c :: s1) s2 H1 H2).
    + intros H. apply star_cons in H.
      destruct H as (s1 & s2 & -> & H1 & H2).
      constructor; [now apply IH | exact H2].
Qed.

Lemma matches_spec r s : matches r s = true <-> Lang r s.
Proof.
  revert r. induction s as [|c s IH]; intros r; simpl.
  - apply nullable_spec.
  - rewrite IH. apply deriv_spec.
Qed.

Lemma star_any s : Lang (Star any_char) s.
Proof.
  induction s as [|c s IH]; [constructor|].
  change (c :: s) with ([c] ++ s). constructor; [|exact IH].
  now constructor.
Qed.

(** Some substring of [s] belongs to the language of [r]. *)
Definition Search (r : regex) (s : string) : Prop :=
  exists pre m post,
    String.list_ascii_of_string s = pre ++ m ++ post /\ Lang r m.

Lemma search_spec r s : search r s = true <-> Search r s.
Proof.
  unfold search, Search. rewrite matches_spec. split.
  - intros H. inversion H as [| |? ? pre rest _ H2| | | |]; subst.
    inversion H2 as [| |? ? m post Hm _| | | |]; subst.
    now exists pre, m, post.
  - intros (pre & m & post & -> & Hm).
    constructor; [apply star_any|]. constructor; [exact Hm | apply star_any].
Qed.

End re.

(** * [difflib.SequenceMatcher]

    The matcher of the Python standard library, as the clusterer calls it:
    [SequenceMatcher(None, a, b)], so without a junk predicate and with the
    automatic junk heuristic on.  Sequences are lists of characters. *)

Module difflib.

(** A matching block [(i, j, k)]: [a[i:i+k] == b[j:j+k]]. *)
Definition Match : Type := (nat * nat * nat)%type.

Section SequenceMatcher.
Variables a b : list ascii.

(** ** [__chain_b] *)

Fixpoint positions_from (off : nat) (x : ascii) (s : list ascii)
  : list nat :=
  match s with
  | [] => []
  | c :: s' =>
      if Ascii.eqb c x then off :: positions_from (S off) x s'
      else positions_from (S off) x s'
  end.

(** With 200 elements or more, an element that makes up more than 1% of
    [b] (plus one) is popular and leaves the index. *)
Definition popular (x : ascii) : bool :=
  let n := length b in
  (200 <=? n)%nat &&
  (n / 100 + 1 <? length (positions_from 0 x b))%nat.

(** [b2j.get(x, nothing)]: the indices of [x] in [b], in increasing
    order. *)
Definition b2j_get (x : ascii) : list nat :=
  if popular x then [] else positions_from 0 x b.

(** No junk predicate is given, so [bjunk] is the empty set. *)
Definition isbjunk (x : ascii) : bool := false.

(** ** [find_longest_match] *)

(** [j2len.get(j, 0)] on a dictionary kept as an association list. *)
Fixpoint j2len_get (d : list (nat * nat)) (j : nat) : nat :=
  match d with
  | [] => 0%nat
  | (j', k) :: d' => if (j' =? j)%nat then k else j2len_get d' j
  end.

(** [j2lenget(j-1, 0)]; the key [-1] is never present. *)
Definition prev_len (d : list (nat * nat)) (j : nat) : nat :=
  match j with
  | O => 0%nat
  | S j' => j2len_get d j'
  end.

Section Range.
Variables alo ahi blo bhi : nat.

(** The loop over [j] for one [i]. *)
Fixpoint scan_row (i : nat) (j2len : list (nat * nat)) (js : list nat)
  (newj2len : list (nat * nat)) (best : Match)
  : list (nat * nat) * Match :=
  match js with
  | [] => (newj2len, best)
  | j :: js' =>
      if (j <? blo)%nat then scan_row i j2len js' newj2len best
      else if (bhi <=? j)%nat then (newj2len, best)
      else
        let k := (prev_len j2len j + 1)%nat in
        let '(_, _, bestsize) := best in
        let best' :=
          if (bestsize <? k)%nat then ((i + 1 - k)%nat, (j + 1 - k)%nat, k)
          else best in
        scan_row i j2len js' ((j, k) :: newj2len) best'
  end.

(** The loop over [i], on the elements [a[i:ahi]]. *)
Fixpoint scan_rows (row : list ascii) (i : nat) (j2len : list (nat * nat))
  (best : Match) : Match :=
  match row with
  | [] => best
  | x :: row' =>
      let '(newj2len, best') := scan_row i j2len (b2j_get x) [] best in
      scan_rows row' (S i) newj2len best'
  end.

(** [a[i] == b[j]] *)
Definition same_at (i j : nat) : bool :=
  match nth_error a i, nth_error b j with
  | Some x, Some y => Ascii.eqb x y
  | _, _ => false
  end.

Definition junk_at (j : nat) : bool :=
  match nth_error b j with
  | Some y => isbjunk y
  | None => false
  end.

(** The two loops that extend a match to the left; [junk] tells whether
    the elements added are to be junk or not. *)
Fixpoint extend_back (junk : bool) (besti bestj bestsize : nat) : Match :=
  match besti, bestj with
  | S i', S j' =>
      if (alo <? besti)%nat && (blo <? bestj)%nat &&
         Bool.eqb (junk_at j') junk && same_at i' j'
      then extend_back junk i' j' (S bestsize)
      else (besti, bestj, bestsize)
  | _, _ => (besti, bestj, bestsize)
  end.

(** The two loops that extend a match to the right. *)
Fixpoint extend_forward (junk : bool) (fuel besti bestj bestsize : nat)
  : nat :=
  match fuel with
  | O => bestsize
  | S fuel' =>
      if (besti + bestsize <? ahi)%nat && (bestj + bestsize <? bhi)%nat &&
         Bool.eqb (junk_at (bestj + bestsize)) junk &&
         same_at (besti + bestsize) (bestj + bestsize)
      then extend_forward junk fuel' besti bestj (S bestsize)
      else bestsize
  end.

Definition find_longest_match : Match :=
  let best0 :=
    scan_rows (skipn alo (firstn ahi a)) alo [] (alo, blo, 0%nat) in
  let '(i0, j0, k0) := best0 in
  let '(i1, j1, k1) := extend_back false i0 j0 k0 in
  let k2 := extend_forward false (ahi - (i1 + k1)) i1 j1 k1 in
  let '(i3, j3, k3) := extend_back true i1 j1 k2 in
  let k4 := extend_forward true (ahi - (i3 + k3)) i3 j3 k3 in
  (i3, j3, k4).

End Range.

(** ** [get_matching_blocks] *)

Definition Range : Type := (nat * nat * nat * nat)%type.

(** The work list is a stack: its head is the end of the Python list. *)
Fixpoint blocks_loop (fuel : nat) (queue : list Range)
  (matching_blocks : list Match) : option (list Match) :=
  match queue with
  | [] => Some matching_blocks
  | (alo, ahi, blo, bhi) :: queue' =>
      match fuel with
      | O => None
      | S fuel' =>
          let '(i, j, k) := find_longest_match alo ahi blo bhi in
          if (k =? 0)%nat then blocks_loop fuel' queue' matching_blocks
          else
            let q1 :=
              if (alo <? i)%nat && (blo <? j)%nat
              then (alo, i, blo, j) :: queue' else queue' in
            let q2 :=
              if (i + k <? ahi)%nat && (j + k <? bhi)%nat
              then ((i + k)%nat, ahi, (j + k)%nat, bhi) :: q1 else q1 in
            blocks_loop fuel' q2 (matching_blocks ++ [(i, j, k)])
      end
  end.

(** Order of tuples. *)
Definition match_leb (x y : Match) : bool :=
  let '(i1, j1, k1) := x in
  let '(i2, j2, k2) := y in
  (i1 <? i2)%nat ||
  ((i1 =? i2)%nat && ((j1 <? j2)%nat || ((j1 =? j2)%nat && (k1 <=? k2)%nat))).

(** The loop that merges adjacent blocks. *)
Fixpoint collapse (blocks : list Match) (cur : Match)
  (non_adjacent : list Match) : list Match :=
  let '(i1, j1, k1) := cur in
  match blocks with
  | [] => if (k1 =? 0)%nat then non_adjacent else non_adjacent ++ [cur]
  | (i2, j2, k2) :: blocks' =>
      if ((i1 + k1 =? i2) && (j1 + k1 =? j2))%nat
      then collapse blocks' (i1, j1, (k1 + k2)%nat) non_adjacent
      else
        collapse blocks' (i2, j2, k2)
          (if (k1 =? 0)%nat then non_adjacent else non_adjacent ++ [cur])
  end.

(** Every range on the list takes at most twice its length plus one
    rounds; the bound is met by [blocks_loop_enough]. *)
Definition rounds : nat := 2 * length a + 1.

Definition get_matching_blocks : list Match :=
  match blocks_loop rounds [(0%nat, length a, 0%nat, length b)] [] with
  | Some matching_blocks =>
      collapse (stable_sort match_leb matching_blocks) (0, 0, 0)%nat []
      ++ [(length a, length b, 0%nat)]
  | None => []
  end.

Definition match_size (m : Match) : nat := snd m.

(** [ratio()]: [2.0 * matches / length], and [1.0] for two empty
    sequences. *)
Definition ratio : Q :=
  let matches := list_sum (map match_size get_matching_blocks) in
  let total := (length a + length b)%nat in
  if (total =? 0)%nat then 1%Q
  else (2 * inject_Z (Z.of_nat matches) / inject_Z (Z.of_nat total))%Q.

End SequenceMatcher.

(** [SequenceMatcher(None, a, b).ratio()] on strings. *)
Definition similarity (s1 s2 : string) : Q :=
  ratio (String.list_ascii_of_string s1) (String.list_ascii_of_string s2).

Example blocks_doc_example :
  get_matching_blocks (String.list_ascii_of_string "abxcd")
    (String.list_ascii_of_string "abcd") =
  [ (0, 0, 2); (3, 2, 2); (5, 4, 0) ]%nat.
Proof. vm_compute. reflexivity. Qed.

Example longest_match_doc_example :
  find_longest_match (String.list_ascii_of_string " abcd")
    (String.list_ascii_of_string "abcd abcd") 0 5 0 9 = (0, 4, 5)%nat.
Proof. vm_compute. reflexivity. Qed.

Example ratio_abcd_bcde : Qred (similarity "abcd" "bcde") = (3 # 4)%Q.
Proof. vm_compute. reflexivity. Qed.

Example ratio_tide_diet : Qred (similarity "tide" "diet") = (1 # 4)%Q.
Proof. vm_compute. reflexivity. Qed.

Example ratio_diet_tide : Qred (similarity "diet" "tide") = (1 # 2)%Q.
Proof. vm_compute. reflexivity. Qed.

Example ratio_empty : similarity "" "" = 1%Q.
Proof. reflexivity. Qed.

(** ** The work list of [get_matching_blocks] runs dry

    A match found in [a[alo:ahi]] lies in that range, so the ranges that
    are put back on the list are shorter, and [rounds] rounds are enough. *)

Section Bounds.
Variables a b : list ascii.

Definition within (alo hi : nat) (m : Match) : Prop :=
  let '(i, _, k) := m in (alo <= i /\ i + k <= hi)%nat.

Lemma prev_len_le d j n :
  (forall j', j2len_get d j' <= n)%nat -> (prev_len d j <= n)%nat.
Proof. intros H. destruct j; simpl; [lia | apply H]. Qed.

Lemma scan_row_bounds blo bhi alo i d js :
  (alo <= i)%nat ->
  (forall j, j2len_get d j <= i - alo)%nat ->
  forall acc best,
    (forall j, j2len_get acc j <= i + 1 - alo)%nat ->
    within alo (i + 1) best ->
    (forall j,
       j2len_get (fst (scan_row blo bhi i d js acc best)) j
       <= i + 1 - alo)%nat /\
    within alo (i + 1) (snd (scan_row blo bhi i d js acc best)).
Proof.
  intros Hi Hd. induction js as [|j js IH]; intros acc best Hacc Hbest.
  - simpl. now split.
  - simpl. destruct (j <? blo)%nat; [now apply IH|].
    destruct (bhi <=? j)%nat; [simpl; now split|].
    pose proof (prev_len_le d j (i - alo) Hd) as Hp.
    destruct best as [[c cj] k]. apply IH.
    + intros j'. simpl. destruct (j =? j')%nat; [lia | apply Hacc].
    + destruct (k <? prev_len d j + 1)%nat; [|exact Hbest].
      unfold within. lia.
Qed.

Lemma scan_rows_bounds blo bhi alo row :
  forall i d best,
    (alo <= i)%nat ->
    (forall j, j2len_get d j <= i - alo)%nat ->
    within alo i best ->
    within alo (i + length row) (scan_rows b blo bhi row i d best).
Proof.
  induction row as [|x row IH]; intros i d best Hi Hd Hbest; simpl.
  - now rewrite Nat.add_0_r.
  - assert (Hbest' : within alo (i + 1) best).
    { destruct best as [[c cj] k]. unfold within in *. lia. }
    destruct (scan_row_bounds blo bhi alo i d (b2j_get b x) Hi Hd []
                best (fun _ => Nat.le_0_l _) Hbest') as [Hnew Hb].
    destruct (scan_row blo bhi i d (b2j_get b x) [] best) as [new best'].
    simpl in Hnew, Hb.
    replace (i + S (length row))%nat with (S i + length row)%nat by lia.
    apply IH; [lia | |].
    + intros j. specialize (Hnew j). lia.
    + now replace (S i) with (i + 1)%nat by lia.
Qed.

Lemma extend_back_bounds alo blo junk c :
  forall cj k,
    (alo <= c)%nat ->
    let '(c', _, k') := extend_back a b alo blo junk c cj k in
    (alo <= c' /\ c' + k' = c + k)%nat.
Proof.
  induction c as [|c IH]; intros cj k Hc; simpl; [now split|].
  destruct cj as [|cj]; [now split|].
  destruct ((alo <? S c)%nat && (blo <? S cj)%nat &&
            Bool.eqb (junk_at b cj) junk && same_at a b c cj) eqn:E;
    [|now split].
  rewrite !andb_true_iff in E. destruct E as [[[E _] _] _].
  apply Nat.ltb_lt in E.
  specialize (IH cj (S k)).
  destruct (extend_back a b alo blo junk c cj (S k)) as [[c' cj'] k'].
  destruct IH; lia.
Qed.

Lemma extend_forward_bounds ahi bhi junk fuel c cj :
  forall k,
    (c + k <= ahi)%nat ->
    (c + extend_forward a b ahi bhi junk fuel c cj k <= ahi)%nat.
Proof.
  induction fuel as [|fuel IH]; intros k Hk; simpl; [exact Hk|].
  destruct ((c + k <? ahi)%nat && (cj + k <? bhi)%nat &&
            Bool.eqb (junk_at b (cj + k)) junk &&
            same_at a b (c + k) (cj + k)) eqn:E; [|exact Hk].
  rewrite !andb_true_iff in E. destruct E as [[[E _] _] _].
  apply Nat.ltb_lt in E. apply IH. lia.
Qed.

(** The budget that [find_longest_match] gives the loop to the right lets
    it run until its own condition fails. *)
Lemma extend_forward_exit ahi bhi junk fuel c cj :
  forall k,
    (ahi - (c + k) <= fuel)%nat ->
    let k' := extend_forward a b ahi bhi junk fuel c cj k in
    (c + k' <? ahi)%nat && (cj + k' <? bhi)%nat &&
    Bool.eqb (junk_at b (cj + k')) junk && same_at a b (c + k') (cj + k')
    = false.
Proof.
  induction fuel as [|fuel IH]; intros k Hk; simpl.
  - assert (E : (c + k <? ahi)%nat = false) by (apply Nat.ltb_ge; lia).
    now rewrite E.
  - destruct ((c + k <? ahi)%nat && (cj + k <? bhi)%nat &&
              Bool.eqb (junk_at b (cj + k)) junk &&
              same_at a b (c + k) (cj + k)) eqn:E; [|exact E].
    apply IH. rewrite !andb_true_iff in E. destruct E as [[[E _] _] _].
    apply Nat.ltb_lt in E. lia.
Qed.

Lemma find_longest_match_bounds alo ahi blo bhi :
  (alo <= ahi)%nat ->
  within alo ahi (find_longest_match a b alo ahi blo bhi).
Proof.
  intros Hle. unfold find_longest_match.
  pose proof (scan_rows_bounds blo bhi alo (skipn alo (firstn ahi a))
                alo [] (alo, blo, 0%nat) (Nat.le_refl _)
                (fun _ => Nat.le_0_l _)) as H0.
  destruct (scan_rows b blo bhi (skipn alo (firstn ahi a)) alo []
              (alo, blo, 0%nat)) as [[i0 j0] k0].
  assert (Hlen : (length (skipn alo (firstn ahi a)) <= ahi - alo)%nat).
  { rewrite length_skipn. pose proof (firstn_le_length ahi a). lia. }
  assert (H0' : (alo <= i0 /\ i0 + k0 <= ahi)%nat).
  { unfold within in H0. specialize (H0 ltac:(lia)). lia. }
  clear H0.
  pose proof (extend_back_bounds alo blo false i0 j0 k0 (proj1 H0')) as H1.
  destruct (extend_back a b alo blo false i0 j0 k0) as [[i1 j1] k1].
  pose proof (extend_forward_bounds ahi bhi false (ahi - (i1 + k1)) i1 j1 k1
                ltac:(lia)) as H2.
  pose proof (extend_back_bounds alo blo true i1 j1
                (extend_forward a b ahi bhi false (ahi - (i1 + k1)) i1 j1 k1)
                (proj1 H1)) as H3.
  destruct (extend_back a b alo blo true i1 j1
              (extend_forward a b ahi bhi false (ahi - (i1 + k1)) i1 j1 k1))
    as [[i3 j3] k3].
  pose proof (extend_forward_bounds ahi bhi true (ahi - (i3 + k3)) i3 j3 k3
                ltac:(lia)) as H4.
  unfold within. lia.
Qed.

Definition range_ok (r : Range) : Prop :=
  let '(alo, ahi, _, _) := r in (alo <= ahi)%nat.

Definition range_cost (r : Range) : nat :=
  let '(alo, ahi, _, _) := r in (2 * (ahi - alo) + 1)%nat.

Lemma blocks_loop_enough fuel :
  forall queue acc,
    Forall range_ok queue ->
    (list_sum (map range_cost queue) <= fuel)%nat ->
    exists blocks, blocks_loop a b fuel queue acc = Some blocks.
Proof.
  induction fuel as [|fuel IH]; intros queue acc Hok Hfuel.
  - destruct queue as [|[[[alo ahi] blo] bhi] queue]; simpl; [eauto|].
    simpl in Hfuel. lia.
  - destruct queue as [|[[[alo ahi] blo] bhi] queue]; simpl; [eauto|].
    inversion Hok as [|? ? Hr Hq]; subst. simpl in Hr.
    pose proof (find_longest_match_bounds alo ahi blo bhi Hr) as Hb.
    destruct (find_longest_match a b alo ahi blo bhi) as [[i j] k].
    unfold within in Hb. simpl in Hfuel.
    destruct (k =? 0)%nat eqn:Ek; [apply IH; [exact Hq | lia]|].
    apply Nat.eqb_neq in Ek.
    apply IH.
    + destruct ((i + k <? ahi)%nat && (j + k <? bhi)%nat) eqn:E2;
        destruct ((alo <? i)%nat && (blo <? j)%nat) eqn:E1;
        repeat (constructor; simpl); try exact Hq;
        rewrite ?andb_true_iff, ?Nat.ltb_lt in *; lia.
    + destruct ((i + k <? ahi)%nat && (j + k <? bhi)%nat) eqn:E2;
        destruct ((alo <? i)%nat && (blo <? j)%nat) eqn:E1;
        simpl; rewrite ?andb_true_iff, ?Nat.ltb_lt in *; lia.
Qed.

(** [get_matching_blocks] never takes its [None] branch. *)
Lemma get_matching_blocks_total :
  exists blocks,
    blocks_loop a b (rounds a) [(0%nat, length a, 0%nat, length b)] []
    = Some blocks.
Proof.
  apply blocks_loop_enough.
  - repeat constructor. simpl. lia.
  - unfold rounds. simpl. lia.
Qed.

End Bounds.

(** ** A sequence matched against itself

    The first pass of [find_longest_match] keeps its best block on the
    diagonal: a block that ends at [(i, j)] is no longer than the run of
    indexed elements that ends at [min i j], and the diagonal is visited
    first.  The extension loops then stretch the block over the whole
    sequence, also where the junk heuristic has emptied the index. *)

Section Reflexive.
Variable a : list ascii.

Definition kept (i : nat) : bool :=
  match nth_error a i with
  | Some x => negb (popular a x)
  | None => false
  end.

(** The length of the run of indexed elements that ends at [i]. *)
Fixpoint run (i : nat) : nat :=
  if kept i then S (match i with O => 0 | S i' => run i' end)%nat
  else 0%nat.

Definition prun (i : nat) : nat :=
  match i with
  | O => 0%nat
  | S i' => run i'
  end.

Lemma run_unfold i : run i = if kept i then S (prun i) else 0%nat.
Proof. destruct i; reflexivity. Qed.

Lemma run_le i : (run i <= S i)%nat.
Proof.
  induction i as [|i IH]; rewrite run_unfold; destruct (kept _); simpl; lia.
Qed.

Lemma positions_from_in off x s j :
  In j (positions_from off x s) <->
  exists t, j = (off + t)%nat /\ nth_error s t = Some x.
Proof.
  revert off. induction s as [|c s IH]; intros off; simpl.
  - split; [tauto|]. intros (t & _ & H). now destruct t.
  - assert (Hs : In j (positions_from (S off) x s) <->
                 exists t, j = (off + S t)%nat /\ nth_error s t = Some x).
    { rewrite IH. split; intros (t & -> & H); exists t; split; auto; lia. }
    destruct (Ascii.eqb_spec c x) as [->|Hne]; simpl.
    + rewrite Hs. split.
      * intros [<-|(t & -> & H)].
        -- exists 0%nat. split; [lia | reflexivity].
        -- exists (S t). now split.
      * intros ([|t] & -> & H).
        -- left. lia.
        -- right. now exists t.
    + rewrite Hs. split.
      * intros (t & -> & H). exists (S t). now split.
      * intros ([|t] & -> & H).
        -- simpl in H. congruence.
        -- now exists t.
Qed.

Lemma positions_from_sorted off x s :
  StronglySorted lt (positions_from off x s) /\
  Forall (fun j => off <= j)%nat (positions_from off x s).
Proof.
  revert off. induction s as [|c s IH]; intros off; simpl.
  - split; constructor.
  - destruct (IH (S off)) as [Hs Hall].
    assert (Hall' : Forall (fun j => off <= j)%nat
                      (positions_from (S off) x s)).
    { eapply Forall_impl; [|exact Hall]. simpl. intros; lia. }
    destruct (Ascii.eqb c x); [|now split].
    split; constructor; auto.
Qed.

Lemma kept_run j x :
  nth_error a j = Some x -> popular a x = false -> run j = S (prun j).
Proof.
  intros Hj Hp. rewrite run_unfold. unfold kept. now rewrite Hj, Hp.
Qed.

Section Row.
Variables (i : nat) (x : ascii) (d : list (nat * nat)).
Hypothesis Hi : nth_error a i = Some x.
Hypothesis Hx : popular a x = false.
Hypothesis Ja : forall j, (prev_len d j <= prun (Nat.min i j))%nat.
Hypothesis Jb : prev_len d i = prun i.

Definition on_diagonal (hi : nat) (m : Match) : Prop :=
  let '(c, cj, k) := m in (c = cj /\ c + k <= hi)%nat.

Definition bestsize (m : Match) : nat := snd m.

Lemma scan_row_diagonal js :
  forall acc best,
    StronglySorted lt js ->
    (forall j, In j js -> (j < length a)%nat /\ nth_error a j = Some x) ->
    on_diagonal (i + 1) best ->
    (forall i', (i' < i)%nat -> (run i' <= bestsize best)%nat) ->
    (In i js \/ (run i <= bestsize best)%nat) ->
    let res := scan_row 0 (length a) i d js acc best in
    on_diagonal (i + 1) (snd res) /\
    (forall i', (i' <= i)%nat -> (run i' <= bestsize (snd res))%nat) /\
    (forall j',
       j2len_get (fst res) j' =
       if existsb (Nat.eqb j') js then (prev_len d j' + 1)%nat
       else j2len_get acc j').
Proof.
  induction js as [|j js IH]; intros acc best Hs Hjs Hd Hlt Hin.
  - simpl. split; [exact Hd|]. split; [|reflexivity].
    intros i' Hi'. destruct Hin as [[]|Hin].
    destruct (Nat.eq_dec i' i) as [->|]; [exact Hin | apply Hlt; lia].
  - cbn [scan_row]. inversion Hs as [|? ? Hs' Hall]; subst.
    destruct (Hjs j (or_introl eq_refl)) as [Hjn Hjx].
    assert (E1 : (j <? 0)%nat = false) by reflexivity.
    assert (E2 : (length a <=? j)%nat = false) by (apply Nat.leb_gt; lia).
    rewrite E1, E2.
    pose proof (kept_run j x Hjx Hx) as Hrj.
    pose proof (kept_run i x Hi Hx) as Hri.
    pose proof (run_le i) as Hrle.
    destruct best as [[c cj] k]. unfold bestsize in *. simpl snd in *.
    assert (Hlookup :
              forall (res : list (nat * nat) * Match) j',
                j2len_get (fst res) j' =
                (if existsb (Nat.eqb j') js then (prev_len d j' + 1)%nat
                 else j2len_get ((j, (prev_len d j + 1)%nat) :: acc) j') ->
                j2len_get (fst res) j' =
                (if existsb (Nat.eqb j') (j :: js)
                 then (prev_len d j' + 1)%nat else j2len_get acc j')).
    { intros res j' H. rewrite H. cbn [existsb j2len_get].
      rewrite (Nat.eqb_sym j' j).
      destruct (Nat.eqb_spec j j') as [->|]; simpl.
      - now destruct (existsb _ js).
      - reflexivity. }
    destruct (Nat.lt_trichotomy j i) as [Hlt'|[->|Hgt]].
    + (* before the diagonal *)
      pose proof (Ja j) as Hj. rewrite Nat.min_r in Hj by lia.
      assert (Hk : (k <? prev_len d j + 1)%nat = false).
      { apply Nat.ltb_ge. specialize (Hlt j Hlt'). lia. }
      rewrite Hk.
      destruct (IH ((j, (prev_len d j + 1)%nat) :: acc) (c, cj, k) Hs'
                  (fun j' H => Hjs j' (or_intror H)) Hd Hlt)
        as (R1 & R2 & R3).
      { destruct Hin as [[E|Hin]|Hin]; [lia | now left | now right]. }
      split; [exact R1|]. split; [exact R2|].
      intros j'. apply Hlookup, R3.
    + (* on the diagonal *)
      pose proof Jb as Jb'.
      destruct (k <? prev_len d i + 1)%nat eqn:Hk.
      * apply Nat.ltb_lt in Hk.
        destruct (IH ((i, (prev_len d i + 1)%nat) :: acc)
                    ((i + 1 - (prev_len d i + 1))%nat,
                     (i + 1 - (prev_len d i + 1))%nat,
                     (prev_len d i + 1)%nat) Hs'
                    (fun j' H => Hjs j' (or_intror H)))
          as (R1 & R2 & R3).
        -- unfold on_diagonal. lia.
        -- intros i' Hi'. specialize (Hlt i' Hi'). simpl. lia.
        -- right. simpl. lia.
        -- split; [exact R1|]. split; [exact R2|].
           intros j'. apply Hlookup, R3.
      * apply Nat.ltb_ge in Hk.
        destruct (IH ((i, (prev_len d i + 1)%nat) :: acc) (c, cj, k) Hs'
                    (fun j' H => Hjs j' (or_intror H)) Hd Hlt)
          as (R1 & R2 & R3).
        -- right. simpl. lia.
        -- split; [exact R1|]. split; [exact R2|].
           intros j'. apply Hlookup, R3.
    + (* past the diagonal *)
      assert (Hnotin : ~ In i (j :: js)).
      { intros [E|Hin']; [lia|].
        rewrite Forall_forall in Hall. specialize (Hall i Hin'). lia. }
      assert (Hr : (run i <= k)%nat) by (destruct Hin; tauto).
      pose proof (Ja j) as Hj. rewrite Nat.min_l in Hj by lia.
      assert (Hk : (k <? prev_len d j + 1)%nat = false)
        by (apply Nat.ltb_ge; lia).
      rewrite Hk.
      destruct (IH ((j, (prev_len d j + 1)%nat) :: acc) (c, cj, k) Hs'
                  (fun j' H => Hjs j' (or_intror H)) Hd Hlt)
        as (R1 & R2 & R3).
      { now right. }
      split; [exact R1|]. split; [exact R2|].
      intros j'. apply Hlookup, R3.
Qed.

End Row.

Lemma skipn_cons_nth (l : list ascii) :
  forall i x row,
    skipn i l = x :: row ->
    nth_error l i = Some x /\ skipn (S i) l = row /\ (i < length l)%nat.
Proof.
  induction l as [|c l IH]; intros i x row H.
  - destruct i; discriminate.
  - destruct i as [|i].
    + simpl in H. injection H as -> ->. simpl. repeat split. lia.
    + simpl in H. destruct (IH i x row H) as (H1 & H2 & H3).
      simpl. repeat split; auto. lia.
Qed.

Lemma positions_in_range x j :
  In j (positions_from 0 x a) ->
  (j < length a)%nat /\ nth_error a j = Some x.
Proof.
  intros H. apply positions_from_in in H. destruct H as (t & -> & H).
  simpl. split; [|exact H]. apply nth_error_Some. congruence.
Qed.

Lemma scan_rows_diagonal row :
  forall i d best,
    skipn i a = row ->
    (i <= length a)%nat ->
    (forall j, (prev_len d j <= prun (Nat.min i j))%nat) ->
    prev_len d i = prun i ->
    on_diagonal i best ->
    (forall i', (i' < i)%nat -> (run i' <= bestsize best)%nat) ->
    on_diagonal (length a) (scan_rows a 0 (length a) row i d best).
Proof.
  induction row as [|x row IH]; intros i d best Hrow Hin Ja Jb Hd Hlt.
  - simpl. destruct best as [[c cj] k]. unfold on_diagonal in *. lia.
  - destruct (skipn_cons_nth a i x row Hrow) as (Hi & Hrow' & Hlen).
    cbn [scan_rows]. unfold b2j_get.
    assert (Hd1 : on_diagonal (i + 1) best).
    { destruct best as [[c cj] k]. unfold on_diagonal in *. lia. }
    destruct (popular a x) eqn:Hx.
    + cbn [scan_row]. apply IH; auto.
      * intros j. destruct j; simpl; lia.
      * change (0%nat = run i). rewrite (run_unfold i). unfold kept.
        now rewrite Hi, Hx.
      * now replace (S i) with (i + 1)%nat by lia.
      * intros i' Hi'. destruct (Nat.eq_dec i' i) as [->|].
        -- rewrite run_unfold. unfold kept. rewrite Hi, Hx. simpl. lia.
        -- apply Hlt. lia.
    + pose proof (scan_row_diagonal i x d Hi Hx Ja Jb (positions_from 0 x a)
                    [] best (proj1 (positions_from_sorted 0 x a))
                    (positions_in_range x) Hd1 Hlt) as Hrowi.
      assert (Hini : In i (positions_from 0 x a)).
      { apply positions_from_in. exists i. now split. }
      specialize (Hrowi (or_introl Hini)). cbv zeta in Hrowi.
      destruct (scan_row 0 (length a) i d (positions_from 0 x a) [] best)
        as [new best'].
      cbn [fst snd] in Hrowi. destruct Hrowi as (R1 & R2 & R3).
      apply IH; auto.
      * intros [|j0]; [simpl; lia|].
        cbn [prev_len]. rewrite R3.
        destruct (existsb (Nat.eqb j0) (positions_from 0 x a)) eqn:Ex;
          [|simpl; lia].
        apply existsb_exists in Ex. destruct Ex as (j1 & Hj1 & E).
        apply Nat.eqb_eq in E. subst j1.
        destruct (positions_in_range x j0 Hj1) as [_ Hj0].
        rewrite <- Nat.succ_min_distr. cbn [prun].
        assert (Hm : nth_error a (Nat.min i j0) = Some x)
          by (destruct (Nat.min_spec i j0) as [[_ ->]|[_ ->]]; assumption).
        rewrite (kept_run _ x Hm Hx). specialize (Ja j0). lia.
      * cbn [prev_len]. rewrite R3.
        assert (Ex : existsb (Nat.eqb i) (positions_from 0 x a) = true).
        { apply existsb_exists. exists i. split; [exact Hini|].
          apply Nat.eqb_refl. }
        rewrite Ex, Jb. change (prun (S i)) with (run i).
        rewrite (kept_run i x Hi Hx). lia.
      * now replace (S i) with (i + 1)%nat by lia.
      * intros i' Hi'. apply R2. lia.
Qed.

Lemma same_at_diagonal i : (i < length a)%nat -> same_at a a i i = true.
Proof.
  intros H. unfold same_at.
  destruct (nth_error a i) as [x|] eqn:E.
  - apply Ascii.eqb_refl.
  - apply nth_error_None in E. lia.
Qed.

Lemma junk_at_false j : junk_at a j = false.
Proof. unfold junk_at. now destruct (nth_error a j). Qed.

Lemma extend_back_diagonal c :
  forall k,
    (c <= length a)%nat ->
    extend_back a a 0 0 false c c k = (0, 0, k + c)%nat.
Proof.
  induction c as [|c IH]; intros k Hc; simpl.
  - now rewrite Nat.add_0_r.
  - rewrite junk_at_false, same_at_diagonal by lia. simpl.
    rewrite IH by lia. f_equal. lia.
Qed.

Lemma extend_forward_diagonal fuel :
  forall k,
    (k + fuel = length a)%nat ->
    extend_forward a a (length a) (length a) false fuel 0 0 k = length a.
Proof.
  induction fuel as [|fuel IH]; intros k Hk; simpl; [lia|].
  assert (E : (k <? length a)%nat = true) by (apply Nat.ltb_lt; lia).
  rewrite E, junk_at_false, same_at_diagonal by lia. simpl.
  apply IH. lia.
Qed.

(** The longest match of a sequence with itself is the whole sequence. *)
Lemma find_longest_match_self :
  find_longest_match a a 0 (length a) 0 (length a) = (0, 0, length a)%nat.
Proof.
  unfold find_longest_match. rewrite firstn_all. cbn [skipn].
  pose proof (scan_rows_diagonal a 0%nat [] (0, 0, 0)%nat eq_refl
                (Nat.le_0_l _)) as H.
  assert (Hd : on_diagonal (length a)
                 (scan_rows a 0 (length a) a 0 [] (0, 0, 0)%nat)).
  { apply H.
    - intros j. destruct j; simpl; lia.
    - reflexivity.
    - unfold on_diagonal. lia.
    - intros i' Hi'. lia. }
  clear H.
  destruct (scan_rows a 0 (length a) a 0 [] (0, 0, 0)%nat) as [[c cj] k].
  unfold on_diagonal in Hd. destruct Hd as [<- Hck].
  rewrite extend_back_diagonal by lia.
  rewrite extend_forward_diagonal by lia.
  cbn [extend_back]. replace (length a - (0 + length a))%nat with 0%nat by lia.
  reflexivity.
Qed.

Lemma get_matching_blocks_self :
  list_sum (map match_size (get_matching_blocks a a)) = length a.
Proof.
  unfold get_matching_blocks, rounds.
  replace (2 * length a + 1)%nat with (S (2 * length a)) by lia.
  cbn [blocks_loop]. rewrite find_longest_match_self.
  destruct (length a) as [|n] eqn:E.
  - reflexivity.
  - cbn [Nat.eqb]. rewrite Nat.ltb_irrefl. cbn [andb].
    replace (0 + S n <? S n)%nat with false
      by (symmetry; apply Nat.ltb_irrefl).
    cbn [andb]. destruct (2 * S n)%nat; cbn; lia.
Qed.

Lemma ratio_self : (ratio a a == 1)%Q.
Proof.
  unfold ratio. rewrite get_matching_blocks_self.
  destruct (length a + length a =? 0)%nat eqn:E; [reflexivity|].
  apply Nat.eqb_neq in E.
  rewrite Nat2Z.inj_add, inject_Z_plus.
  assert (Hq : ~ (inject_Z (Z.of_nat (length a)) == 0)%Q).
  { unfold Qeq. simpl. lia. }
  field. intros H. apply Hq.
  assert (H2 : (2 * inject_Z (Z.of_nat (length a)) == 0)%Q)
    by (rewrite <- H; ring).
  apply Qmult_integral in H2. destruct H2 as [H2|H2]; [discriminate|exact H2].
Qed.

End Reflexive.


(** ** The ratio is a proportion

    A match found in [b[blo:bhi]] lies in that range as well, so the
    blocks of the work list share no element of either sequence, and their
    sizes add up to at most the length of the shorter one. *)

Lemma list_sum_permutation l l' :
  Permutation l l' -> list_sum l = list_sum l'.
Proof. induction 1; simpl; lia. Qed.

Section Proportion.
Variables a b : list ascii.

Definition within_b (blo bhi : nat) (m : Match) : Prop :=
  let '(_, j, k) := m in (blo <= j /\ j + k <= bhi)%nat.

Lemma prev_len_b d j blo :
  (blo <= j)%nat ->
  (forall j', j2len_get d j' <= j' + 1 - blo)%nat ->
  (prev_len d j <= j - blo)%nat.
Proof.
  intros Hj H. destruct j as [|j']; cbn [prev_len]; [lia|].
  specialize (H j'). lia.
Qed.

Lemma scan_row_bounds_b blo bhi i d js :
  (forall j, j2len_get d j <= j + 1 - blo)%nat ->
  forall acc best,
    (forall j, j2len_get acc j <= j + 1 - blo)%nat ->
    within_b blo bhi best ->
    (forall j,
       j2len_get (fst (scan_row blo bhi i d js acc best)) j
       <= j + 1 - blo)%nat /\
    within_b blo bhi (snd (scan_row blo bhi i d js acc best)).
Proof.
  intros Hd. induction js as [|j js IH]; intros acc best Hacc Hbest.
  - simpl. now split.
  - simpl. destruct (Nat.ltb_spec j blo) as [_|Hlo]; [now apply IH|].
    destruct (Nat.leb_spec bhi j) as [_|Hhi]; [simpl; now split|].
    pose proof (prev_len_b d j blo Hlo Hd) as Hp.
    destruct best as [[c cj] k]. apply IH.
    + intros j'. simpl.
      destruct (Nat.eqb_spec j j') as [<-|_]; [lia | apply Hacc].
    + destruct (k <? prev_len d j + 1)%nat; [|exact Hbest].
      unfold within_b. lia.
Qed.

Lemma scan_rows_bounds_b blo bhi row :
  forall i d best,
    (forall j, j2len_get d j <= j + 1 - blo)%nat ->
    within_b blo bhi best ->
    within_b blo bhi (scan_rows b blo bhi row i d best).
Proof.
  induction row as [|x row IH]; intros i d best Hd Hbest; simpl;
    [exact Hbest|].
  destruct (scan_row_bounds_b blo bhi i d (b2j_get b x) Hd [] best
              (fun _ => Nat.le_0_l _) Hbest) as [Hnew Hb].
  destruct (scan_row blo bhi i d (b2j_get b x) [] best) as [new best'].
  simpl in Hnew, Hb. now apply IH.
Qed.

Lemma extend_back_bounds_b alo blo junk c :
  forall cj k,
    (blo <= cj)%nat ->
    let '(_, cj', k') := extend_back a b alo blo junk c cj k in
    (blo <= cj' /\ cj' + k' = cj + k)%nat.
Proof.
  induction c as [|c IH]; intros cj k Hc; simpl; [now split|].
  destruct cj as [|cj]; [now split|].
  destruct ((alo <? S c)%nat && (blo <? S cj)%nat &&
            Bool.eqb (junk_at b cj) junk && same_at a b c cj) eqn:E;
    [|now split].
  rewrite !andb_true_iff in E. destruct E as [[[_ E] _] _].
  apply Nat.ltb_lt in E.
  specialize (IH cj (S k)).
  destruct (extend_back a b alo blo junk c cj (S k)) as [[c' cj'] k'].
  destruct IH; lia.
Qed.

Lemma extend_forward_bounds_b ahi bhi junk fuel c cj :
  forall k,
    (cj + k <= bhi)%nat ->
    (cj + extend_forward a b ahi bhi junk fuel c cj k <= bhi)%nat.
Proof.
  induction fuel as [|fuel IH]; intros k Hk; simpl; [exact Hk|].
  destruct ((c + k <? ahi)%nat && (cj + k <? bhi)%nat &&
            Bool.eqb (junk_at b (cj + k)) junk &&
            same_at a b (c + k) (cj + k)) eqn:E; [|exact Hk].
  rewrite !andb_true_iff in E. destruct E as [[[_ E] _] _].
  apply Nat.ltb_lt in E. apply IH. lia.
Qed.

Lemma find_longest_match_bounds_b alo ahi blo bhi :
  (blo <= bhi)%nat ->
  within_b blo bhi (find_longest_match a b alo ahi blo bhi).
Proof.
  intros Hle. unfold find_longest_match.
  pose proof (scan_rows_bounds_b blo bhi (skipn alo (firstn ahi a))
                alo [] (alo, blo, 0%nat) (fun _ => Nat.le_0_l _)) as H0.
  destruct (scan_rows b blo bhi (skipn alo (firstn ahi a)) alo []
              (alo, blo, 0%nat)) as [[i0 j0] k0].
  assert (H0' : (blo <= j0 /\ j0 + k0 <= bhi)%nat).
  { apply H0. unfold within_b. lia. }
  clear H0.
  pose proof (extend_back_bounds_b alo blo false i0 j0 k0 (proj1 H0')) as H1.
  destruct (extend_back a b alo blo false i0 j0 k0) as [[i1 j1] k1].
  pose proof (extend_forward_bounds_b ahi bhi false (ahi - (i1 + k1))
                i1 j1 k1 ltac:(lia)) as H2.
  pose proof (extend_back_bounds_b alo blo true i1 j1
                (extend_forward a b ahi bhi false (ahi - (i1 + k1)) i1 j1 k1)
                (proj1 H1)) as H3.
  destruct (extend_back a b alo blo true i1 j1
              (extend_forward a b ahi bhi false (ahi - (i1 + k1)) i1 j1 k1))
    as [[i3 j3] k3].
  pose proof (extend_forward_bounds_b ahi bhi true (ahi - (i3 + k3))
                i3 j3 k3 ltac:(lia)) as H4.
  unfold within_b. lia.
Qed.

Definition range_ok_both (r : Range) : Prop :=
  let '(alo, ahi, blo, bhi) := r in (alo <= ahi /\ blo <= bhi)%nat.

Definition span_a (r : Range) : nat :=
  let '(alo, ahi, _, _) := r in (ahi - alo)%nat.

Definition span_b (r : Range) : nat :=
  let '(_, _, blo, bhi) := r in (bhi - blo)%nat.

Definition total_size (blocks : list Match) : nat :=
  list_sum (map match_size blocks).

Lemma total_size_app l1 l2 :
  total_size (l1 ++ l2) = (total_size l1 + total_size l2)%nat.
Proof. unfold total_size. now rewrite map_app, list_sum_app. Qed.

Lemma blocks_loop_sum fuel :
  forall queue acc blocks,
    Forall range_ok_both queue ->
    blocks_loop a b fuel queue acc = Some blocks ->
    (total_size blocks <= total_size acc + list_sum (map span_a queue))%nat /\
    (total_size blocks <= total_size acc + list_sum (map span_b queue))%nat.
Proof.
  induction fuel as [|fuel IH]; intros queue acc blocks Hok Hrun.
  - destruct queue as [|[[[alo ahi] blo] bhi] queue]; simpl in Hrun;
      [|discriminate].
    injection Hrun as <-. simpl. lia.
  - destruct queue as [|[[[alo ahi] blo] bhi] queue]; simpl in Hrun.
    { injection Hrun as <-. simpl. lia. }
    inversion Hok as [|? ? Hr Hq]; subst. simpl in Hr. destruct Hr as [Ha Hb].
    pose proof (find_longest_match_bounds a b alo ahi blo bhi Ha) as Ba.
    pose proof (find_longest_match_bounds_b alo ahi blo bhi Hb) as Bb.
    destruct (find_longest_match a b alo ahi blo bhi) as [[i j] k].
    unfold within in Ba. unfold within_b in Bb.
    cbn [map span_a span_b].
    change (list_sum ((ahi - alo)%nat :: map span_a queue))
      with ((ahi - alo) + list_sum (map span_a queue))%nat.
    change (list_sum ((bhi - blo)%nat :: map span_b queue))
      with ((bhi - blo) + list_sum (map span_b queue))%nat.
    destruct (k =? 0)%nat eqn:Ek.
    { destruct (IH queue acc blocks Hq Hrun). lia. }
    apply IH in Hrun.
    + rewrite total_size_app in Hrun.
      destruct ((i + k <? ahi)%nat && (j + k <? bhi)%nat) eqn:E2;
        destruct ((alo <? i)%nat && (blo <? j)%nat) eqn:E1;
        unfold total_size, list_sum in *;
        cbn [map span_a span_b match_size snd fold_right] in Hrun; lia.
    + destruct ((i + k <? ahi)%nat && (j + k <? bhi)%nat) eqn:E2;
        destruct ((alo <? i)%nat && (blo <? j)%nat) eqn:E1;
        repeat (constructor; simpl); try exact Hq;
        rewrite ?andb_true_iff, ?Nat.ltb_lt in *; lia.
Qed.

Lemma collapse_sum blocks :
  forall cur acc,
    total_size (collapse blocks cur acc) =
    (total_size blocks + match_size cur + total_size acc)%nat.
Proof.
  induction blocks as [|[[i2 j2] k2] blocks IH]; intros [[i1 j1] k1] acc;
    cbn [collapse].
  - destruct (Nat.eqb_spec k1 0) as [->|_].
    + unfold total_size, match_size. simpl. lia.
    + rewrite total_size_app. unfold total_size, match_size. simpl. lia.
  - destruct ((i1 + k1 =? i2) && (j1 + k1 =? j2))%nat.
    + rewrite IH. unfold total_size, match_size. simpl. lia.
    + rewrite IH. destruct (Nat.eqb_spec k1 0) as [->|_].
      * unfold total_size, match_size. simpl. lia.
      * rewrite total_size_app. unfold total_size, match_size. simpl. lia.
Qed.

Lemma matches_bounded :
  (total_size (get_matching_blocks a b) <= length a)%nat /\
  (total_size (get_matching_blocks a b) <= length b)%nat.
Proof.
  unfold get_matching_blocks.
  destruct (blocks_loop a b (rounds a) [(0%nat, length a, 0%nat, length b)]
              []) as [blocks|] eqn:E; [|unfold total_size; simpl; lia].
  apply blocks_loop_sum in E; [|repeat constructor; simpl; lia].
  rewrite total_size_app, collapse_sum.
  assert (Hs : total_size (stable_sort match_leb blocks) = total_size blocks).
  { unfold total_size. apply list_sum_permutation.
    apply Permutation_map, stable_sort_perm. }
  rewrite Hs. unfold total_size in *. simpl in *. lia.
Qed.

(** [ratio()] lies between 0 and 1. *)
Lemma ratio_unit : (0 <= ratio a b)%Q /\ (ratio a b <= 1)%Q.
Proof.
  unfold ratio. destruct matches_bounded as [Ha Hb].
  unfold total_size in Ha, Hb.
  destruct (Nat.eqb_spec (length a + length b) 0) as [_|Hne];
    [split; discriminate|].
  assert (Hd : (0 < inject_Z (Z.of_nat (length a + length b)))%Q)
    by (unfold Qlt; simpl; lia).
  change 2%Q with (inject_Z 2). rewrite <- inject_Z_mult. split.
  - apply Qle_shift_div_l; [exact Hd|]. rewrite Qmult_0_l.
    change 0%Q with (inject_Z 0). rewrite <- Zle_Qle. lia.
  - apply Qle_shift_div_r; [exact Hd|]. rewrite Qmult_1_l.
    rewrite <- Zle_Qle. lia.
Qed.

End Proportion.

End difflib.

(** * src/sales_analyzer.py *)

Module sales_analyzer.

(** ** [classify_sales_messages] *)

Definition sales_keywords : list string :=
  [ "opportunity"; "position"; "role"; "job"; "hire"; "hiring"; "candidate";
    "application"; "applied"; "resume"; "cv"; "interview";
    "business"; "company"; "client"; "customer"; "service"; "services";
    "consulting"; "consultant"; "help"; "assist"; "solution";
    "revenue"; "growth"; "arr"; "saas"; "sales"; "marketing";
    "partner"; "partnership"; "collaborate"; "collaboration";
    "work together";
    "project"; "freelance"; "contract"; "contractor";
    "meeting"; "call"; "demo"; "presentation"; "discuss"; "chat";
    "schedule"; "available"; "time"; "calendar";
    "experience"; "expertise"; "skills"; "background"; "portfolio";
    "results"; "success"; "achieve"; "deliver"; "provide" ].

Definition business_patterns : list re.regex :=
  [ (* \$\d+[mk]?\s*(arr|revenue|million|thousand) *)
    re.seq [ re.lit "$"; re.plus re.digit; re.opt (re.char_in "mk");
             re.Star re.space;
             re.one_of ["arr"; "revenue"; "million"; "thousand"] ];
    (* \d+\+?\s*(years?|months?)\s*(experience|exp) *)
    re.seq [ re.plus re.digit; re.opt (re.lit "+"); re.Star re.space;
             re.Alt (re.Cat (re.lit "year") (re.opt (re.lit "s")))
                    (re.Cat (re.lit "month") (re.opt (re.lit "s")));
             re.Star re.space;
             re.one_of ["experience"; "exp"] ];
    (* (ceo|cto|founder|manager|director|lead) *)
    re.one_of ["ceo"; "cto"; "founder"; "manager"; "director"; "lead"];
    (* (startup|company|business|firm|agency) *)
    re.one_of ["startup"; "company"; "business"; "firm"; "agency"];
    (* b2b|saas|fintech|web3|crypto *)
    re.one_of ["b2b"; "saas"; "fintech"; "web3"; "crypto"] ].

Definition sales_questions : list re.regex :=
  [ (* are you (open|interested|available|looking) *)
    re.Cat (re.lit "are you ")
      (re.one_of ["open"; "interested"; "available"; "looking"]);
    (* would you (like|be interested|consider) *)
    re.Cat (re.lit "would you ")
      (re.one_of ["like"; "be interested"; "consider"]);
    (* do you (need|want|have|work) *)
    re.Cat (re.lit "do you ") (re.one_of ["need"; "want"; "have"; "work"]);
    (* what (are you|do you|is your) *)
    re.Cat (re.lit "what ") (re.one_of ["are you"; "do you"; "is your"]);
    (* how (many|much|long|do you) *)
    re.Cat (re.lit "how ") (re.one_of ["many"; "much"; "long"; "do you"]) ].

(** [sum(1 for x in xs if p(x))] *)
Definition sum_ones {A : Type} (p : A -> bool) (xs : list A) : Z :=
  fold_left (fun acc x => if p x then acc + 1 else acc) xs 0.

(** The score of a text that is already lowercased, lines 47-73. *)
Definition total_score (content_lower : string) : Q :=
  let sales_score :=
    sum_ones (fun keyword => contains keyword content_lower) sales_keywords in
  let pattern_matches :=
    sum_ones (fun pattern => re.search pattern content_lower)
      business_patterns in
  let question_matches :=
    sum_ones (fun pattern => re.search pattern content_lower)
      sales_questions in
  (inject_Z sales_score + inject_Z pattern_matches * 2 +
   inject_Z question_matches * 1.5)%Q.

(** Lines 17-75; [None] is a missing content ([pd.isna]). *)
Definition is_sales_message (content : option string) : bool :=
  match content with
  | None => false
  | Some c => Qle_bool 2 (total_score (lower c))
  end.

(** Lines 81-96. *)
Definition get_sales_type (content : option string) : string :=
  match content with
  | None => "other"
  | Some c =>
      let content_lower := lower c in
      if any_in ["job"; "position"; "role"; "hire"; "candidate";
                 "application"] content_lower
      then "job_seeking"
      else if any_in ["service"; "help"; "consulting"; "solution";
                      "provide"] content_lower
      then "service_offering"
      else if any_in ["partner"; "collaboration"; "work together";
                      "project"] content_lower
      then "partnership"
      else if any_in ["meeting"; "call"; "demo"; "schedule"; "available"]
                content_lower
      then "meeting_request"
      else "business_general"
  end.

Definition classify_row (m : Message) : Message :=
  let s := is_sales_message (Some (content m)) in
  set_sales s
    (if s then get_sales_type (Some (content m)) else "non_sales") m.

(** The two new columns.  (The progress line that follows divides by the
    number of rows; the pipeline comes here with at least one row.) *)
Definition classify_sales_messages (df : list Message) : list Message :=
  map classify_row df.

Example sales_plain_greeting : is_sales_message (Some "Hi Alice") = false.
Proof. vm_compute. reflexivity. Qed.

Example sales_two_keywords :
  is_sales_message (Some "New JOB opportunity") = true.
Proof. vm_compute. reflexivity. Qed.

Example sales_one_pattern :
  is_sales_message (Some "raised $5m ARR") = true.
Proof. vm_compute. reflexivity. Qed.

Example sales_question_only :
  is_sales_message (Some "would you like tea") = false.
Proof. vm_compute. reflexivity. Qed.

Example sales_experience_score :
  Qred (total_score "10+ years exp") = 2%Q.
Proof. vm_compute. reflexivity. Qed.

(** ** The score, said declaratively *)















(** ** [find_similar_sales_patterns] *)

(** [str.strip()]: white space leaves both ends. *)
Definition is_space (c : ascii) : bool :=
  let n := N_of_ascii c in
  N.eqb n 32 || (N.leb 9 n && N.leb n 13) || (N.leb 28 n && N.leb n 31).

Fixpoint lstrip_chars (s : list ascii) : list ascii :=
  match s with
  | [] => []
  | c :: s' => if is_space c then lstrip_chars s' else s
  end.

Definition strip (s : string) : string :=
  String.string_of_list_ascii
    (rev (lstrip_chars
            (rev (lstrip_chars (String.list_ascii_of_string s))))).

(** [str(content).lower().strip()] *)
Definition normalize (content : string) : string := strip (lower content).

(** The similarity that decides on group membership, lines 278-290. *)
Definition text_similarity (content1 content2 : string) : Q :=
  difflib.similarity (normalize content1) (normalize content2).

Example normalize_example : normalize "  Hello World " = "hello world".
Proof. reflexivity. Qed.

(** A row of [sales_messages].  On the first path it is a row of the
    performance table joined with the sales columns of the frame (null
    where the join finds no partner); on the fall-back path it is a row of
    the frame.  [row_id] is the index label under which the row is
    iterated. *)
Record SalesRow : Type := mkSalesRow {
  row_id : nat;
  s_content : string;
  s_got_response : bool;
  s_response_time_hours : option Q;
  s_sentiment_polarity : Q;
  s_message_length : Z;
  s_is_sales_message : option bool;
  s_sales_type : option string;
  s_contact_person : option string
}.

Fixpoint enumerate_from {A : Type} (i : nat) (l : list A)
  : list (nat * A) :=
  match l with
  | [] => []
  | x :: l' => (i, x) :: enumerate_from (S i) l'
  end.

Definition joined_row (p : outbound_analyzer.OutboundRecord)
  (partner : option (nat * Message)) : SalesRow :=
  {| row_id := match partner with Some (pos, _) => pos | None => 0%nat end;
     s_content := outbound_analyzer.content (outbound_analyzer.row p);
     s_got_response :=
       outbound_analyzer.got_response (outbound_analyzer.row p);
     s_response_time_hours :=
       outbound_analyzer.response_time_hours (outbound_analyzer.row p);
     s_sentiment_polarity :=
       outbound_analyzer.sentiment_polarity (outbound_analyzer.row p);
     s_message_length :=
       outbound_analyzer.message_length (outbound_analyzer.row p);
     s_is_sales_message :=
       option_map (fun pm => msg.is_sales_message (snd pm)) partner;
     s_sales_type := option_map (fun pm => msg.sales_type (snd pm)) partner;
     s_contact_person :=
       outbound_analyzer.contact_person (outbound_analyzer.row p) |}.

(** [outbound_performance_df.merge(df[[...]].reset_index(),
    left_index=True, right_on='index', how='left')]: the record at
    position [k] of the table is joined with the rows of the frame whose
    label is [k]; the result takes its index from the position of the
    partner in the frame. *)
Definition merge_sales (perf : list outbound_analyzer.OutboundRecord)
  (df : list Message) : list SalesRow :=
  flat_map
    (fun kp : nat * outbound_analyzer.OutboundRecord =>
       let '(k, p) := kp in
       match filter (fun pm : nat * Message => Nat.eqb (idx (snd pm)) k)
               (enumerate_from 0 df) with
       | [] => [joined_row p None]
       | partners => map (fun pm => joined_row p (Some pm)) partners
       end)
    (enumerate_from 0 perf).

(** The responses counted by hand on the fall-back path. *)
Definition has_response (df : list Message) (m : Message) : bool :=
  existsb
    (fun r =>
       in_thread thread_id (thread_id m) r &&
       ts_gt (timestamp r) (timestamp m) && is_inbound r)
    df.

Definition frame_row (df : list Message) (m : Message) : SalesRow :=
  {| row_id := idx m;
     s_content := content m;
     s_got_response := has_response df m;
     s_response_time_hours := response_time_hours m;
     s_sentiment_polarity := sentiment_polarity m;
     s_message_length := message_length m;
     s_is_sales_message := Some (msg.is_sales_message m);
     s_sales_type := Some (msg.sales_type m);
     s_contact_person := contact_person m |}.

(** The owner's messages, in threads the owner started, of the given
    sales class (fall-back path; the frame has unique labels). *)
Definition manual_rows (sales : bool) (df : list Message) : list SalesRow :=
  map (frame_row df)
    (filter
       (fun m =>
          Bool.eqb (msg.is_sales_message m) sales && is_outbound m &&
          is_outbound_initiated m)
       df).

Definition is_sales_row (r : SalesRow) : bool :=
  match s_is_sales_message r with
  | Some true => true
  | _ => false
  end.

Definition is_non_sales_row (r : SalesRow) : bool :=
  match s_is_sales_message r with
  | Some false => true
  | _ => false
  end.

(** Lines 232-265: the successful sales messages. *)
Definition successful_sales_messages (df : list Message)
  (outbound_performance_df : option (list outbound_analyzer.OutboundRecord))
  : list SalesRow :=
  match outbound_performance_df with
  | Some perf =>
      filter (fun r => is_sales_row r && s_got_response r)
        (merge_sales perf df)
  | None => filter s_got_response (manual_rows true df)
  end.

Record PatternGroup : Type := mkPatternGroup {
  pattern_preview : string;
  message_count : nat;
  response_rate : Q;
  avg_response_time : Q;
  avg_sentiment : Q;
  avg_length : Q;
  sales_types : list (option string);
  contacts : list (option string);
  example_messages : list string
}.

Definition Qsum (l : list Q) : Q := fold_left Qplus l 0%Q.

(** [np.mean] of a list that is not empty. *)
Definition np_mean (l : list Q) : Q :=
  (Qsum l / inject_Z (Z.of_nat (length l)))%Q.

Fixpoint notnull {A : Type} (l : list (option A)) : list A :=
  match l with
  | [] => []
  | Some x :: l' => x :: notnull l'
  | None :: l' => notnull l'
  end.

Definition string_length (s : string) : nat := String.length s.

(** Lines 299-311. *)
Definition group_data (current_content : string)
  (similar_messages : list SalesRow) : PatternGroup :=
  let response_times :=
    notnull (map s_response_time_hours similar_messages) in
  {| pattern_preview :=
       if (100 <? string_length current_content)%nat
       then String.append (String.substring 0 100 current_content) "..."
       else current_content;
     message_count := length similar_messages;
     response_rate := 1%Q;
     avg_response_time :=
       match response_times with
       | [] => 0%Q
       | _ :: _ => np_mean response_times
       end;
     avg_sentiment := np_mean (map s_sentiment_polarity similar_messages);
     avg_length :=
       np_mean
         (map (fun m => inject_Z (s_message_length m)) similar_messages);
     sales_types := map s_sales_type similar_messages;
     contacts := map s_contact_person similar_messages;
     example_messages := map s_content (firstn 3 similar_messages) |}.

Definition processed (id : nat) (processed_indices : list nat) : bool :=
  existsb (Nat.eqb id) processed_indices.

(** Lines 283-294: the scan for messages similar to the current one. *)
Fixpoint collect_similar (threshold : Q) (current_content : string)
  (rows : list SalesRow) (processed_indices : list nat)
  (similar_messages : list SalesRow) : list nat * list SalesRow :=
  match rows with
  | [] => (processed_indices, similar_messages)
  | msg2 :: rows' =>
      if processed (row_id msg2) processed_indices
      then collect_similar threshold current_content rows'
             processed_indices similar_messages
      else
        let other_content := normalize (s_content msg2) in
        if Qle_bool threshold
             (difflib.similarity current_content other_content)
        then collect_similar threshold current_content rows'
               (row_id msg2 :: processed_indices)
               (similar_messages ++ [msg2])
        else collect_similar threshold current_content rows'
               processed_indices similar_messages
  end.

(** Lines 274-313: the loop that opens the groups. *)
Fixpoint group_messages (threshold : Q) (sales_messages : list SalesRow)
  (rows : list SalesRow) (processed_indices : list nat)
  (message_groups : list PatternGroup) : list PatternGroup :=
  match rows with
  | [] => message_groups
  | msg :: rows' =>
      if processed (row_id msg) processed_indices
      then group_messages threshold sales_messages rows' processed_indices
             message_groups
      else
        let current_content := normalize (s_content msg) in
        let '(processed_indices', similar_messages) :=
          collect_similar threshold current_content sales_messages
            (row_id msg :: processed_indices) [msg] in
        group_messages threshold sales_messages rows' processed_indices'
          (if (2 <=? length similar_messages)%nat
           then message_groups ++
                [group_data current_content similar_messages]
           else message_groups)
  end.

(** Line 316: [sort(key=lambda x: (x['message_count'],
    -x['avg_response_time']), reverse=True)].  [key_ge x y] says that the
    key of [x] is not below the key of [y], so that [x] may come first. *)
Definition key_ge (x y : PatternGroup) : bool :=
  (message_count y <? message_count x)%nat ||
  ((message_count x =? message_count y)%nat &&
   Qle_bool (- avg_response_time y) (- avg_response_time x)).

Definition find_similar_sales_patterns (df : list Message)
  (outbound_performance_df : option (list outbound_analyzer.OutboundRecord))
  (similarity_threshold : Q) : list PatternGroup :=
  let sales_messages :=
    successful_sales_messages df outbound_performance_df in
  match sales_messages with
  | [] => []
  | _ :: _ =>
      stable_sort key_ge
        (group_messages similarity_threshold sales_messages sales_messages
           [] [])
  end.

(** The order of the report: more members first, and among groups of one
    size the one with the smaller average response time first. *)
Definition report_order (x y : PatternGroup) : Prop :=
  (message_count y < message_count x)%nat \/
  (message_count x = message_count y /\
   (avg_response_time x <= avg_response_time y)%Q).

Lemma key_ge_report_order x y : key_ge x y = true <-> report_order x y.
Proof.
  unfold key_ge, report_order.
  rewrite orb_true_iff, andb_true_iff, Nat.ltb_lt, Nat.eqb_eq,
    Qle_bool_iff.
  split; (intros [H|[H1 H2]]; [now left | right; split; [exact H1|]]).
  - now apply Qopp_le_compat in H2; rewrite !Qopp_involutive in H2.
  - now apply Qopp_le_compat.
Qed.

Lemma key_ge_total x y : key_ge x y = true \/ key_ge y x = true.
Proof.
  rewrite !key_ge_report_order. unfold report_order.
  destruct (Nat.lt_trichotomy (message_count x) (message_count y))
    as [H|[H|H]]; [right; now left| |left; now left].
  destruct (Qlt_le_dec (avg_response_time y) (avg_response_time x)) as [K|K].
  - right. right. split; [congruence|]. now apply Qlt_le_weak.
  - left. right. now split.
Qed.

Lemma key_ge_trans x y z :
  key_ge x y = true -> key_ge y z = true -> key_ge x z = true.
Proof.
  rewrite !key_ge_report_order. unfold report_order.
  intros [H1|[H1 H1']] [H2|[H2 H2']].
  - left. lia.
  - left. lia.
  - left. lia.
  - right. split; [congruence|]. now apply Qle_trans with (avg_response_time y).
Qed.

Lemma strongly_sorted_impl {A : Type} (R S : A -> A -> Prop) l :
  (forall x y, R x y -> S x y) -> StronglySorted R l -> StronglySorted S l.
Proof.
  intros H. induction 1 as [|x l Hs IH Hall]; constructor; auto.
  eapply Forall_impl; [|exact Hall]. intros y. apply H.
Qed.

(** C8, as amended.  The list of pattern groups is sorted by member count
    descending; groups of equal size come in ascending order of their
    average response time, the faster ones first. *)
Theorem patterns_sorted_by_count_then_faster
  (df : list Message)
  (outbound_performance_df : option (list outbound_analyzer.OutboundRecord))
  (similarity_threshold : Q) :
  StronglySorted report_order
    (find_similar_sales_patterns df outbound_performance_df
       similarity_threshold).
Proof.
  unfold find_similar_sales_patterns.
  destruct (successful_sales_messages df outbound_performance_df) as [|r rs];
    [constructor|].
  eapply strongly_sorted_impl;
    [|apply (stable_sort_sorted key_ge key_ge_total key_ge_trans)].
  intros x y H. now apply key_ge_report_order.
Qed.

(** C9, as amended.  The similarity is reflexive: a text compared with
    itself scores 1, on any string and so on any normalised content.
    (It is not symmetric; see [similarity_not_symmetric].) *)
Theorem similarity_reflexive (s : string) :
  (difflib.similarity s s == 1)%Q /\ (text_similarity s s == 1)%Q.
Proof.
  split; apply difflib.ratio_self.
Qed.

(** C9 as stated fails: the two orders of one pair of texts score
    differently. *)
Lemma similarity_not_symmetric :
  ~ (text_similarity "tide" "diet" == text_similarity "diet" "tide")%Q.
Proof. vm_compute. discriminate. Qed.


(** ** What the groups of [find_similar_sales_patterns] are *)

Lemma processed_spec id processed_indices :
  processed id processed_indices = true <-> In id processed_indices.
Proof.
  unfold processed. rewrite existsb_exists. split.
  - intros (x & Hx & E). apply Nat.eqb_eq in E. now subst.
  - intros H. exists id. split; [exact H | apply Nat.eqb_refl].
Qed.

Lemma collect_similar_inv threshold current_content rows :
  forall processed_indices similar_messages,
    NoDup processed_indices ->
    let '(processed_indices', similar_messages') :=
      collect_similar threshold current_content rows processed_indices
        similar_messages in
    NoDup processed_indices' /\
    (length processed_indices' + length similar_messages =
     length processed_indices + length similar_messages')%nat /\
    (forall id, In id processed_indices' ->
       In id processed_indices \/ In id (map row_id rows)).
Proof.
  induction rows as [|msg2 rows IH]; intros p s Hnd; cbn [collect_similar].
  - repeat split; auto.
  - destruct (processed (row_id msg2) p) eqn:Ep.
    + specialize (IH p s Hnd).
      destruct (collect_similar threshold current_content rows p s)
        as [p' s'].
      destruct IH as (H1 & H2 & H3). repeat split; auto.
      intros id Hid. destruct (H3 id Hid); [now left | right; now right].
    + assert (Hnotin : ~ In (row_id msg2) p).
      { intros K. apply processed_spec in K. congruence. }
      destruct (Qle_bool threshold
                  (difflib.similarity current_content
                     (normalize (s_content msg2)))).
      * assert (Hnd' : NoDup (row_id msg2 :: p)) by now constructor.
        specialize (IH (row_id msg2 :: p) (s ++ [msg2]) Hnd').
        destruct (collect_similar threshold current_content rows
                    (row_id msg2 :: p) (s ++ [msg2])) as [p' s'].
        destruct IH as (H1 & H2 & H3). repeat split; auto.
        -- rewrite length_app in H2. simpl in H2. lia.
        -- intros id Hid. destruct (H3 id Hid) as [[<-|K]|K].
           ++ right. now left.
           ++ now left.
           ++ right. now right.
      * specialize (IH p s Hnd).
        destruct (collect_similar threshold current_content rows p s)
          as [p' s'].
        destruct IH as (H1 & H2 & H3). repeat split; auto.
        intros id Hid. destruct (H3 id Hid); [now left | right; now right].
Qed.

(** What holds of every group, however it was filled. *)
Definition well_formed_group (g : PatternGroup) : Prop :=
  (2 <= message_count g)%nat /\
  response_rate g = 1%Q /\
  (length (example_messages g) <= 3)%nat /\
  length (sales_types g) = message_count g /\
  length (contacts g) = message_count g.

Lemma group_data_well_formed current_content similar_messages :
  (2 <= length similar_messages)%nat ->
  well_formed_group (group_data current_content similar_messages).
Proof.
  intros H. unfold well_formed_group, group_data.
  cbn [message_count response_rate example_messages sales_types contacts].
  rewrite !length_map, length_firstn. repeat split; auto; lia.
Qed.

Lemma group_messages_inv threshold sales_messages rows :
  forall processed_indices message_groups,
    incl (map row_id rows) (map row_id sales_messages) ->
    NoDup processed_indices ->
    incl processed_indices (map row_id sales_messages) ->
    (list_sum (map message_count message_groups)
     <= length processed_indices)%nat ->
    Forall well_formed_group message_groups ->
    let groups :=
      group_messages threshold sales_messages rows processed_indices
        message_groups in
    (list_sum (map message_count groups)
     <= length (map row_id sales_messages))%nat /\
    Forall well_formed_group groups.
Proof.
  induction rows as [|msg rows IH];
    intros p groups Hrows Hnd Hincl Hsum Hall; cbn [group_messages].
  - split; [|exact Hall].
    pose proof (NoDup_incl_length Hnd Hincl). lia.
  - assert (Hrows' : incl (map row_id rows) (map row_id sales_messages)).
    { intros x Hx. apply Hrows. now right. }
    destruct (processed (row_id msg) p) eqn:Ep.
    + now apply IH.
    + assert (Hnotin : ~ In (row_id msg) p).
      { intros K. apply processed_spec in K. congruence. }
      assert (Hnd' : NoDup (row_id msg :: p)) by now constructor.
      pose proof (collect_similar_inv threshold
                    (normalize (s_content msg)) sales_messages
                    (row_id msg :: p) [msg] Hnd') as Hc.
      destruct (collect_similar threshold (normalize (s_content msg))
                  sales_messages (row_id msg :: p) [msg]) as [p' s'].
      destruct Hc as (H1 & H2 & H3). simpl in H2.
      apply IH; auto.
      * intros id Hid. destruct (H3 id Hid) as [[<-|K]|K].
        -- apply Hrows. now left.
        -- now apply Hincl.
        -- exact K.
      * destruct (Nat.leb_spec 2 (length s')) as [Hge|Hlt].
        -- rewrite map_app, list_sum_app. simpl. lia.
        -- lia.
      * destruct (Nat.leb_spec 2 (length s')) as [Hge|Hlt]; [|exact Hall].
        apply Forall_app. split; [exact Hall|].
        constructor; [|constructor].
        now apply group_data_well_formed.
Qed.

(** Every reported pattern has at least two members, all of them
    answered, with at most three examples, and no message belongs to two
    patterns: the member counts add up to no more than the number of
    successful sales messages. *)
Theorem pattern_groups_share_no_message
  (df : list Message)
  (outbound_performance_df : option (list outbound_analyzer.OutboundRecord))
  (similarity_threshold : Q) :
  let groups :=
    find_similar_sales_patterns df outbound_performance_df
      similarity_threshold in
  Forall well_formed_group groups /\
  (list_sum (map message_count groups)
   <= length (successful_sales_messages df outbound_performance_df))%nat.
Proof.
  cbv zeta. unfold find_similar_sales_patterns.
  destruct (successful_sales_messages df outbound_performance_df)
    as [|r rs] eqn:E; [split; [constructor | simpl; lia]|].
  destruct (group_messages_inv similarity_threshold (r :: rs) (r :: rs)
              [] [] (incl_refl _) (NoDup_nil _)
              (fun x (H : In x []) => match H with end)
              (Nat.le_refl _) (Forall_nil _)) as [Hsum Hall].
  rewrite length_map in Hsum.
  pose proof (stable_sort_perm key_ge
                (group_messages similarity_threshold (r :: rs) (r :: rs)
                   [] [])) as Hperm.
  split.
  - apply Forall_forall. intros g Hg.
    rewrite Forall_forall in Hall. apply Hall.
    now apply (Permutation_in _ Hperm).
  - assert (Hs : list_sum
                   (map message_count
                      (stable_sort key_ge
                         (group_messages similarity_threshold (r :: rs)
                            (r :: rs) [] []))) =
                 list_sum
                   (map message_count
                      (group_messages similarity_threshold (r :: rs)
                         (r :: rs) [] []))).
    { apply direction.list_sum_perm, Permutation_map, Hperm. }
    rewrite Hs. exact Hsum.
Qed.

(** ** A run of the pipeline

    The owner opens four threads with two texts, each sent twice; the
    answers to the first text take five hours, the answers to the second
    one hour. *)

Definition hour : Z := 3600000000000.

Definition outreach : list Message :=
  [ analyzer.sample_message 0 "t1" "Owner" "Alice" (Some 0)
      "job opportunity for you" outbound;
    analyzer.sample_message 1 "t2" "Owner" "Bob" (Some 0)
      "job opportunity for you" outbound;
    analyzer.sample_message 2 "t3" "Owner" "Carol" (Some 0)
      "schedule a demo call" outbound;
    analyzer.sample_message 3 "t4" "Owner" "Dave" (Some 0)
      "schedule a demo call" outbound;
    analyzer.sample_message 4 "t1" "Alice" "Owner" (Some (5 * hour))
      "ok" inbound;
    analyzer.sample_message 5 "t2" "Bob" "Owner" (Some (5 * hour))
      "ok" inbound;
    analyzer.sample_message 6 "t3" "Carol" "Owner" (Some (1 * hour))
      "ok" inbound;
    analyzer.sample_message 7 "t4" "Dave" "Owner" (Some (1 * hour))
      "ok" inbound ].

Definition outreach_analyzed : list Message :=
  Eval vm_compute in
    match analyzer.detect_replies_and_response_times outreach with
    | inr out => out
    | inl _ => []
    end.

Definition outreach_performance : list outbound_analyzer.OutboundRecord :=
  Eval vm_compute in
    match outbound_analyzer.analyze_outbound_performance outreach_analyzed
    with
    | inr table => table
    | inl _ => []
    end.

Definition outreach_classified : list Message :=
  Eval vm_compute in classify_sales_messages outreach_analyzed.

Example outreach_pipeline :
  analyzer.detect_replies_and_response_times outreach
    = inr outreach_analyzed /\
  outbound_analyzer.analyze_outbound_performance outreach_analyzed
    = inr outreach_performance /\
  map (fun m => (idx m, msg.is_sales_message m, msg.sales_type m))
    outreach_classified =
  [ (0%nat, true, "job_seeking"); (4%nat, false, "non_sales");
    (1%nat, true, "job_seeking"); (5%nat, false, "non_sales");
    (2%nat, true, "meeting_request"); (6%nat, false, "non_sales");
    (3%nat, true, "meeting_request"); (7%nat, false, "non_sales") ].
Proof. repeat split; vm_compute; reflexivity. Qed.

Definition outreach_patterns : list PatternGroup :=
  Eval vm_compute in
    find_similar_sales_patterns outreach_classified
      (Some outreach_performance) 0.6.

Example outreach_patterns_columns :
  map (fun g => (pattern_preview g, message_count g,
                 Qred (avg_response_time g)))
    outreach_patterns =
  [ ("schedule a demo call", 2%nat, 1%Q);
    ("job opportunity for you", 2%nat, 5%Q) ].
Proof. vm_compute. reflexivity. Qed.

(** C8 as stated fails: of two groups of one size, the one that was
    answered faster comes first. *)
Lemma faster_group_comes_first :
  exists g1 g2,
    find_similar_sales_patterns outreach_classified
      (Some outreach_performance) 0.6 = [g1; g2] /\
    message_count g1 = message_count g2 /\
    (avg_response_time g1 < avg_response_time g2)%Q.
Proof.
  assert (E : find_similar_sales_patterns outreach_classified
                (Some outreach_performance) 0.6 = outreach_patterns)
    by (vm_compute; reflexivity).
  rewrite E. unfold outreach_patterns.
  eexists _, _. split; [reflexivity|]. split; vm_compute; reflexivity.
Qed.

(** ** [analyze_sales_performance] *)

Record TypePerformance : Type := mkTypePerformance {
  total_sent : nat;
  got_response : nat;
  type_response_rate : Q;
  avg_response_time_hours : option Q;
  type_avg_sentiment : Q;
  type_avg_length : Q
}.

(** The dictionary [overall_stats]. *)
Record SalesPerformance : Type := mkSalesPerformance {
  sales_total_messages : nat;
  sales_responses : nat;
  sales_response_rate : Q;
  non_sales_total_messages : nat;
  non_sales_responses : nat;
  non_sales_response_rate : Q;
  sales_performance_by_type : list (string * TypePerformance)
}.

Definition count_responses (rows : list SalesRow) : nat :=
  length (filter s_got_response rows).

(** The mean of a boolean column that is not empty. *)
Definition bool_mean (rows : list SalesRow) : Q :=
  (inject_Z (Z.of_nat (count_responses rows)) /
   inject_Z (Z.of_nat (length rows)))%Q.

(** [Series.mean()] skips null cells and is NaN when none is left. *)
Definition series_mean (cells : list (option Q)) : option Q :=
  match notnull cells with
  | [] => None
  | x :: xs => Some (np_mean (x :: xs))
  end.

Definition has_type (ty : string) (r : SalesRow) : bool :=
  match s_sales_type r with
  | Some t => String.eqb t ty
  | None => false
  end.

(** Lines 159-179. *)
Definition type_performance (sales_messages : list SalesRow) (ty : string)
  : TypePerformance :=
  let type_messages := filter (has_type ty) sales_messages in
  let sent := length type_messages in
  let responded_messages := filter s_got_response type_messages in
  {| total_sent := sent;
     got_response := length responded_messages;
     type_response_rate :=
       if (0 <? sent)%nat
       then (inject_Z (Z.of_nat (length responded_messages)) /
             inject_Z (Z.of_nat sent))%Q
       else 0%Q;
     avg_response_time_hours :=
       match responded_messages with
       | [] => Some 0%Q
       | _ :: _ =>
           series_mean (map s_response_time_hours responded_messages)
       end;
     type_avg_sentiment := np_mean (map s_sentiment_polarity type_messages);
     type_avg_length :=
       np_mean (map (fun m => inject_Z (s_message_length m)) type_messages)
  |}.

(** [None] is the empty dictionary. *)
Definition analyze_sales_performance (df : list Message)
  (outbound_performance_df : option (list outbound_analyzer.OutboundRecord))
  : option SalesPerformance :=
  let sales_messages :=
    match outbound_performance_df with
    | Some perf => filter is_sales_row (merge_sales perf df)
    | None => manual_rows true df
    end in
  match sales_messages with
  | [] => None
  | _ :: _ =>
      let types :=
        filter (fun ty => negb (String.eqb ty "non_sales"))
          (analyzer.unique (notnull (map s_sales_type sales_messages))) in
      let non_sales_messages :=
        match outbound_performance_df with
        | Some perf => filter is_non_sales_row (merge_sales perf df)
        | None => manual_rows false df
        end in
      Some
        {| sales_total_messages := length sales_messages;
           sales_responses := count_responses sales_messages;
           sales_response_rate := bool_mean sales_messages;
           non_sales_total_messages := length non_sales_messages;
           non_sales_responses :=
             match non_sales_messages with
             | [] => 0%nat
             | _ :: _ => count_responses non_sales_messages
             end;
           non_sales_response_rate :=
             match non_sales_messages with
             | [] => 0%Q
             | _ :: _ => bool_mean non_sales_messages
             end;
           sales_performance_by_type :=
             map (fun ty => (ty, type_performance sales_messages ty)) types
        |}
  end.

(** ** [get_sales_insights] *)

(** The recommendations, by what they say rather than by their text. *)
Inductive Recommendation : Type :=
| SalesPerformBetter (percent : Q)
| ConsiderMoreCasual
| FocusOnType (best_type : string)
| ReuseTopPattern (times : nat).

Record Insights : Type := mkInsights {
  total_sales_messages : nat;
  insight_sales_response_rate : Q;
  insight_non_sales_response_rate : Q;
  sales_vs_non_sales_lift : Q;
  best_performing_sales_type : option string;
  worst_performing_sales_type : option string;
  most_common_patterns : nat;
  top_sales_recommendations : list Recommendation
}.

(** [x / y] on Python numbers raises on a zero divisor.  (On numpy
    scalars the same division gives [inf] and a warning; in neither case
    is there a finite quotient.) *)
Definition true_div (x y : Q) : result Q :=
  if Qeq_bool y 0 then raise ZeroDivisionError else ret (x / y)%Q.

Definition Qlt_bool (x y : Q) : bool := negb (Qle_bool y x).

(** [sort(key=lambda x: x[1], reverse=True)] *)
Definition rate_ge (x y : string * Q) : bool := Qle_bool (snd y) (snd x).

Definition get_sales_insights (df : list Message)
  (sales_performance : option SalesPerformance)
  (sales_patterns : list PatternGroup) : result (option Insights) :=
  match sales_performance with
  | None => ret None
  | Some sp =>
      let sales_rate := sales_response_rate sp in
      let non_sales_rate := non_sales_response_rate sp in
      (* lines 343-344 *)
      lift <-
        (if Qlt_bool 0 non_sales_rate
         then true_div (sales_rate - non_sales_rate) non_sales_rate
         else ret 0%Q) ;;
      (* lines 347-354 *)
      let type_performance :=
        stable_sort rate_ge
          (map (fun kv => (fst kv, type_response_rate (snd kv)))
             (filter (fun kv => (3 <=? total_sent (snd kv))%nat)
                (sales_performance_by_type sp))) in
      let best := option_map fst (hd_error type_performance) in
      let worst := option_map fst (hd_error (rev type_performance)) in
      (* lines 359-362 *)
      first <-
        (if Qlt_bool non_sales_rate sales_rate
         then q <- true_div sales_rate non_sales_rate ;;
              ret (SalesPerformBetter ((q - 1) * 100)%Q)
         else ret ConsiderMoreCasual) ;;
      let focus :=
        match best with
        | Some ty => if String.eqb ty "" then [] else [FocusOnType ty]
        | None => []
        end in
      let reuse :=
        match sales_patterns with
        | top_pattern :: _ => [ReuseTopPattern (message_count top_pattern)]
        | [] => []
        end in
      ret (Some
             {| total_sales_messages := sales_total_messages sp;
                insight_sales_response_rate := sales_rate;
                insight_non_sales_response_rate := non_sales_rate;
                sales_vs_non_sales_lift := lift;
                best_performing_sales_type := best;
                worst_performing_sales_type := worst;
                most_common_patterns := length sales_patterns;
                top_sales_recommendations := first :: focus ++ reuse |})
  end.

(** The lift is guarded: it falls back to 0 on a zero rate. *)
Lemma lift_guarded (sales_rate non_sales_rate : Q) :
  exists lift,
    (if Qlt_bool 0 non_sales_rate
     then true_div (sales_rate - non_sales_rate) non_sales_rate
     else ret 0%Q) = inr lift /\
    ((non_sales_rate == 0)%Q -> lift = 0%Q).
Proof.
  unfold Qlt_bool, true_div.
  destruct (Qle_bool non_sales_rate 0) eqn:E; simpl.
  - exists 0%Q. now split.
  - destruct (Qeq_bool non_sales_rate 0) eqn:E0.
    + apply Qeq_bool_iff in E0. exfalso.
      assert (K : Qle_bool non_sales_rate 0 = true)
        by (apply Qle_bool_iff; rewrite E0; apply Qle_refl).
      congruence.
    + eexists. split; [reflexivity|]. intros H.
      apply Qeq_bool_iff in H. congruence.
Qed.

(** The recommendation is not: with a zero rate for the other messages
    and any response to a sales message, the division raises. *)
Lemma recommendation_divides_by_zero df sp sales_patterns :
  (non_sales_response_rate sp == 0)%Q ->
  (0 < sales_response_rate sp)%Q ->
  get_sales_insights df (Some sp) sales_patterns = inl ZeroDivisionError.
Proof.
  intros H0 Hpos. unfold get_sales_insights.
  destruct (lift_guarded (sales_response_rate sp)
              (non_sales_response_rate sp)) as (lift & -> & _).
  cbn [bind].
  assert (Hlt : Qlt_bool (non_sales_response_rate sp)
                  (sales_response_rate sp) = true).
  { unfold Qlt_bool. apply negb_true_iff.
    destruct (Qle_bool (sales_response_rate sp)
                (non_sales_response_rate sp)) eqn:E; [|reflexivity].
    apply Qle_bool_iff in E. rewrite H0 in E.
    exfalso. exact (Qlt_not_le _ _ Hpos E). }
  rewrite Hlt. unfold true_div.
  assert (Hz : Qeq_bool (non_sales_response_rate sp) 0 = true)
    by now apply Qeq_bool_iff.
  rewrite Hz. reflexivity.
Qed.

Definition outreach_sales_performance : option SalesPerformance :=
  Eval vm_compute in
    analyze_sales_performance outreach_classified
      (Some outreach_performance).

Example outreach_sales_performance_rates :
  option_map
    (fun sp => (sales_total_messages sp, Qred (sales_response_rate sp),
                non_sales_total_messages sp, non_sales_response_rate sp))
    outreach_sales_performance =
  Some (4%nat, 1%Q, 0%nat, 0%Q).
Proof. vm_compute. reflexivity. Qed.




(** ** The similarity threshold *)

Lemma collect_similar_none threshold current_content rows :
  (forall other,
     Qle_bool threshold (difflib.similarity current_content other) = false) ->
  forall processed_indices similar_messages,
    collect_similar threshold current_content rows processed_indices
      similar_messages = (processed_indices, similar_messages).
Proof.
  intros Hnone. induction rows as [|msg2 rows IH]; intros p s;
    cbn [collect_similar]; [reflexivity|].
  rewrite Hnone. destruct (processed (row_id msg2) p); apply IH.
Qed.

Lemma group_messages_none threshold sales_messages rows :
  (forall current other,
     Qle_bool threshold (difflib.similarity current other) = false) ->
  forall processed_indices message_groups,
    group_messages threshold sales_messages rows processed_indices
      message_groups = message_groups.
Proof.
  intros Hnone. induction rows as [|msg rows IH]; intros p groups;
    cbn [group_messages]; [reflexivity|].
  destruct (processed (row_id msg) p); [apply IH|].
  rewrite collect_similar_none by apply Hnone.
  cbn [length Nat.leb]. apply IH.
Qed.

(** The similarity of two contents is a proportion, between 0 and 1.  So a
    threshold above 1 is met by no pair of messages, not even by a message
    and its copy, and the pattern list is then empty. *)
Theorem similarity_is_a_proportion :
  (forall content1 content2,
     (0 <= text_similarity content1 content2)%Q /\
     (text_similarity content1 content2 <= 1)%Q) /\
  (forall df outbound_performance_df similarity_threshold,
     (1 < similarity_threshold)%Q ->
     find_similar_sales_patterns df outbound_performance_df
       similarity_threshold = []).
Proof.
  split.
  - intros c1 c2. apply difflib.ratio_unit.
  - intros df perf threshold Hlt. unfold find_similar_sales_patterns.
    destruct (successful_sales_messages df perf) as [|r rs]; [reflexivity|].
    rewrite group_messages_none; [reflexivity|].
    intros current other.
    destruct (Qle_bool threshold (difflib.similarity current other)) eqn:E;
      [|reflexivity].
    apply Qle_bool_iff in E. exfalso.
    destruct (difflib.ratio_unit (String.list_ascii_of_string current)
                (String.list_ascii_of_string other)) as [_ H1].
    apply (Qlt_not_le _ _ Hlt). eapply Qle_trans; [exact E | exact H1].
Qed.

Lemma similarity_is_a_proportion_witness :
  find_similar_sales_patterns outreach_classified (Some outreach_performance)
    2 = [].
Proof.
  apply (proj2 similarity_is_a_proportion). reflexivity.
Defined.

(** ** What [analyze_sales_performance] reports *)

(** The rows the report is about, lines 119-147. *)
Definition sales_rows (df : list Message)
  (outbound_performance_df : option (list outbound_analyzer.OutboundRecord))
  : list SalesRow :=
  match outbound_performance_df with
  | Some perf => filter is_sales_row (merge_sales perf df)
  | None => manual_rows true df
  end.

Lemma has_type_eq ty r : has_type ty r = true <-> s_sales_type r = Some ty.
Proof.
  unfold has_type. destruct (s_sales_type r) as [t|].
  - rewrite String.eqb_eq. split; congruence.
  - split; discriminate.
Qed.

Lemma count_by_type (rows : list SalesRow) tys :
  NoDup tys ->
  list_sum (map (fun ty => length (filter (has_type ty) rows)) tys) =
  length (filter (fun r => existsb (fun ty => has_type ty r) tys) rows).
Proof.
  induction tys as [|ty tys IH]; intros Hnd.
  - simpl. induction rows as [|r rows IHr]; simpl; [reflexivity | exact IHr].
  - inversion Hnd as [|? ? Hnotin Hnd']; subst.
    cbn [map].
    match goal with
    | |- context [list_sum (?x :: ?l)] =>
        change (list_sum (x :: l)) with (x + list_sum l)%nat
    end.
    rewrite IH by assumption. clear IH.
    induction rows as [|r rows IHr]; [reflexivity|].
    cbn [filter existsb] in IHr |- *.
    destruct (has_type ty r) eqn:E.
    + assert (Hother : existsb (fun ty' => has_type ty' r) tys = false).
      { apply not_true_is_false. intros K. apply existsb_exists in K.
        destruct K as (ty' & Hin & E'). apply has_type_eq in E, E'.
        apply Hnotin. congruence. }
      rewrite Hother. cbn [orb length]. lia.
    + cbn [orb].
      destruct (existsb (fun ty' => has_type ty' r) tys);
        cbn [length]; lia.
Qed.

Lemma notnull_in {A : Type} (cells : list (option A)) x :
  In x (notnull cells) <-> In (Some x) cells.
Proof.
  induction cells as [|[y|] cells IH]; simpl.
  - tauto.
  - rewrite IH. split; (intros [H|H]; [left; congruence | now right]).
  - rewrite IH. split; [now right | intros [H|H]; [discriminate | exact H]].
Qed.

Lemma proportion_unit (part whole : nat) :
  (part <= whole)%nat -> (0 < whole)%nat ->
  (0 <= inject_Z (Z.of_nat part) / inject_Z (Z.of_nat whole))%Q /\
  (inject_Z (Z.of_nat part) / inject_Z (Z.of_nat whole) <= 1)%Q.
Proof.
  intros Hle Hpos.
  assert (Hd : (0 < inject_Z (Z.of_nat whole))%Q) by (unfold Qlt; simpl; lia).
  split.
  - apply Qle_shift_div_l; [exact Hd|]. rewrite Qmult_0_l.
    unfold Qle. simpl. lia.
  - apply Qle_shift_div_r; [exact Hd|]. rewrite Qmult_1_l.
    unfold Qle. simpl. lia.
Qed.

Definition well_formed_type (rows : list SalesRow)
  (kv : string * TypePerformance) : Prop :=
  fst kv <> "non_sales" /\
  (1 <= total_sent (snd kv))%nat /\
  (got_response (snd kv) <= total_sent (snd kv))%nat /\
  (0 <= type_response_rate (snd kv))%Q /\
  (type_response_rate (snd kv) <= 1)%Q.

(** The report is empty exactly when there is no sales row.  Otherwise its
    counts fit together: responses never exceed messages and both rates are
    proportions; each sales type is listed once, never [non_sales], with at
    least one message sent, and the types together account for no more
    messages than there are sales rows. *)
Theorem sales_performance_counts
  (df : list Message)
  (outbound_performance_df : option (list outbound_analyzer.OutboundRecord)) :
  match analyze_sales_performance df outbound_performance_df with
  | None => sales_rows df outbound_performance_df = []
  | Some sp =>
      sales_total_messages sp =
        length (sales_rows df outbound_performance_df) /\
      (0 < sales_total_messages sp)%nat /\
      (sales_responses sp <= sales_total_messages sp)%nat /\
      (0 <= sales_response_rate sp)%Q /\ (sales_response_rate sp <= 1)%Q /\
      (non_sales_responses sp <= non_sales_total_messages sp)%nat /\
      (0 <= non_sales_response_rate sp)%Q /\
      (non_sales_response_rate sp <= 1)%Q /\
      NoDup (map fst (sales_performance_by_type sp)) /\
      Forall (well_formed_type (sales_rows df outbound_performance_df))
        (sales_performance_by_type sp) /\
      (list_sum (map (fun kv => total_sent (snd kv))
                   (sales_performance_by_type sp))
       <= sales_total_messages sp)%nat
  end.
Proof.
  unfold analyze_sales_performance.
  fold (sales_rows df outbound_performance_df).
  set (rows := sales_rows df outbound_performance_df).
  set (others := match outbound_performance_df with
                 | Some perf => filter is_non_sales_row (merge_sales perf df)
                 | None => manual_rows false df
                 end).
  destruct rows as [|r rs] eqn:E; [reflexivity|]. rewrite <- E.
  assert (Hpos : (0 < length rows)%nat) by (rewrite E; simpl; lia).
  clearbody rows. clear E r rs.
  cbn [sales_total_messages sales_responses sales_response_rate
         non_sales_responses non_sales_total_messages
         non_sales_response_rate sales_performance_by_type].
  pose proof (filter_length_le s_got_response rows) as Hresp.
  destruct (proportion_unit _ _ Hresp Hpos) as [R1 R2].
  set (types := filter (fun ty => negb (String.eqb ty "non_sales"))
                  (analyzer.unique (notnull (map s_sales_type rows)))).
  assert (Hnd : NoDup types)
    by (apply NoDup_filter, analyzer.unique_nodup).
  split; [reflexivity|]. split; [exact Hpos|].
  split; [exact Hresp|]. split; [exact R1|]. split; [exact R2|].
  split; [|split; [|split]].
  - destruct others; [lia | apply filter_length_le].
  - destruct others as [|o os] eqn:Eo; [apply Qle_refl|]. rewrite <- Eo.
    apply proportion_unit; [apply filter_length_le|].
    rewrite Eo. simpl. lia.
  - destruct others as [|o os] eqn:Eo; [discriminate|]. rewrite <- Eo.
    apply proportion_unit; [apply filter_length_le|].
    rewrite Eo. simpl. lia.
  - split; [|split].
    + rewrite map_map. simpl. now rewrite map_id.
    + apply Forall_forall. intros kv Hkv. apply in_map_iff in Hkv.
      destruct Hkv as (ty & <- & Hty). unfold types in Hty.
      apply filter_In in Hty. destruct Hty as [Hty Hns].
      apply analyzer.unique_in, notnull_in, in_map_iff in Hty.
      destruct Hty as (r & Er & Hr).
      assert (Hin : In r (filter (has_type ty) rows)).
      { apply filter_In. split; [exact Hr | now apply has_type_eq]. }
      assert (Hsent : (1 <= length (filter (has_type ty) rows))%nat).
      { destruct (filter (has_type ty) rows); [inversion Hin | simpl; lia]. }
      unfold well_formed_type, type_performance.
      cbn [fst snd total_sent got_response type_response_rate].
      pose proof (filter_length_le s_got_response
                    (filter (has_type ty) rows)) as Hle.
      split.
      { apply negb_true_iff in Hns. now apply String.eqb_neq. }
      split; [exact Hsent|]. split; [exact Hle|].
      destruct (Nat.ltb_spec 0 (length (filter (has_type ty) rows)));
        [|lia].
      now apply proportion_unit.
    + rewrite map_map. cbn [snd total_sent type_performance].
      rewrite count_by_type by exact Hnd. apply filter_length_le.
Qed.

(** ** When [get_sales_insights] fails *)








End sales_analyzer.


(** * src/outbound_analyzer.py: [get_message_templates]

    The function stands here because it needs [strip].  Of its result only
    the table of templates is modelled; the opening and greeting counts
    that it computes on the way are not returned. *)

Module outbound_templates.

Record Template : Type := mkTemplate {
  template_preview : string;
  usage_count : nat;
  response_rate : Q;
  avg_response_time : option Q;
  avg_sentiment : option Q;
  avg_length : option Q;
  example_full_message : string
}.

(** [str(x)[:30].lower().strip()] *)
Definition template_key (r : outbound_analyzer.OutboundRecord) : string :=
  sales_analyzer.strip
    (lower (String.substring 0 30
              (outbound_analyzer.content (outbound_analyzer.row r)))).

Definition answered (r : outbound_analyzer.OutboundRecord) : bool :=
  outbound_analyzer.got_response (outbound_analyzer.row r).

Definition in_group (k : string) (r : outbound_analyzer.OutboundRecord)
  : bool :=
  String.eqb (template_key r) k.

(** Lines 208-216, for the group of one key. *)
Definition template (k : string)
  (group : list outbound_analyzer.OutboundRecord) : Template :=
  {| template_preview := k;
     usage_count := length group;
     response_rate :=
       (inject_Z (Z.of_nat (length (filter answered group))) /
        inject_Z (Z.of_nat (length group)))%Q;
     avg_response_time :=
       analyzer.mean (outbound_analyzer.response_times group);
     avg_sentiment :=
       analyzer.mean
         (map (fun r => outbound_analyzer.sentiment_polarity
                          (outbound_analyzer.row r)) group);
     avg_length :=
       analyzer.mean
         (map (fun r => inject_Z (outbound_analyzer.message_length
                                    (outbound_analyzer.row r))) group);
     example_full_message :=
       match group with
       | r :: _ => outbound_analyzer.content (outbound_analyzer.row r)
       | [] => ""
       end |}.

(** The loop over the groups, lines 206-216. *)
Definition template_rows (min_occurrences : nat)
  (successful_messages : list outbound_analyzer.OutboundRecord)
  (keys : list string) : list Template :=
  flat_map
    (fun k =>
       let group := filter (in_group k) successful_messages in
       if (min_occurrences <=? length group)%nat then [template k group]
       else [])
    keys.

(** [sort_values(['response_rate', 'usage_count'],
    ascending=[False, False])] *)
Definition template_order (x y : Template) : bool :=
  negb (Qle_bool (response_rate x) (response_rate y)) ||
  (Qeq_bool (response_rate x) (response_rate y) &&
   (usage_count y <=? usage_count x)%nat).

(** Lines 161-222.  [groupby] visits the keys in sorted order; an empty
    frame is the empty list. *)
Definition get_message_templates
  (outbound_df : list outbound_analyzer.OutboundRecord)
  (min_occurrences : nat) : list Template :=
  let successful_messages := filter answered outbound_df in
  match successful_messages with
  | [] => []
  | _ :: _ =>
      let keys :=
        stable_sort String.leb
          (analyzer.unique (map template_key successful_messages)) in
      match template_rows min_occurrences successful_messages keys with
      | [] => []
      | templates => stable_sort template_order templates
      end
  end.

Definition ranks_before (x y : Template) : Prop :=
  (response_rate y < response_rate x)%Q \/
  ((response_rate x == response_rate y)%Q /\
   (usage_count y <= usage_count x)%nat).

Lemma template_order_spec x y :
  template_order x y = true <-> ranks_before x y.
Proof.
  unfold template_order, ranks_before.
  rewrite orb_true_iff, andb_true_iff, negb_true_iff, Qeq_bool_iff,
    Nat.leb_le.
  split; (intros [H|H]; [left | now right]).
  - apply Qnot_le_lt. intros K. apply Qle_bool_iff in K. congruence.
  - apply not_true_is_false. intros K. apply Qle_bool_iff in K.
    exact (Qlt_not_le _ _ H K).
Qed.

Lemma template_order_total x y :
  template_order x y = true \/ template_order y x = true.
Proof.
  rewrite !template_order_spec. unfold ranks_before.
  destruct (Q_dec (response_rate x) (response_rate y)) as [[H|H]|H].
  - right. now left.
  - left. now left.
  - destruct (Nat.le_ge_cases (usage_count x) (usage_count y)).
    + right. right. split; [now symmetry | assumption].
    + left. right. now split.
Qed.

Lemma template_order_trans x y z :
  template_order x y = true -> template_order y z = true ->
  template_order x z = true.
Proof.
  rewrite !template_order_spec. unfold ranks_before.
  intros [H1|[H1 H1']] [H2|[H2 H2']].
  - left. now apply Qlt_trans with (response_rate y).
  - left. now rewrite <- H2.
  - left. now rewrite H1.
  - right. split; [now rewrite H1 | lia].
Qed.

Lemma template_rows_in min_occurrences successful_messages keys t :
  In t (template_rows min_occurrences successful_messages keys) <->
  exists k,
    In k keys /\
    (min_occurrences <= length (filter (in_group k) successful_messages))%nat
    /\ t = template k (filter (in_group k) successful_messages).
Proof.
  unfold template_rows. rewrite in_flat_map. split.
  - intros (k & Hk & Ht). exists k. split; [exact Hk|].
    destruct (Nat.leb_spec min_occurrences
                (length (filter (in_group k) successful_messages)));
      [|inversion Ht].
    destruct Ht as [<-|[]]. now split.
  - intros (k & Hk & Hmin & ->). exists k. split; [exact Hk|].
    apply Nat.leb_le in Hmin. rewrite Hmin. now left.
Qed.

Lemma template_rows_usage min_occurrences successful_messages keys :
  (list_sum
     (map usage_count
        (template_rows min_occurrences successful_messages keys))
   <= list_sum
        (map (fun k => length (filter (in_group k) successful_messages))
           keys))%nat.
Proof.
  induction keys as [|k keys IH]; [simpl; lia|].
  unfold template_rows in *. cbn [flat_map map].
  rewrite map_app, list_sum_app.
  match goal with
  | |- context [list_sum (?x :: map ?f keys)] =>
      change (list_sum (x :: map f keys)) with (x + list_sum (map f keys))%nat
  end.
  destruct (min_occurrences <=?
            length (filter (in_group k) successful_messages))%nat;
    simpl; lia.
Qed.

Lemma template_rows_previews min_occurrences successful_messages keys :
  NoDup keys ->
  NoDup
    (map template_preview
       (template_rows min_occurrences successful_messages keys)).
Proof.
  induction keys as [|k keys IH]; intros Hnd; [constructor|].
  inversion Hnd as [|? ? Hnotin Hnd']; subst.
  change (template_rows min_occurrences successful_messages (k :: keys))
    with ((let group := filter (in_group k) successful_messages in
           if (min_occurrences <=? length group)%nat
           then [template k group] else []) ++
          template_rows min_occurrences successful_messages keys).
  cbv zeta.
  destruct (min_occurrences <=?
            length (filter (in_group k) successful_messages))%nat;
    [|now apply IH].
  cbn [app map template_preview template]. constructor; [|now apply IH].
  intros Hin. apply in_map_iff in Hin. destruct Hin as (t & Et & Ht).
  apply template_rows_in in Ht. destruct Ht as (k' & Hk' & _ & ->).
  simpl in Et. subst k'. contradiction.
Qed.

Lemma strongly_sorted_among {A : Type} (R S : A -> A -> Prop) l :
  (forall x y, In x l -> In y l -> R x y -> S x y) ->
  StronglySorted R l -> StronglySorted S l.
Proof.
  intros H Hs. induction Hs as [|x l Hs IH Hall]; constructor.
  - apply IH. intros a b Ha Hb. apply H; now right.
  - apply Forall_forall. intros y Hy. rewrite Forall_forall in Hall.
    apply H; [now left | now right | now apply Hall].
Qed.

Definition well_formed_template
  (outbound_df : list outbound_analyzer.OutboundRecord)
  (min_occurrences : nat) (t : Template) : Prop :=
  (min_occurrences <= usage_count t)%nat /\
  (1 <= usage_count t)%nat /\
  (response_rate t == 1)%Q /\
  exists r,
    In r outbound_df /\ answered r = true /\
    template_preview t = template_key r /\
    example_full_message t =
      outbound_analyzer.content (outbound_analyzer.row r).

(** Only answered messages are grouped, so the response rate of every
    template is 1 and the table is in fact ranked by usage alone, the most
    used template first.  Every template was used at least
    [min_occurrences] times and shows a message of its group; no two
    templates share a preview, and their usage counts add up to no more
    than the number of answered messages. *)
Theorem templates_ranked_by_usage
  (outbound_df : list outbound_analyzer.OutboundRecord)
  (min_occurrences : nat) :
  let templates := get_message_templates outbound_df min_occurrences in
  Forall (well_formed_template outbound_df min_occurrences) templates /\
  NoDup (map template_preview templates) /\
  StronglySorted (fun x y => (usage_count y <= usage_count x)%nat)
    templates /\
  (list_sum (map usage_count templates)
   <= length (filter answered outbound_df))%nat.
Proof.
  cbv zeta. unfold get_message_templates.
  remember (filter answered outbound_df) as successful eqn:Es.
  assert (Hsucc : forall r, In r successful ->
                    In r outbound_df /\ answered r = true).
  { intros r Hr. rewrite Es in Hr. now apply filter_In in Hr. }
  clear Es.
  destruct successful as [|r0 rs];
    [repeat split; try constructor; simpl; lia|].
  cbv iota. remember (r0 :: rs) as successful eqn:E. clear E r0 rs.
  set (keys := stable_sort String.leb
                 (analyzer.unique (map template_key successful))).
  set (rows := template_rows min_occurrences successful keys).
  assert (Hsorted_rows :
            match rows with
            | [] => []
            | t :: l => stable_sort template_order (t :: l)
            end = stable_sort template_order rows)
    by (destruct rows; reflexivity).
  rewrite Hsorted_rows. clear Hsorted_rows.
  pose proof (stable_sort_perm template_order rows) as Hperm.
  assert (Hkeys : Permutation keys
                    (analyzer.unique (map template_key successful)))
    by apply stable_sort_perm.
  assert (Hnd_keys : NoDup keys).
  { eapply Permutation_NoDup; [symmetry; exact Hkeys|].
    apply analyzer.unique_nodup. }
  assert (Hrows : Forall (well_formed_template outbound_df min_occurrences)
                    rows).
  { apply Forall_forall. intros t Ht. unfold rows in Ht.
    apply template_rows_in in Ht. destruct Ht as (k & Hk & Hmin & ->).
    apply (Permutation_in _ Hkeys) in Hk.
    apply analyzer.unique_in, in_map_iff in Hk.
    destruct Hk as (r & Er & Hr).
    assert (Hin : In r (filter (in_group k) successful)).
    { apply filter_In. split; [exact Hr|].
      unfold in_group. now apply String.eqb_eq. }
    assert (Hall : filter answered (filter (in_group k) successful) =
                   filter (in_group k) successful).
    { rewrite <- (outbound_analyzer.filter_true
                    (filter (in_group k) successful)) at 2.
      apply filter_ext_in. intros x Hx. apply filter_In in Hx.
      now apply Hsucc. }
    unfold well_formed_template, template.
    cbn [usage_count response_rate template_preview example_full_message].
    rewrite Hall.
    destruct (filter (in_group k) successful) as [|g gs] eqn:Eg;
      [inversion Hin|].
    split; [exact Hmin|]. split; [simpl; lia|]. split.
    - apply Qmult_inv_r. unfold Qeq. simpl. lia.
    - exists g.
      assert (Hg : In g (filter (in_group k) successful))
        by (rewrite Eg; now left).
      apply filter_In in Hg. destruct Hg as [Hg Hk].
      destruct (Hsucc g Hg) as [H1 H2].
      unfold in_group in Hk. apply String.eqb_eq in Hk.
      now repeat split. }
  assert (Hall : Forall (well_formed_template outbound_df min_occurrences)
                   (stable_sort template_order rows)).
  { apply Forall_forall. intros t Ht. rewrite Forall_forall in Hrows.
    apply Hrows. now apply (Permutation_in _ Hperm). }
  split; [exact Hall|]. split; [|split].
  - eapply Permutation_NoDup.
    + apply Permutation_map. symmetry. exact Hperm.
    + unfold rows. now apply template_rows_previews.
  - eapply strongly_sorted_among;
      [|apply (stable_sort_sorted template_order template_order_total
                 template_order_trans)].
    intros x y Hx Hy Hxy. rewrite Forall_forall in Hall.
    destruct (Hall x Hx) as (_ & _ & Rx & _).
    destruct (Hall y Hy) as (_ & _ & Ry & _).
    apply template_order_spec in Hxy. destruct Hxy as [Hlt|[_ Hle]];
      [|exact Hle].
    rewrite Rx, Ry in Hlt. discriminate.
  - rewrite (outbound_analyzer.list_sum_same _ _
               (Permutation_map usage_count Hperm)).
    unfold rows.
    eapply Nat.le_trans; [apply template_rows_usage|].
    rewrite (outbound_analyzer.list_sum_same _ _
               (Permutation_map
                  (fun k => length (filter (in_group k) successful))
                  Hkeys)).
    pose proof (outbound_analyzer.count_over_keys template_key
                  (fun _ => true) successful) as Hcount.
    rewrite outbound_analyzer.filter_true in Hcount.
    rewrite <- Hcount. apply Nat.eq_le_incl. f_equal. apply map_ext.
    intros k. now rewrite outbound_analyzer.filter_true.
Qed.

End outbound_templates.

(** * src/analyzer.py: the column stages

    [analyze_message_sentiment] and [calculate_message_metrics] add the
    columns that the later stages read.  They stand here because the
    patterns need [re].  Texts are read as strings of one-byte
    characters. *)

Module metrics.

Definition chars (s : string) : list ascii := String.list_ascii_of_string s.

Section Sentiment.

(** [TextBlob(str(text)).sentiment.polarity], a function of the text that
    the library documents to lie between -1 and 1. *)
Variable polarity : string -> Q.

(** Lines 20-28; the content of a loaded row is never missing. *)
Definition get_sentiment (text : string) : Q :=
  if String.eqb (sales_analyzer.strip text) "" then 0%Q else polarity text.

Definition set_sentiment (v : Q) (m : Message) : Message :=
  mkMessage (idx m) (thread_id m) (sender m) (recipient m) (timestamp m)
    (content m) (direction m) (contact_person m) v
    (message_length m) (word_count m) (question_count m) (has_greeting m)
    (has_url m) (has_linkedin_profile m)
    (is_reply m) (is_first_message m) (is_outbound_initiated m)
    (response_time_hours m) (previous_sender m)
    (is_sales_message m) (sales_type m).

(** Lines 7-39, the polarity column. *)
Definition analyze_message_sentiment (df : list Message) : list Message :=
  map (fun m => set_sentiment (get_sentiment (content m)) m) df.

End Sentiment.

(** [str.len()] *)
Definition str_len (s : string) : Z := Z.of_nat (length (chars s)).

(** [str.split()] and [str.len()]: the number of maximal runs of
    characters that are not white space. *)
Fixpoint count_words (in_word : bool) (s : list ascii) : Z :=
  match s with
  | [] => 0
  | c :: s' =>
      if sales_analyzer.is_space c then count_words false s'
      else (if in_word then 0 else 1) + count_words true s'
  end.

(** [str.count(r'\?')] *)
Definition count_char (c : ascii) (s : string) : Z :=
  Z.of_nat (length (filter (Ascii.eqb c) (chars s))).

Definition in_range (lo hi : N) (c : ascii) : bool :=
  let n := N_of_ascii c in N.leb lo n && N.leb n hi.

Definition hex_digit : re.regex :=
  re.Chr (fun c => in_range 48 57 c || in_range 97 102 c || in_range 65 70 c).

(** [(?:[a-zA-Z]|[0-9]|[$-_@.&+]|[!*\\(\\),]|(?:%[0-9a-fA-F][0-9a-fA-F]))];
    in the third class [$-_] is a range. *)
Definition url_char : re.regex :=
  re.alts
    [ re.Chr (fun c => in_range 97 122 c || in_range 65 90 c);
      re.digit;
      re.Chr (fun c =>
                in_range 36 95 c ||
                existsb (Ascii.eqb c) (chars "@.&+"));
      re.Chr (fun c =>
                existsb (Ascii.eqb c) ["!"; "*"; "\"; "("; ")"; ","]%char);
      re.seq [re.lit "%"; hex_digit; hex_digit] ].

Definition url_pattern : re.regex :=
  re.seq [re.lit "http"; re.opt (re.lit "s"); re.lit "://"; re.plus url_char].

(** [\w] *)
Definition is_word_char (c : ascii) : bool :=
  in_range 48 57 c || in_range 65 90 c || in_range 97 122 c ||
  Ascii.eqb c "_"%char.

(** The text starts with the word, and the word ends there ([\b]). *)
Fixpoint word_here (w s : list ascii) : bool :=
  match w with
  | [] =>
      match s with
      | [] => true
      | c :: _ => negb (is_word_char c)
      end
  | a :: w' =>
      match s with
      | [] => false
      | c :: s' => Ascii.eqb a c && word_here w' s'
      end
  end.

(** [re.search(r'\bword\b', s)] for a word that starts and ends with a
    word character: it must start where no word character precedes. *)
Fixpoint word_search_from (after_word_char : bool) (w s : list ascii)
  : bool :=
  (negb after_word_char && word_here w s) ||
  match s with
  | [] => false
  | c :: s' => word_search_from (is_word_char c) w s'
  end.

Definition greeting_words : list string :=
  [ "hi"; "hello"; "hey"; "thanks"; "thank you"; "hope"; "good morning";
    "good afternoon" ].

(** Lines 79-85; [case=False] is matching on the lowercased text. *)
Definition greets (text : string) : bool :=
  existsb (fun w => word_search_from false (chars w) (chars (lower text)))
    greeting_words.

Definition set_metrics (len words questions : Z) (greeting url profile : bool)
  (m : Message) : Message :=
  mkMessage (idx m) (thread_id m) (sender m) (recipient m) (timestamp m)
    (content m) (direction m) (contact_person m) (sentiment_polarity m)
    len words questions greeting url profile
    (is_reply m) (is_first_message m) (is_outbound_initiated m)
    (response_time_hours m) (previous_sender m)
    (is_sales_message m) (sales_type m).

Definition metrics_row (m : Message) : Message :=
  let text := content m in
  set_metrics (str_len text) (count_words false (chars text))
    (count_char "?"%char text) (greets text)
    (re.search url_pattern text)
    (re.search (re.lit "linkedin.com/in/") text) m.

(** Lines 41-87, the columns that are read later. *)
Definition calculate_message_metrics (df : list Message) : list Message :=
  map metrics_row df.

Example metrics_example :
  let m := metrics_row
             (analyzer.sample_message 0 "t" "a" "b" None
                "Hi Bob,  are you free?  See https://example.com/x?y=1"
                outbound) in
  (message_length m, word_count m, question_count m, has_greeting m,
   has_url m, has_linkedin_profile m) = (53, 7, 2, true, true, false).
Proof. vm_compute. reflexivity. Qed.

Example greeting_needs_a_whole_word :
  greets "This is it" = false /\ greets "oh, HI!" = true /\
  greets "Thank you" = true /\ greets "thanksgiving" = false.
Proof. vm_compute. repeat split. Qed.

Example url_needs_a_scheme :
  re.search url_pattern "see linkedin.com/in/bob" = false /\
  re.search url_pattern "see http://" = false /\
  re.search url_pattern "see http://x" = true.
Proof. vm_compute. repeat split. Qed.

Lemma count_words_bounds s :
  forall in_word,
    0 <= count_words in_word s /\
    2 * count_words in_word s <=
      Z.of_nat (length s) + (if in_word then 0 else 1).
Proof.
  induction s as [|c s IH]; intros b; cbn [count_words length].
  - destruct b; lia.
  - destruct (sales_analyzer.is_space c).
    + destruct (IH false). destruct b; lia.
    + destruct (IH true). destruct b; lia.
Qed.

Lemma count_words_none s :
  count_words false s = 0 <-> forallb sales_analyzer.is_space s = true.
Proof.
  induction s as [|c s IH]; cbn [count_words forallb]; [tauto|].
  destruct (sales_analyzer.is_space c); cbn [andb]; [exact IH|].
  pose proof (count_words_bounds s true) as [H0 _].
  split; [lia | discriminate].
Qed.

Example url_characters :
  re.search url_pattern "http://~" = false /\
  re.search url_pattern "https://#" = false /\
  re.search url_pattern "http://!" = true.
Proof. vm_compute. repeat split. Qed.

Example word_boundaries :
  greets "hi_there" = false /\ greets "hi-there" = true /\
  greets "_hi" = false /\ greets "9hi" = false.
Proof. vm_compute. repeat split. Qed.

(** The shortest text a pattern can match. *)
Fixpoint min_len (r : re.regex) : nat :=
  match r with
  | re.Nul => 0
  | re.Eps => 0
  | re.Chr _ => 1
  | re.Cat r1 r2 => min_len r1 + min_len r2
  | re.Alt r1 r2 => Nat.min (min_len r1) (min_len r2)
  | re.Star _ => 0
  end.

Lemma min_len_spec r s : re.Lang r s -> (min_len r <= length s)%nat.
Proof.
  induction 1; cbn [min_len length]; try rewrite length_app; lia.
Qed.

Lemma search_min_len r text :
  re.search r text = true -> Z.of_nat (min_len r) <= str_len text.
Proof.
  intros H. apply re.search_spec in H.
  destruct H as (pre & m & post & E & Hm). apply min_len_spec in Hm.
  unfold str_len, chars. rewrite E, !length_app. lia.
Qed.

Lemma lstrip_nil l :
  sales_analyzer.lstrip_chars l = [] <->
  forallb sales_analyzer.is_space l = true.
Proof.
  induction l as [|c l IH]; cbn [sales_analyzer.lstrip_chars forallb];
    [tauto|].
  destruct (sales_analyzer.is_space c); cbn [andb]; [exact IH|].
  split; discriminate.
Qed.

Lemma lstrip_keeps_last l c :
  sales_analyzer.is_space c = false ->
  sales_analyzer.lstrip_chars (l ++ [c]) <> [].
Proof.
  intros Hc H. apply lstrip_nil in H. rewrite forallb_app in H.
  simpl in H. rewrite Hc in H. rewrite andb_false_r in H. discriminate.
Qed.

Lemma lstrip_head l c l' :
  sales_analyzer.lstrip_chars l = c :: l' -> sales_analyzer.is_space c = false.
Proof.
  induction l as [|a l IH]; cbn [sales_analyzer.lstrip_chars];
    [discriminate|].
  destruct (sales_analyzer.is_space a) eqn:E; [exact IH|].
  intros H. injection H as <- _. exact E.
Qed.

(** A text strips to the empty string exactly when it is all white
    space. *)
Lemma strip_empty text :
  sales_analyzer.strip text = "" <->
  forallb sales_analyzer.is_space (chars text) = true.
Proof.
  unfold sales_analyzer.strip. fold (chars text).
  rewrite <- lstrip_nil.
  destruct (sales_analyzer.lstrip_chars (chars text)) as [|c l] eqn:E.
  - simpl. tauto.
  - split; [|discriminate]. intros H. exfalso.
    apply lstrip_head in E.
    assert (K : sales_analyzer.lstrip_chars (rev (c :: l)) <> [])
      by (simpl; now apply lstrip_keeps_last).
    destruct (sales_analyzer.lstrip_chars (rev (c :: l))) as [|a l'] eqn:E';
      [congruence|].
    assert (Hlen : length (chars
                     (String.string_of_list_ascii (rev (a :: l')))) = 0%nat)
      by now rewrite H.
    unfold chars in Hlen.
    rewrite String.list_ascii_of_string_of_list_ascii, length_rev in Hlen.
    discriminate.
Qed.

Definition columns_in_range (m m' : Message) : Prop :=
  same_keys m' m /\ content m' = content m /\
  0 <= question_count m' <= message_length m' /\
  0 <= word_count m' /\ 2 * word_count m' <= message_length m' + 1 /\
  (word_count m' = 0 -> sentiment_polarity m' = 0%Q) /\
  (has_url m' = true -> 8 <= message_length m') /\
  (has_linkedin_profile m' = true -> 16 <= message_length m').

(** The two column stages keep every row and its key columns.  Of the
    columns they add: a message has no more question marks than characters
    and at most one word for every two characters, rounded up; a message
    without words has sentiment 0, whatever the sentiment library says; a
    message with a URL has at least 8 characters and one with a profile
    link at least 16. *)
Theorem message_columns_in_range (polarity : string -> Q)
  (df : list Message) :
  Forall2 columns_in_range df
    (calculate_message_metrics (analyze_message_sentiment polarity df)).
Proof.
  unfold calculate_message_metrics, analyze_message_sentiment.
  rewrite map_map.
  induction df as [|m df IH]; cbn [map]; constructor; [|exact IH].
  unfold columns_in_range, metrics_row, set_metrics, set_sentiment.
  cbn [content question_count message_length word_count sentiment_polarity
         has_url has_linkedin_profile].
  split; [repeat split|]. split; [reflexivity|].
  pose proof (count_words_bounds (chars (content m)) false) as [W0 W1].
  split; [|split; [exact W0|split; [exact W1|split; [|split]]]].
  - unfold count_char, str_len.
    pose proof (filter_length_le (Ascii.eqb "?"%char) (chars (content m))).
    lia.
  - intros Hw. apply count_words_none, strip_empty in Hw.
    unfold get_sentiment. now rewrite Hw.
  - intros H. exact (search_min_len _ _ H).
  - intros H. exact (search_min_len _ _ H).
Qed.

End metrics.

(** * src/main.py: the stages in sequence *)

Module main.

Lemma is_outbound_true m : is_outbound m = true <-> direction m = outbound.
Proof.
  unfold is_outbound. destruct (direction m); simpl; split; congruence.
Qed.

(** Reply detection keeps every row, up to the columns it writes, and
    fails only for want of an outbound row. *)
Lemma detect_outcome (df0 : list Message) :
  match analyzer.detect_replies_and_response_times df0 with
  | inr out =>
      (exists m, In m df0 /\ direction m = outbound) /\
      length out = length df0 /\
      forall m, In m out ->
        exists m0, In m0 df0 /\
                   analyzer.init_columns m = analyzer.init_columns m0
  | inl e =>
      e = IndexError /\ forall m, In m df0 -> direction m <> outbound
  end.
Proof.
  destruct (analyzer.detect_replies_and_response_times df0) as [e|out] eqn:E.
  - assert (Hnone : forall m, In m df0 -> direction m <> outbound).
    { intros m Hm Hd.
      destruct (analyzer.detect_returns df0) as [out Hout];
        [now exists m | congruence]. }
    split; [|exact Hnone].
    unfold analyzer.detect_replies_and_response_times in E.
    destruct (iloc0
                (map sender
                   (filter is_outbound
                      (map analyzer.init_columns
                         (sort_values_thread_timestamp thread_id timestamp
                            df0))))) as [e'|u] eqn:Eu.
    + cbn [bind] in E. injection E as <-.
      unfold iloc0 in Eu.
      destruct (map sender
                  (filter is_outbound
                     (map analyzer.init_columns
                        (sort_values_thread_timestamp thread_id timestamp
                           df0)))); [|discriminate].
      unfold raise in Eu. congruence.
    + cbn [bind] in E. discriminate.
  - pose proof (analyzer.detect_resets_to_sorted_frame df0 out E) as Hframe.
    assert (Hrows : forall m, In m out ->
              exists m0, In m0 df0 /\
                         analyzer.init_columns m = analyzer.init_columns m0).
    { intros m Hm.
      assert (K : In (analyzer.init_columns m)
                    (map analyzer.init_columns out)) by now apply in_map.
      rewrite Hframe in K. unfold analyzer.sorted_frame in K.
      apply in_map_iff in K. destruct K as (m0 & E0 & Hm0).
      exists m0. split; [|now symmetry].
      unfold sort_values_thread_timestamp in Hm0.
      now apply stable_sort_in in Hm0. }
    split; [|split; [|exact Hrows]].
    + apply analyzer.detect_unfold in E. destruct E as (u & Hu & _).
      destruct (filter is_outbound (analyzer.sorted_frame df0))
        as [|x l] eqn:Ef; [discriminate|].
      assert (Hx : In x (filter is_outbound (analyzer.sorted_frame df0)))
        by (rewrite Ef; now left).
      apply filter_In in Hx. destruct Hx as [Hx Hd].
      unfold analyzer.sorted_frame in Hx. apply in_map_iff in Hx.
      destruct Hx as (m0 & <- & Hm0).
      unfold sort_values_thread_timestamp in Hm0.
      apply stable_sort_in in Hm0.
      exists m0. split; [exact Hm0|]. now apply is_outbound_true in Hd.
    + rewrite <- (length_map analyzer.init_columns out), Hframe.
      unfold analyzer.sorted_frame, sort_values_thread_timestamp.
      now rewrite length_map, stable_sort_length.
Qed.

Section Pipeline.

Variable polarity : string -> Q.

(** The columns of the two stages between classification and reply
    detection, on one row. *)
Definition add_columns (m : Message) : Message :=
  metrics.metrics_row
    (metrics.set_sentiment (metrics.get_sentiment polarity (content m)) m).

(** Lines 104-117: direction, sentiment, metrics, reply detection.  [main]
    itself passes no owner name. *)
Definition analyzed_df (df : list Message) (user_name : option string)
  : result (list Message) :=
  df_with_direction <- direction.classify_message_direction df user_name ;;
  analyzer.detect_replies_and_response_times
    (metrics.calculate_message_metrics
       (metrics.analyze_message_sentiment polarity df_with_direction)).

Lemma staged_rows (u : string) (df : list Message) :
  metrics.calculate_message_metrics
    (metrics.analyze_message_sentiment polarity
       (map (direction.classify_row u) df)) =
  map (fun m => add_columns (direction.classify_row u m)) df.
Proof.
  unfold metrics.calculate_message_metrics,
    metrics.analyze_message_sentiment.
  now rewrite !map_map.
Qed.

Lemma staged_row_direction u m :
  sender (add_columns (direction.classify_row u m)) = sender m /\
  (direction (add_columns (direction.classify_row u m)) = outbound <->
   sender m = u).
Proof.
  unfold add_columns, direction.classify_row.
  destruct (String.eqb_spec (sender m) u) as [E|E]; simpl;
    (split; [reflexivity|]); split; intros H; congruence.
Qed.

Lemma init_columns_sender_direction a b :
  analyzer.init_columns a = analyzer.init_columns b ->
  sender a = sender b /\ direction a = direction b.
Proof.
  intros H.
  assert (Hs : sender (analyzer.init_columns a) =
               sender (analyzer.init_columns b)) by now rewrite H.
  assert (Hd : direction (analyzer.init_columns a) =
               direction (analyzer.init_columns b)) by now rewrite H.
  now split.
Qed.

Lemma analyzed_with (u : string) (df : list Message) :
  match analyzed_df df (Some u) with
  | inr out =>
      In u (map sender df) /\ length out = length df /\
      forall m, In m out -> (direction m = outbound <-> sender m = u)
  | inl e => e = IndexError /\ ~ In u (map sender df)
  end.
Proof.
  unfold analyzed_df, direction.classify_message_direction.
  cbn [bind ret]. rewrite staged_rows.
  pose proof (detect_outcome
                (map (fun m => add_columns (direction.classify_row u m)) df))
    as H.
  destruct (analyzer.detect_replies_and_response_times
              (map (fun m => add_columns (direction.classify_row u m)) df))
    as [e|out].
  - destruct H as [-> Hnone]. split; [reflexivity|].
    intros Hin. apply in_map_iff in Hin. destruct Hin as (m & Hs & Hm).
    apply (Hnone (add_columns (direction.classify_row u m))).
    + apply in_map_iff. now exists m.
    + now apply staged_row_direction.
  - destruct H as ((m2 & Hm2 & Hd) & Hlen & Hrows).
    split; [|split].
    + apply in_map_iff in Hm2. destruct Hm2 as (m & <- & Hm).
      apply staged_row_direction in Hd. apply in_map_iff. now exists m.
    + now rewrite Hlen, length_map.
    + intros m Hm. destruct (Hrows m Hm) as (m0 & Hm0 & E0).
      apply init_columns_sender_direction in E0. destruct E0 as [-> ->].
      apply in_map_iff in Hm0. destruct Hm0 as (x & <- & _).
      destruct (staged_row_direction u x) as [-> Hiff]. exact Hiff.
Qed.

Lemma identify_user_profile_sender (df : list Message) :
  match direction.identify_user_profile df with
  | inr u => In u (map sender df)
  | inl e => e = IndexError /\ df = []
  end.
Proof.
  unfold direction.identify_user_profile.
  pose proof (direction.value_counts_in (map sender df)) as Hin.
  destruct (direction.value_counts (map sender df)) as [|[u n] rest].
  - split; [reflexivity|].
    destruct df as [|m df]; [reflexivity|]. exfalso.
    apply (Hin (sender m)
             (direction.count_of (sender m) (map sender (m :: df)))).
    split; [now left | reflexivity].
  - apply (Hin u n). now left.
Qed.

(** Run as [main] runs it, with the owner detected from the frame, the
    analysis fails only on the empty frame, there with the IndexError of
    the owner look-up.  On any other frame reply detection finds an
    outbound row: it returns all the rows, and the rows marked outbound are
    exactly those sent by the detected owner. *)
Theorem auto_detected_owner_is_found (df : list Message) :
  match analyzed_df df None with
  | inr out =>
      df <> [] /\ length out = length df /\
      exists u,
        direction.identify_user_profile df = inr u /\
        forall m, In m out -> (direction m = outbound <-> sender m = u)
  | inl e => e = IndexError /\ df = []
  end.
Proof.
  pose proof (identify_user_profile_sender df) as Hid.
  assert (E : analyzed_df df None =
              match direction.identify_user_profile df with
              | inr u => analyzed_df df (Some u)
              | inl e => inl e
              end).
  { unfold analyzed_df, direction.classify_message_direction.
    destruct (direction.identify_user_profile df); reflexivity. }
  rewrite E. clear E.
  destruct (direction.identify_user_profile df) as [e|u]; [exact Hid|].
  pose proof (analyzed_with u df) as H.
  destruct (analyzed_df df (Some u)) as [e|out].
  - destruct H as [_ H]. contradiction.
  - destruct H as (_ & Hlen & Hrows).
    split; [|split; [exact Hlen|]].
    + intros ->. inversion Hid.
    + exists u. now split.
Qed.

(** With the owner given by name, the analysis succeeds exactly when that
    name occurs among the senders; a name that sent nothing leaves no
    outbound row, and reply detection raises IndexError. *)
Theorem named_owner_must_be_a_sender (df : list Message) (u : string) :
  match analyzed_df df (Some u) with
  | inr out =>
      In u (map sender df) /\ length out = length df /\
      forall m, In m out -> (direction m = outbound <-> sender m = u)
  | inl e => e = IndexError /\ ~ In u (map sender df)
  end.
Proof. exact (analyzed_with u df). Qed.

Hypothesis polarity_range : forall text, (-1 <= polarity text <= 1)%Q.

Lemma analyzed_columns df user_name out m :
  analyzed_df df user_name = inr out -> In m out ->
  (-1 <= sentiment_polarity m <= 1)%Q /\
  0 <= question_count m /\ 0 <= word_count m.
Proof.
  unfold analyzed_df. intros H Hm.
  destruct (direction.classify_message_direction df user_name)
    as [e|df1]; [discriminate|].
  cbn [bind] in H.
  pose proof (detect_outcome
                (metrics.calculate_message_metrics
                   (metrics.analyze_message_sentiment polarity df1))) as Ho.
  rewrite H in Ho. destruct Ho as (_ & _ & Hrows).
  destruct (Hrows m Hm) as (m0 & Hm0 & E0).
  assert (Es : sentiment_polarity m = sentiment_polarity m0).
  { change (sentiment_polarity (analyzer.init_columns m) =
            sentiment_polarity (analyzer.init_columns m0)). now rewrite E0. }
  assert (Eq : question_count m = question_count m0).
  { change (question_count (analyzer.init_columns m) =
            question_count (analyzer.init_columns m0)). now rewrite E0. }
  assert (Ew : word_count m = word_count m0).
  { change (word_count (analyzer.init_columns m) =
            word_count (analyzer.init_columns m0)). now rewrite E0. }
  rewrite Es, Eq, Ew.
  unfold metrics.calculate_message_metrics,
    metrics.analyze_message_sentiment in Hm0.
  rewrite map_map in Hm0. apply in_map_iff in Hm0.
  destruct Hm0 as (x & <- & _).
  unfold metrics.metrics_row, metrics.set_metrics, metrics.set_sentiment.
  cbn [sentiment_polarity question_count word_count content].
  split; [|split].
  - unfold metrics.get_sentiment.
    destruct (String.eqb (sales_analyzer.strip (content x)) "");
      [split; discriminate | apply polarity_range].
  - unfold metrics.count_char. lia.
  - apply metrics.count_words_bounds.
Qed.

(** With a sentiment between -1 and 1, as the sentiment library documents
    it, no record of the performance table has a negative score, an
    answered message scores at least 10, and an unanswered one can reach
    that mark only through its question marks and its length. *)
Theorem performance_score_range
  (df : list Message) (user_name : option string) (out : list Message)
  (table : list outbound_analyzer.OutboundRecord)
  (r : outbound_analyzer.OutboundRecord) :
  analyzed_df df user_name = inr out ->
  outbound_analyzer.analyze_outbound_performance out = inr table ->
  In r table ->
  (0 <= outbound_analyzer.performance_score r)%Q /\
  (outbound_analyzer.got_response (outbound_analyzer.row r) = true ->
   (10 <= outbound_analyzer.performance_score r)%Q) /\
  (outbound_analyzer.got_response (outbound_analyzer.row r) = false ->
   (outbound_analyzer.performance_score r <=
    5 + inject_Z (outbound_analyzer.question_count (outbound_analyzer.row r))
        / 2
      + inject_Z (outbound_analyzer.word_count (outbound_analyzer.row r))
        / 500)%Q).
Proof.
  intros Hrun Htable Hr.
  destruct (outbound_analyzer.table_record out table r Htable Hr)
    as (m & Hm & _ & ->).
  destruct (analyzed_columns df user_name out m Hrun Hm)
    as ([Hs1 Hs2] & Hq & Hw).
  unfold outbound_analyzer.add_score, outbound_analyzer.score,
    outbound_analyzer.analyze_message.
  cbn [outbound_analyzer.performance_score outbound_analyzer.row
         outbound_analyzer.got_response outbound_analyzer.sentiment_polarity
         outbound_analyzer.has_greeting outbound_analyzer.question_count
         outbound_analyzer.word_count].
  assert (Hq' : (0 <= inject_Z (question_count m))%Q)
    by (unfold Qle; simpl; lia).
  assert (Hw' : (0 <= inject_Z (word_count m))%Q)
    by (unfold Qle; simpl; lia).
  unfold Qdiv. change (/ 50)%Q with (1 # 50)%Q.
  change (/ 2)%Q with (1 # 2)%Q. change (/ 500)%Q with (1 # 500)%Q.
  destruct (outbound_analyzer.responses out m), (has_greeting m);
    unfold b2q; repeat split; intros; try discriminate; lra.
Qed.

End Pipeline.

(** A sentiment function for the examples: every text is neutral. *)
Definition neutral (text : string) : Q := 0%Q.

Lemma neutral_range text : (-1 <= neutral text <= 1)%Q.
Proof. unfold neutral, Qle. simpl. lia. Defined.

Definition two_hour_analyzed : list Message :=
  Eval vm_compute in
    match analyzed_df neutral analyzer.two_hour_reply None with
    | inr out => out
    | inl _ => []
    end.

Definition two_hour_performance : list outbound_analyzer.OutboundRecord :=
  Eval vm_compute in
    match outbound_analyzer.analyze_outbound_performance two_hour_analyzed
    with
    | inr table => table
    | inl _ => []
    end.

Example two_hour_pipeline :
  map (fun r : outbound_analyzer.OutboundRecord =>
         (outbound_analyzer.message_id (outbound_analyzer.row r),
          outbound_analyzer.word_count (outbound_analyzer.row r),
          outbound_analyzer.has_greeting (outbound_analyzer.row r),
          outbound_analyzer.got_response (outbound_analyzer.row r),
          Qred (outbound_analyzer.performance_score r)))
    two_hour_performance =
  [ (0%nat, 2, true, true, (3251 # 250)%Q) ].
Proof. vm_compute. reflexivity. Qed.

Lemma performance_score_range_witness :
  Forall
    (fun r : outbound_analyzer.OutboundRecord =>
       (0 <= outbound_analyzer.performance_score r)%Q /\
       (outbound_analyzer.got_response (outbound_analyzer.row r) = true ->
        (10 <= outbound_analyzer.performance_score r)%Q) /\
       (outbound_analyzer.got_response (outbound_analyzer.row r) = false ->
        (outbound_analyzer.performance_score r <=
         5 + inject_Z (outbound_analyzer.question_count
                         (outbound_analyzer.row r)) / 2
           + inject_Z (outbound_analyzer.word_count
                         (outbound_analyzer.row r)) / 500)%Q))
    two_hour_performance.
Proof.
  apply Forall_forall. intros r Hr.
  exact (performance_score_range neutral neutral_range
           analyzer.two_hour_reply None two_hour_analyzed
           two_hour_performance r eq_refl eq_refl Hr).
Defined.

(** ** From reply detection to the performance table *)

(** After reply detection on a frame with unique labels, every message
    belongs to a thread with a first row.  The performance stage selects a
    message exactly when it is outbound and that first row was sent by the
    detected owner, and it marks a message as a conversation starter exactly
    when the message is that first row and the owner sent it.  The stage
    raises KeyError exactly when it selects nothing. *)
Theorem conversation_starters_open_threads (df0 out : list Message) :
  NoDup (map idx df0) ->
  analyzer.detect_replies_and_response_times df0 = inr out ->
  exists u,
    analyzer.detected_user df0 = inr u /\
    (forall m, In m out ->
       exists first rest,
         analyzer.thread_rows (thread_id m) out = first :: rest /\
         (outbound_analyzer.self_initiated_outbound m = true <->
          direction m = outbound /\ sender first = u) /\
         (outbound_analyzer.is_conversation_starter
            (outbound_analyzer.analyze_message out m) = true <->
          sender first = u /\ idx m = idx first)) /\
    (outbound_analyzer.analyze_outbound_performance out = inl KeyError <->
     forall m, In m out ->
       outbound_analyzer.self_initiated_outbound m = false).
Proof.
  intros Hnd Hrun.
  destruct (analyzer.detect_unfold df0 out Hrun) as (u & Hu & _).
  exists u. split; [exact Hu|]. split.
  - intros m Hm.
    assert (Hin : In m (analyzer.thread_rows (thread_id m) out)).
    { apply filter_In. split; [exact Hm|]. apply String.eqb_refl. }
    destruct (analyzer.thread_rows (thread_id m) out) as [|first rest] eqn:E;
      [inversion Hin|].
    exists first, rest. split; [reflexivity|].
    destruct (analyzer.thread_first_flags df0 out (thread_id m) first rest
                Hnd Hrun E) as [[Hfirst _] Hrest].
    destruct (analyzer.detect_thread_view_user df0 out (thread_id m)
                Hnd Hrun) as (u' & Hu' & Hview).
    assert (u' = u) by congruence. subst u'.
    assert (Hflag : Forall
                      (fun x => is_outbound_initiated x =
                                String.eqb (sender first) u)
                      (first :: rest)).
    { rewrite Hview in E.
      destruct (analyzer.thread_rows (thread_id m)
                  (analyzer.sorted_frame df0)) as [|first0 rest0];
        [discriminate|].
      cbn [analyzer.annotate] in E. injection E as <- <-.
      rewrite analyzer.annotate_first_sender.
      constructor; [reflexivity | apply analyzer.annotate_rest_initiated]. }
    assert (Hm_flag : is_outbound_initiated m = String.eqb (sender first) u).
    { rewrite Forall_forall in Hflag. now apply Hflag. }
    assert (Hnd_out : NoDup (map idx out)).
    { pose proof (analyzer.detect_resets_to_sorted_frame df0 out Hrun) as K.
      rewrite <- (analyzer.map_idx_keys analyzer.init_columns out)
        by apply analyzer.init_columns_keys.
      rewrite K. now apply analyzer.sorted_frame_nodup. }
    assert (Hnd_thread : NoDup (map idx (first :: rest))).
    { rewrite <- E. unfold analyzer.thread_rows.
      now apply analyzer.nodup_idx_filter. }
    split.
    + unfold outbound_analyzer.self_initiated_outbound.
      rewrite andb_true_iff, is_outbound_true, Hm_flag, String.eqb_eq.
      reflexivity.
    + unfold outbound_analyzer.analyze_message.
      cbn [outbound_analyzer.is_conversation_starter].
      rewrite andb_true_iff, Hm_flag, String.eqb_eq.
      destruct Hin as [<-|Hin].
      * rewrite Hfirst. tauto.
      * rewrite Forall_forall in Hrest. rewrite (Hrest m Hin).
        split; [intros [K _]; discriminate|]. intros [_ K]. exfalso.
        cbn [map] in Hnd_thread.
        inversion Hnd_thread as [|? ? Hnotin _]; subst.
        apply Hnotin. rewrite <- K. now apply in_map.
  - unfold outbound_analyzer.analyze_outbound_performance.
    destruct (filter outbound_analyzer.self_initiated_outbound out)
      as [|x l] eqn:Ef; cbn [map].
    + split; [|reflexivity]. intros _ m Hm.
      destruct (outbound_analyzer.self_initiated_outbound m) eqn:K;
        [|reflexivity].
      assert (Hx : In m (filter outbound_analyzer.self_initiated_outbound
                           out)) by (apply filter_In; now split).
      rewrite Ef in Hx. inversion Hx.
    + split; [discriminate|]. intros H.
      assert (Hx : In x (filter outbound_analyzer.self_initiated_outbound
                           out)) by (rewrite Ef; now left).
      apply filter_In in Hx. destruct Hx as [Hx K].
      rewrite (H x Hx) in K. discriminate.
Qed.

Lemma conversation_starters_open_threads_witness :
  exists u,
    analyzer.detected_user analyzer.two_threads = inr u /\
    (forall m, In m analyzer.two_threads_out ->
       exists first rest,
         analyzer.thread_rows (thread_id m) analyzer.two_threads_out
           = first :: rest /\
         (outbound_analyzer.self_initiated_outbound m = true <->
          direction m = outbound /\ sender first = u) /\
         (outbound_analyzer.is_conversation_starter
            (outbound_analyzer.analyze_message analyzer.two_threads_out m)
            = true <->
          sender first = u /\ idx m = idx first)) /\
    (outbound_analyzer.analyze_outbound_performance analyzer.two_threads_out
       = inl KeyError <->
     forall m, In m analyzer.two_threads_out ->
       outbound_analyzer.self_initiated_outbound m = false).
Proof.
  exact (conversation_starters_open_threads analyzer.two_threads
           analyzer.two_threads_out analyzer.two_threads_nodup
           analyzer.two_threads_run).
Defined.

End main.
